(** * Finn_AI: the question interpreter and the metric engine

    A shallow embedding of [agent/planner.py] and [agent/tools.py], and of
    the renaming of the columns in [app.py].

    Modelling conventions.
    - A Python [str] is a [string]; the texts are 7-bit: the character
      classes below are the ones Python's [re] uses on code points below 128.
    - A Python [float], and a value of a numeric column, is a binary64
      float: Rocq's primitive [float], with its rounding, its two zeros, its
      infinities and [nan].  [+], [-], [*], [/], [==] and [<=] are the
      IEEE 754 operations.
    - The reductions of pandas ([Series.sum], the grouped [sum],
      [Series.mean]) are operations of the class [Pandas], about which
      nothing is assumed: the order and the compensation of the additions
      depend on the version of pandas and NumPy and on the length of the
      column.  So does the range of dates a [pd.Timestamp] holds, beyond the
      months every version accepts or refuses.
    - A data frame is the list of its rows, in row order.
    - A Python exception is the [Raise] constructor of [result]. *)

From Stdlib Require Import Floats.
From Stdlib Require Import List String Ascii Bool Arith ZArith QArith Lia.
From Stdlib Require Import Sorted DecimalString.
Import ListNotations.

Set Implicit Arguments.

(* ================================================================== *)
(** ** Characters and strings *)

Module Text.

Definition code (a : ascii) : nat := nat_of_ascii a.

Definition between (lo hi : nat) (a : ascii) : bool :=
  (lo <=? code a)%nat && (code a <=? hi)%nat.

(** [\d] *)
Definition is_digit (a : ascii) : bool := between 48 57 a.

(** [\s]: tab, newline, vertical tab, form feed, carriage return, the four
    separators 28..31 and the space. *)
Definition is_space (a : ascii) : bool :=
  between 9 13 a || between 28 31 a || (code a =? 32)%nat.

Definition is_upper (a : ascii) : bool := between 65 90 a.
Definition is_lower (a : ascii) : bool := between 97 122 a.

(** [\w] *)
Definition is_word (a : ascii) : bool :=
  is_digit a || is_upper a || is_lower a || (code a =? 95)%nat.

Definition lower_char (a : ascii) : ascii :=
  if is_upper a then ascii_of_nat (code a + 32) else a.

Definition upper_char (a : ascii) : ascii :=
  if is_lower a then ascii_of_nat (code a - 32) else a.

Definition chars (s : string) : list ascii := list_ascii_of_string s.
Definition str (l : list ascii) : string := string_of_list_ascii l.

(** [str.lower()] and [str.upper()] *)
Definition lower (s : string) : string := str (map lower_char (chars s)).
Definition upper (s : string) : string := str (map upper_char (chars s)).

Definition digit_val (a : ascii) : Z := Z.of_nat (code a - 48).

(** [int(s)] on a run of decimal digits *)
Definition int_of_digits (l : list ascii) : Z :=
  fold_left (fun acc a => (10 * acc + digit_val a)%Z) l 0%Z.

Fixpoint prefix_of (p s : list ascii) : bool :=
  match p, s with
  | [], _ => true
  | a :: p', b :: s' => Ascii.eqb a b && prefix_of p' s'
  | _ :: _, [] => false
  end.

(** [str.startswith] *)
Definition startswith (s p : string) : bool := prefix_of (chars p) (chars s).

(** [str.replace(old, '')] for a non-empty [old]: every non-overlapping
    occurrence, scanning from the left, is removed. *)
Fixpoint remove_all_fuel (fuel : nat) (old s : list ascii) : list ascii :=
  match fuel with
  | O => s
  | S fuel' =>
      match s with
      | [] => []
      | a :: s' =>
          if prefix_of old s
          then remove_all_fuel fuel' old (skipn (List.length old) s)
          else a :: remove_all_fuel fuel' old s'
      end
  end.

Definition remove_all (old s : string) : string :=
  str (remove_all_fuel (S (String.length s)) (chars old) (chars s)).

End Text.

(* ================================================================== *)
(** ** Regular expressions: the fragment of Python's [re] the planner uses

    A backtracking matcher in continuation-passing style.  Alternatives are
    tried left to right and a star takes as many iterations as it can before
    it gives one back, so the first success is the match Python reports,
    capture groups included. *)

Module Re.
Import Text.

Inductive regex : Type :=
| Eps : regex
| Cls : (ascii -> bool) -> regex      (* one character of a class *)
| Seq : regex -> regex -> regex
| Alt : regex -> regex -> regex
| Star : regex -> regex               (* greedy [*] *)
| Grp : nat -> regex -> regex         (* capturing group number [n] *)
| Bnd : regex.                        (* [\b] *)

(** The groups that took part in the match, the latest capture first. *)
Definition caps : Type := list (nat * list ascii).

(** What remains to be matched: the character before the current position,
    the rest of the text and the groups captured so far. *)
Definition cont : Type := option ascii -> list ascii -> caps -> option caps.

Definition word_at (o : option ascii) : bool :=
  match o with Some a => is_word a | None => false end.

(** [\b] holds between a word character and a non-word character (or an
    end of the text). *)
Definition boundary (prev : option ascii) (s : list ascii) : bool :=
  negb (Bool.eqb (word_at prev) (word_at (hd_error s))).

(** The iterations of a star whose body is run by [body]: one more
    iteration first, as long as it consumes something; [n] bounds the number
    of iterations by the length of the text. *)
Fixpoint star_loop
  (body : option ascii -> list ascii -> caps -> cont -> option caps)
  (k : cont) (n : nat) (prev : option ascii) (s : list ascii) (c : caps)
  {struct n} : option caps :=
  match n with
  | O => k prev s c
  | S n' =>
      match body prev s c
              (fun prev' s' c' =>
                 if (List.length s' <? List.length s)%nat
                 then star_loop body k n' prev' s' c' else None) with
      | Some m => Some m
      | None => k prev s c
      end
  end.

Fixpoint run (r : regex) (prev : option ascii) (s : list ascii) (c : caps)
  (k : cont) {struct r} : option caps :=
  match r with
  | Eps => k prev s c
  | Cls p =>
      match s with
      | a :: s' => if p a then k (Some a) s' c else None
      | [] => None
      end
  | Seq r1 r2 => run r1 prev s c (fun prev' s' c' => run r2 prev' s' c' k)
  | Alt r1 r2 =>
      match run r1 prev s c k with
      | Some m => Some m
      | None => run r2 prev s c k
      end
  | Star r1 => star_loop (run r1) k (List.length s) prev s c
  | Grp i r1 =>
      run r1 prev s c
        (fun prev' s' c' =>
           k prev' s' ((i, firstn (List.length s - List.length s') s) :: c'))
  | Bnd => if boundary prev s then k prev s c else None
  end.

Definition accept : cont := fun _ _ c => Some c.

(** [re.search]: the match at the leftmost start position that has one. *)
Fixpoint search_from (r : regex) (prev : option ascii) (s : list ascii)
  : option caps :=
  match run r prev s [] accept with
  | Some c => Some c
  | None =>
      match s with
      | [] => None
      | a :: s' => search_from r (Some a) s'
      end
  end.

Definition search (r : regex) (text : string) : option caps :=
  search_from r None (chars text).

Definition found (r : regex) (text : string) : bool :=
  match search r text with Some _ => true | None => false end.

(** [m.group(i)] of a group that took part in the match *)
Fixpoint group (i : nat) (c : caps) : list ascii :=
  match c with
  | [] => []
  | (j, w) :: c' => if (i =? j)%nat then w else group i c'
  end.

(** *** Pattern syntax *)

Definition chr (a : ascii) : regex := Cls (Ascii.eqb a).

(** a literal character under [re.I] *)
Definition chr_i (a : ascii) : regex :=
  Cls (fun b => Ascii.eqb (lower_char a) (lower_char b)).

Fixpoint seq_of (f : ascii -> regex) (l : list ascii) : regex :=
  match l with
  | [] => Eps
  | [a] => f a
  | a :: l' => Seq (f a) (seq_of f l')
  end.

Definition lit (s : string) : regex := seq_of chr (chars s).
Definition lit_i (s : string) : regex := seq_of chr_i (chars s).

Definition opt (r : regex) : regex := Alt r Eps.       (* [r?] *)
Definition plus (r : regex) : regex := Seq r (Star r).  (* [r+] *)
Definition digit : regex := Cls is_digit.              (* [\d] *)
Definition space : regex := Cls is_space.              (* [\s] *)
(** [.] without [re.S]: anything but a newline *)
Definition dot : regex := Cls (fun a => negb (code a =? 10)%nat).

Fixpoint seqs (l : list regex) : regex :=
  match l with
  | [] => Eps
  | [r] => r
  | r :: l' => Seq r (seqs l')
  end.

Fixpoint alts (r : regex) (l : list regex) : regex :=
  match l with
  | [] => r
  | r' :: l' => Alt r (alts r' l')
  end.

End Re.

(* ================================================================== *)
(** ** What a pattern matches *)

Module ReSpec.
Import Text Re.

(** the character before the position reached after reading [w] *)
Definition last_char (prev : option ascii) (w : list ascii) : option ascii :=
  fold_left (fun _ a => Some a) w prev.

Section Star.
Variable P : option ascii -> list ascii -> list ascii -> caps -> caps -> Prop.

(** iterations of a body, each of them non-empty *)
Inductive star_match : option ascii -> list ascii -> list ascii -> caps -> caps -> Prop :=
| star_done : forall prev rest c, star_match prev [] rest c c
| star_step : forall prev w1 w2 rest c c1 c2,
    w1 <> [] ->
    P prev w1 (w2 ++ rest) c c1 ->
    star_match (last_char prev w1) w2 rest c1 c2 ->
    star_match prev (w1 ++ w2) rest c c2.

End Star.

(** [matches r prev w rest c c']: the pattern [r] matches the word [w],
    read after the character [prev] and followed by [rest]; the groups go
    from [c] to [c']. *)
Fixpoint matches (r : regex) (prev : option ascii) (w rest : list ascii)
  (c c' : caps) {struct r} : Prop :=
  match r with
  | Eps => w = [] /\ c' = c
  | Cls p => exists a, w = [a] /\ p a = true /\ c' = c
  | Seq r1 r2 =>
      exists w1 w2 c1,
        w = w1 ++ w2
        /\ matches r1 prev w1 (w2 ++ rest) c c1
        /\ matches r2 (last_char prev w1) w2 rest c1 c'
  | Alt r1 r2 => matches r1 prev w rest c c' \/ matches r2 prev w rest c c'
  | Star r1 => star_match (matches r1) prev w rest c c'
  | Grp i r1 => exists c1, matches r1 prev w rest c c1 /\ c' = (i, w) :: c1
  | Bnd => w = [] /\ c' = c /\ boundary prev rest = true
  end.

(** the pattern has a match that starts after [pre] *)
Definition matches_at (r : regex) (s pre w rest : list ascii) (c : caps) : Prop :=
  s = pre ++ w ++ rest /\ matches r (last_char None pre) w rest [] c.

(** a matcher that succeeds with [res] has read a word the pattern matches
    and handed the rest to its continuation *)
Definition sound_on (res : caps)
  (body : option ascii -> list ascii -> caps -> cont -> option caps)
  (P : option ascii -> list ascii -> list ascii -> caps -> caps -> Prop) : Prop :=
  forall prev s c k,
    body prev s c k = Some res ->
    exists w rest c', s = (w ++ rest)%list /\ P prev w rest c c'
                      /\ k (last_char prev w) rest c' = Some res.

(** a matcher succeeds on a word the pattern matches whenever its
    continuation succeeds after it *)
Definition complete_on
  (body : option ascii -> list ascii -> caps -> cont -> option caps)
  (P : option ascii -> list ascii -> list ascii -> caps -> caps -> Prop) : Prop :=
  forall prev w rest c c' (k : cont),
    P prev w rest c c' ->
    k (last_char prev w) rest c' <> None ->
    body prev (w ++ rest)%list c k <> None.

End ReSpec.
(* ================================================================== *)
(** ** Python values: exceptions, floats and format specifications *)

Module Py.
Import Text.

Inductive exn : Type :=
| ValueError : exn
| KeyError : exn.

(** The outcome of a call: a value or a raised exception. *)
Inductive result (A : Type) : Type :=
| Ok : A -> result A
| Raise : exn -> result A.
Arguments Ok {A} _.
Arguments Raise {A} _.

Definition bind {A B : Type} (m : result A) (f : A -> result B) : result B :=
  match m with
  | Ok a => f a
  | Raise e => Raise e
  end.

Declare Scope py_scope.
Delimit Scope py_scope with py.
Notation "x <- m ;; f" := (bind m (fun x => f))
  (at level 61, m at next level, right associativity) : py_scope.

(** [np.isnan(x)] *)
Definition isnan (x : float) : bool := PrimFloat.is_nan x.

(** [x != 0]: false on both zeros, true on [nan] *)
Definition nonzero (x : float) : bool := negb (PrimFloat.eqb x 0).

(** *** Format specifications *)

Definition digits (n : Z) : list ascii :=
  chars (DecimalString.NilZero.string_of_uint (N.to_uint (Z.to_N n))).

(** [f"{z}"] *)
Definition format_d (z : Z) : string :=
  DecimalString.NilZero.string_of_int (Z.to_int z).

Definition pad0 (width : nat) (l : list ascii) : list ascii :=
  repeat "0"%char (width - List.length l) ++ l.

(** [f"{z:02d}"] *)
Definition format_02d (z : Z) : string :=
  if (z <? 0)%Z then format_d z else str (pad0 2 (digits z)).

Definition round_half_even (q : Q) : Z :=
  let n := Qnum q in
  let d := Zpos (Qden q) in
  let fl := (n / d)%Z in
  let r2 := (2 * (n mod d))%Z in
  if (r2 <? d)%Z then fl
  else if (d <? r2)%Z then (fl + 1)%Z
  else if Z.even fl then fl else (fl + 1)%Z.

Fixpoint commas_rev (l : list ascii) (n : nat) : list ascii :=
  match l with
  | [] => []
  | a :: l' =>
      match n with
      | 3%nat => ","%char :: a :: commas_rev l' 1
      | _ => a :: commas_rev l' (S n)
      end
  end.

(** thousands separators of the [,] option *)
Definition group3 (l : list ascii) : list ascii := rev (commas_rev (rev l) 0).

(** the value of the finite float of mantissa [m] and exponent [e]:
    [m * 2^e], exactly *)
Definition dyadic (m : positive) (e : Z) : Q :=
  match e with
  | Zneg p => Qmake (Zpos m) (Pos.shiftl 1 (Npos p))
  | _ => inject_Z (Zpos m * 2 ^ e)
  end.

(** the digits of a magnitude: the decimal that is nearest to the exact
    value, ties to even, as the conversion of Python rounds *)
Definition format_abs (prec : nat) (grouping : bool) (q : Q) : list ascii :=
  let scale := (10 ^ Z.of_nat prec)%Z in
  let m := round_half_even (q * inject_Z scale) in
  let ip := digits (m / scale) in
  let ip := if grouping then group3 ip else ip in
  let fp := match prec with
            | O => []
            | _ => "."%char :: pad0 prec (digits (m mod scale))
            end in
  ip ++ fp.

Definition sign (s : bool) : list ascii := if s then ["-"%char] else [].

(** [f"{x:.<prec>f}"], with the [,] option when [grouping] is set: the sign
    is that of the float, also when the digits are all 0 *)
Definition format_f (prec : nat) (grouping : bool) (x : float) : string :=
  match Prim2SF x with
  | S754_nan => "nan"
  | S754_infinity s => str (sign s ++ chars "inf")
  | S754_zero s => str (sign s ++ format_abs prec grouping 0)
  | S754_finite s m e => str (sign s ++ format_abs prec grouping (dyadic m e))
  end.

End Py.

(* ================================================================== *)
(** ** The pandas operations the metric engine relies on *)

Module Frame.

(** The months whose first day a [pd.Timestamp] of nanosecond resolution
    holds: 1677-10 to 2262-04 ([pd.Timestamp.min] is 1677-09-21 and
    [pd.Timestamp.max] is 2262-04-11). *)
Definition ns_month (year month : Z) : bool :=
  ((1 <=? month) && (month <=? 12)
   && (1677 * 12 + 10 <=? year * 12 + month)
   && (year * 12 + month <=? 2262 * 12 + 4))%Z.

(** What the code takes from pandas and what this model leaves open.
    - [series_sum] is [Series.sum()], [group_sum] the sum of one group of
      [groupby(...).sum()] and [series_mean] is [Series.mean()], each on the
      values of a column in row order.
    - [timestamp_ok year month] tells whether
      [pd.Timestamp(year=year, month=month, day=1)] returns.  Every version
      raises (a subclass of) [ValueError] on a month outside 1..12 and
      returns on the months of [ns_month]; later versions, whose timestamps
      have coarser resolutions, return on more. *)
Class Pandas : Type :=
  { series_sum : list float -> float;
    group_sum : list float -> float;
    series_mean : list float -> float;
    timestamp_ok : Z -> Z -> bool;
    timestamp_ok_month :
      forall year month, timestamp_ok year month = true -> (1 <= month <= 12)%Z;
    timestamp_ok_ns :
      forall year month, ns_month year month = true -> timestamp_ok year month = true }.

(** [fillna(v)], on one value *)
Definition fillna (v x : float) : float := if PrimFloat.is_nan x then v else x.

(** [DataFrame.tail(n)]: the last [n] rows; none for [n = 0]; for a negative
    [n], every row but the first [|n|]. *)
Definition tail {A : Type} (n : Z) (l : list A) : list A :=
  if (n =? 0)%Z then []
  else if (n <? 0)%Z then skipn (Z.to_nat (- n)) l
  else skipn (List.length l - Z.to_nat n) l.

Section GroupBy.
Context {P : Pandas} {K : Type} (cmp : K -> K -> comparison).

Definition key_eqb (a b : K) : bool :=
  match cmp a b with Eq => true | _ => false end.

Definition key_lt (a b : K) : Prop := cmp a b = Lt.

Fixpoint insert_key (k : K) (l : list K) : list K :=
  match l with
  | [] => [k]
  | k' :: l' =>
      match cmp k k' with
      | Lt => k :: l
      | Eq => l
      | Gt => k' :: insert_key k l'
      end
  end.

(** the distinct keys, in increasing order *)
Definition sorted_keys (l : list K) : list K := fold_right insert_key [] l.

(** the values of the group of key [k], in row order *)
Definition group (k : K) (rows : list (K * float)) : list float :=
  map snd (filter (fun kv => key_eqb k (fst kv)) rows).

(** [df.groupby(key)[col].sum()]: one entry per distinct key, sorted by
    key, holding the sum of the group's values. *)
Definition groupby_sum (rows : list (K * float)) : list (K * float) :=
  map (fun k => (k, group_sum (group k rows))) (sorted_keys (map fst rows)).

Fixpoint get (k : K) (s : list (K * float)) : option float :=
  match s with
  | [] => None
  | (k', v) :: s' => if key_eqb k k' then Some v else get k s'
  end.

(** the value of a column built from series [s] at index [k], after
    [fillna(0.0)]: 0.0 where the series has no entry and where its entry is
    [nan] *)
Definition column (s : list (K * float)) (k : K) : float :=
  match get k s with Some v => fillna 0 v | None => 0%float end.

(** the index of [pd.DataFrame({...})] built from several series: the sorted
    union of their indexes *)
Definition frame_index (cols : list (list (K * float))) : list K :=
  sorted_keys (flat_map (map fst) cols).

End GroupBy.

(** *** One pandas

    Reductions that skip [nan] and add the values one after the other, in
    row order, and timestamps of nanosecond resolution.  The model is run
    with it on sample tables. *)

Definition skipna (l : list float) : list float :=
  filter (fun x => negb (PrimFloat.is_nan x)) l.

Definition rowwise_sum (l : list float) : float :=
  fold_left PrimFloat.add (skipna l) 0%float.

Definition count (l : list float) : float :=
  PrimFloat.of_uint63 (Uint63.of_Z (Z.of_nat (List.length (skipna l)))).

Definition rowwise_mean (l : list float) : float :=
  (rowwise_sum l / count l)%float.

Definition ns_month_month (year month : Z) (H : ns_month year month = true)
  : (1 <= month <= 12)%Z :=
  let H1 := proj1 (andb_prop _ _ (proj1 (andb_prop _ _ H))) in
  conj (proj1 (Z.leb_le 1 month) (proj1 (andb_prop _ _ H1)))
       (proj1 (Z.leb_le month 12) (proj2 (andb_prop _ _ H1))).

Definition rowwise : Pandas :=
  {| series_sum := rowwise_sum;
     group_sum := rowwise_sum;
     series_mean := rowwise_mean;
     timestamp_ok := ns_month;
     timestamp_ok_month := ns_month_month;
     timestamp_ok_ns := fun _ _ H => H |}.

End Frame.

(* ================================================================== *)
(** ** agent/tools.py *)

Module Tools.
Import Text Py Frame.
Local Open Scope string_scope.

(** A date as the frames hold it once parsed. *)
Record Timestamp : Type := { ts_year : Z; ts_month : Z; ts_day : Z }.

Definition ts_compare (a b : Timestamp) : comparison :=
  match (ts_year a ?= ts_year b)%Z with
  | Eq =>
      match (ts_month a ?= ts_month b)%Z with
      | Eq => (ts_day a ?= ts_day b)%Z
      | c => c
      end
  | c => c
  end.

Definition ts_eqb : Timestamp -> Timestamp -> bool := key_eqb ts_compare.

(** [.dt.to_period('M').dt.to_timestamp()]: the first day of the month *)
Definition month_start (d : Timestamp) : Timestamp :=
  {| ts_year := ts_year d; ts_month := ts_month d; ts_day := 1 |}.

(** rows of [actuals] and [budget] *)
Record ledger_row : Type :=
  { row_date : Timestamp; entity : string; account : string;
    currency : string; amount : float }.

(** rows of [fx] *)
Record fx_row : Type :=
  { fx_date : Timestamp; fx_currency : string; fx_rate : float }.

(** rows of [cash] *)
Record cash_row : Type :=
  { cash_date : Timestamp; cash_entity : string; cash_currency : string;
    cash_balance : float }.

(** [dfs] *)
Record datasets : Type :=
  { actuals : list ledger_row; budget : list ledger_row;
    fx : list fx_row; cash : list cash_row }.

(** The columns [_merge_fx] reads from its first argument. *)
Class Ledger (R : Type) : Type :=
  { date_of : R -> Timestamp; currency_of : R -> string; amount_of : R -> float }.

#[global] Instance ledger_row_Ledger : Ledger ledger_row :=
  {| date_of := row_date; currency_of := currency; amount_of := amount |}.

(** [cash.rename(columns={'cash': 'amount', ...})] *)
#[global] Instance cash_row_Ledger : Ledger cash_row :=
  {| date_of := cash_date; currency_of := cash_currency;
     amount_of := cash_balance |}.

(** a row of the merged frame *)
Record merged (R : Type) : Type :=
  { src : R; date : Timestamp; rate_to_usd : float; amount_usd : float }.
Arguments src {R} _.
Arguments date {R} _.
Arguments rate_to_usd {R} _.
Arguments amount_usd {R} _.

(** a merged ledger row with its [account_norm] column *)
Record normalized : Type :=
  { row : merged ledger_row; account_norm : string }.

Definition ACCOUNT_ALIASES_revenue : list string := ["revenue"; "total revenue"]%string.
Definition ACCOUNT_ALIASES_cogs : list string := ["cogs"; "cost of goods sold"]%string.
Definition ACCOUNT_ALIASES_opex_prefix : string := "opex:".

Definition isin (l : list string) (s : string) : bool := existsb (String.eqb s) l.

Definition is_revenue (r : normalized) : bool := isin ACCOUNT_ALIASES_revenue (account_norm r).
Definition is_cogs (r : normalized) : bool := isin ACCOUNT_ALIASES_cogs (account_norm r).
Definition is_opex (r : normalized) : bool :=
  startswith (account_norm r) ACCOUNT_ALIASES_opex_prefix.

Definition _normalize_accounts (df : list (merged ledger_row)) : list normalized :=
  map (fun m => {| row := m; account_norm := lower (account (src m)) |}) df.

Section MergeFx.
Context {R : Type} `{Ledger R}.

Definition fx_matches (r : R) (f : fx_row) : bool :=
  ts_eqb (month_start (fx_date f)) (month_start (date_of r))
  && String.eqb (fx_currency f) (currency_of r).

Definition with_rate (r : R) (rate : float) : merged R :=
  {| src := r; date := month_start (date_of r);
     rate_to_usd := rate; amount_usd := (amount_of r * rate)%float |}.

(** the rows a left row [r] contributes to the left merge: one per fx row
    with its month and currency, and a single one when there is none; the
    rate is 1.0 where the merge left a gap and where the fx row holds
    [nan] ([fillna(1.0)]) *)
Definition merge_row (fx : list fx_row) (r : R) : list (merged R) :=
  match filter (fx_matches r) fx with
  | [] => [with_rate r 1]
  | ms => map (fun f => with_rate r (fillna 1 (fx_rate f))) ms
  end.

Definition _merge_fx (df : list R) (fx : list fx_row) : list (merged R) :=
  flat_map (merge_row fx) df.

End MergeFx.

Definition ts_max (a b : Timestamp) : Timestamp :=
  match ts_compare a b with Lt => b | _ => a end.

Definition latest_month_in_actuals (actuals : list ledger_row) : option Timestamp :=
  match map (fun r => month_start (row_date r)) actuals with
  | [] => None
  | d :: ds => Some (fold_left ts_max ds d)
  end.

Definition usd (l : list normalized) : list float := map (fun r => amount_usd (row r)) l.

(** *** Charts *)

Inductive xval : Type :=
| XLabel : string -> xval
| XTime : Timestamp -> xval.

Inductive trace : Type :=
| Bar (x : list xval) (y : list float) (name : string)
| Scatter (x : list xval) (y : list float) (mode name : string)
| Pie (labels : list string) (values : list float).

Record Figure : Type :=
  { fig_data : list trace; fig_title : string; fig_yaxis_title : string }.

Record gm_row : Type :=
  { gm_ym : Timestamp; gm_revenue : float; gm_cogs : float; gm : float;
    gm_pct : float }.

Record ebitda_row : Type :=
  { e_ym : Timestamp; e_revenue : float; e_cogs : float; e_opex : float;
    ebitda : float }.

Record revenue_vs_budget : Type :=
  { actual_usd : float; budget_usd : float; variance_usd : float;
    variance_pct : float; rvb_chart : Figure }.

Record gm_point : Type := { period : string; point_gm_pct : float }.

Record gross_margin_trend : Type :=
  { gmt_chart : Figure; series : list gm_point }.

Record cash_runway : Type :=
  { months : float; cash_usd : float; avg_burn_usd : float; cr_chart : Figure }.

Definition opex_compare (a b : Timestamp * string) : comparison :=
  match ts_compare (fst a) (fst b) with
  | Eq => String.compare (snd a) (snd b)
  | c => c
  end.

(** [d.strftime('%Y-%m')] *)
Definition strftime_Ym (d : Timestamp) : string :=
  format_d (ts_year d) ++ "-" ++ format_02d (ts_month d).

Definition truncate_cash (c : cash_row) : cash_row :=
  {| cash_date := month_start (cash_date c); cash_entity := cash_entity c;
     cash_currency := cash_currency c; cash_balance := cash_balance c |}.

Section WithPandas.
Context {P : Pandas}.

(** [pd.Timestamp(year=year, month=month, day=1).to_period('M').to_timestamp()]:
    the constructor validates the calendar fields and raises (a subclass
    of) [ValueError] on a month outside 1..12 or a year it cannot hold. *)
Definition first_of_month (year month : Z) : result Timestamp :=
  if timestamp_ok year month
  then Ok {| ts_year := year; ts_month := month; ts_day := 1 |}
  else Raise ValueError.

Definition _sum_by_account (df : list normalized) (year month : Z)
  (account_key : string) : result float :=
  (dt <- first_of_month year month ;;
   let mask := fun r : normalized => ts_eqb (date (row r)) dt in
   if String.eqb account_key "opex" then
     Ok (series_sum (usd (filter (fun r => mask r && is_opex r) df)))
   else if String.eqb account_key "revenue" then
     Ok (series_sum (usd (filter (fun r => mask r && is_revenue r) df)))
   else if String.eqb account_key "cogs" then
     Ok (series_sum (usd (filter (fun r => mask r && is_cogs r) df)))
   else Ok 0%float)%py.

(** [dfa[cond].groupby('ym')['amount_usd'].sum()] *)
Definition monthly (cond : normalized -> bool) (dfa : list normalized)
  : list (Timestamp * float) :=
  groupby_sum ts_compare
    (map (fun r => (month_start (date (row r)), amount_usd (row r)))
       (filter cond dfa)).

Definition _series_gm (dfa : list normalized) : list gm_row :=
  let rev := monthly is_revenue dfa in
  let cogs := monthly is_cogs dfa in
  let s := map (fun k =>
                  let revenue := column ts_compare rev k in
                  let cogs := column ts_compare cogs k in
                  let gm := (revenue - cogs)%float in
                  {| gm_ym := k; gm_revenue := revenue; gm_cogs := cogs;
                     gm := gm;
                     gm_pct := if nonzero revenue
                               then (gm / revenue * 100)%float else nan |})
             (frame_index ts_compare [rev; cogs]) in
  filter (fun r => negb (isnan (gm_pct r))) s.

Definition _series_opex (dfa : list normalized)
  : list ((Timestamp * string) * float) :=
  groupby_sum opex_compare
    (map (fun r => ((month_start (date (row r)), account_norm r), amount_usd (row r)))
       (filter is_opex dfa)).

Definition _series_ebitda (dfa : list normalized) : list ebitda_row :=
  let rev := monthly is_revenue dfa in
  let cogs := monthly is_cogs dfa in
  let opex := monthly is_opex dfa in
  map (fun k =>
         let revenue := column ts_compare rev k in
         let cogs := column ts_compare cogs k in
         let opex := column ts_compare opex k in
         {| e_ym := k; e_revenue := revenue; e_cogs := cogs; e_opex := opex;
            ebitda := (revenue - cogs - opex)%float |})
    (frame_index ts_compare [rev; cogs; opex]).

(** *** The four metrics *)

Definition revenue_vs_budget_usd (dfs : datasets) (year month : Z)
  : result revenue_vs_budget :=
  (let actuals := _normalize_accounts (_merge_fx (actuals dfs) (fx dfs)) in
   let budget := _normalize_accounts (_merge_fx (budget dfs) (fx dfs)) in
   a <- _sum_by_account actuals year month "revenue" ;;
   b <- _sum_by_account budget year month "revenue" ;;
   let variance := (a - b)%float in
   let variance_pct := if nonzero b then (variance / b * 100)%float else nan in
   let fig :=
     {| fig_data := [Bar [XLabel "Actual"; XLabel "Budget"] [a; b] ""];
        fig_title := "Revenue (USD) — " ++ format_d year ++ "-" ++ format_02d month;
        fig_yaxis_title := "USD" |} in
   Ok {| actual_usd := a; budget_usd := b; variance_usd := variance;
         variance_pct := if negb (isnan variance_pct) then variance_pct else 0%float;
         rvb_chart := fig |})%py.

Definition gross_margin_trend_pct (dfs : datasets) (last_n : Z)
  : gross_margin_trend :=
  let actuals := _normalize_accounts (_merge_fx (actuals dfs) (fx dfs)) in
  let s := tail last_n (_series_gm actuals) in
  let fig :=
    {| fig_data := [Scatter (map (fun r => XTime (gm_ym r)) s) (map gm_pct s)
                      "lines+markers" "GM %"];
       fig_title := "Gross Margin % — last " ++ format_d last_n ++ " months";
       fig_yaxis_title := "Percent" |} in
  {| gmt_chart := fig;
     series := map (fun r => {| period := strftime_Ym (gm_ym r);
                                point_gm_pct := gm_pct r |}) s |}.

Definition opex_breakdown_usd (dfs : datasets) (year month : Z) : result Figure :=
  (let actuals := _normalize_accounts (_merge_fx (actuals dfs) (fx dfs)) in
   let s := _series_opex actuals in
   dt <- first_of_month year month ;;
   let m := filter (fun r => ts_eqb (fst (fst r)) dt) s in
   Ok {| fig_data :=
           match m with
           | [] => []
           | _ => [Pie (map (fun r => upper (remove_all "opex:" (snd (fst r)))) m)
                     (map snd m)]
           end;
         fig_title := "Opex Breakdown (USD) — " ++ format_d year ++ "-" ++ format_02d month;
         fig_yaxis_title := "" |})%py.

(** [None] is Python's [None]. *)
Definition cash_runway_months (dfs : datasets) : option cash_runway :=
  let actuals := _normalize_accounts (_merge_fx (actuals dfs) (fx dfs)) in
  let e := tail 3 (_series_ebitda actuals) in
  match e with
  | [] => None
  | _ =>
      let avg_burn := (- series_mean (map ebitda e))%float in
      let cash := _merge_fx (map truncate_cash (cash dfs)) (fx dfs) in
      let total_cash :=
        tail 1 (groupby_sum ts_compare
                  (map (fun m => (date m, amount_usd m)) cash)) in
      let cash_usd := match total_cash with
                      | (_, v) :: _ => v
                      | [] => 0%float
                      end in
      let months := if (avg_burn <=? 0)%float then infinity
                    else (cash_usd / avg_burn)%float in
      let fig :=
        {| fig_data :=
             Bar (map (fun r => XTime (e_ym r)) e) (map ebitda e) "EBITDA (USD)"
             :: match cash with
                | [] => []
                | _ => [Scatter (map (fun kv => XTime (fst kv)) total_cash)
                          (map snd total_cash)
                          "markers+lines" "Cash (USD)"]
                end;
           fig_title := "EBITDA (last 3 months) & Latest Cash";
           fig_yaxis_title := "USD" |} in
      Some {| months := months; cash_usd := cash_usd;
              avg_burn_usd := avg_burn; cr_chart := fig |}
  end.

End WithPandas.

End Tools.
(* ================================================================== *)
(** ** agent/planner.py *)

Module Planner.
Import Text Py Frame Re Tools.
Local Open Scope string_scope.

(** an insertion-ordered dictionary *)
Definition MONTH_ALIASES : list (string * Z) :=
  [ ("jan", 1); ("january", 1);
    ("feb", 2); ("february", 2);
    ("mar", 3); ("march", 3);
    ("apr", 4); ("april", 4);
    ("may", 5);
    ("jun", 6); ("june", 6);
    ("jul", 7); ("july", 7);
    ("aug", 8); ("august", 8);
    ("sep", 9); ("sept", 9); ("september", 9);
    ("oct", 10); ("october", 10);
    ("nov", 11); ("november", 11);
    ("dec", 12); ("december", 12) ]%string%Z.

Fixpoint lookup (k : string) (d : list (string * Z)) : option Z :=
  match d with
  | [] => None
  | (k', v) :: d' => if String.eqb k k' then Some v else lookup k d'
  end.

(** [20\d{2}] *)
Definition year_re : regex := seqs [lit "20"; digit; digit].

(** [\d{1,2}] *)
Definition digits12_re : regex := Seq digit (opt digit).

(** [jan(?:uary)?|feb(?:ruary)?|...|dec(?:ember)?] *)
Definition month_name_re : regex :=
  alts (Seq (lit "jan") (opt (lit "uary")))
    [ Seq (lit "feb") (opt (lit "ruary"));
      Seq (lit "mar") (opt (lit "ch"));
      Seq (lit "apr") (opt (lit "il"));
      lit "may";
      Seq (lit "jun") (opt (lit "e"));
      Seq (lit "jul") (opt (lit "y"));
      Seq (lit "aug") (opt (lit "ust"));
      Seq (lit "sep") (opt (Seq (lit "t") (opt (lit "ember"))));
      Seq (lit "oct") (opt (lit "ober"));
      Seq (lit "nov") (opt (lit "ember"));
      Seq (lit "dec") (opt (lit "ember")) ].

(** [(jan(?:uary)?|...|dec(?:ember)?)\s+(20\d{2})], under [re.X] *)
Definition month_year_re : regex :=
  seqs [Grp 1 month_name_re; plus space; Grp 2 year_re].

(** [(20\d{2})[-/](\d{1,2})] *)
Definition numeric_re : regex :=
  seqs
    [ Grp 1 year_re;
      Cls (fun a => Ascii.eqb a "-" || Ascii.eqb a "/");
      Grp 2 digits12_re ].

(** [\b{k}\b] *)
Definition word_re (k : string) : regex := seqs [Bnd; lit k; Bnd].

(** the [for k, v in MONTH_ALIASES.items()] loop *)
Fixpoint first_alias (text : string) (d : list (string * Z)) : option Z :=
  match d with
  | [] => None
  | (k, v) :: d' =>
      if found (word_re k) text then Some v else first_alias text d'
  end.

(** truthiness of an optional integer *)
Definition truthy (o : option Z) : bool :=
  match o with
  | Some y => negb (y =? 0)%Z
  | None => false
  end.

Definition _parse_month_year (text : string) (fallback : option Z)
  : result (option Z * option Z) :=
  let text := lower text in
  match search month_year_re text with
  | Some m =>
      match lookup (str (firstn 3 (group 1 m))) MONTH_ALIASES with
      | Some month =>
          let year := int_of_digits (group 2 m) in
          Ok (Some year, Some month)
      | None => Raise KeyError
      end
  | None =>
      match search numeric_re text with
      | Some m2 =>
          Ok (Some (int_of_digits (group 1 m2)), Some (int_of_digits (group 2 m2)))
      | None =>
          match first_alias text MONTH_ALIASES with
          | Some v =>
              let year := if truthy fallback then fallback else None in
              if truthy year then Ok (year, Some v) else Ok (None, Some v)
          | None => Ok (fallback, None)
          end
      end
  end.

(** [last\s+(\d{1,2})\s+months?], under [re.I] *)
Definition window_re : regex :=
  seqs [ lit_i "last"; plus space; Grp 1 digits12_re; plus space;
         lit_i "month"; opt (chr_i "s") ].

Definition _parse_window (text : string) (default_last_n : Z) : Z :=
  match search window_re text with
  | Some m => int_of_digits (group 1 m)
  | None => default_last_n
  end.

(** [revenue.*budget|vs\s*budget|budget.*revenue] *)
Definition revenue_budget_re : regex :=
  alts (seqs [lit "revenue"; Star dot; lit "budget"])
    [ seqs [lit "vs"; Star space; lit "budget"];
      seqs [lit "budget"; Star dot; lit "revenue"] ].

(** [gross\s*margin] *)
Definition gross_margin_re : regex := seqs [lit "gross"; Star space; lit "margin"].

(** [trend|last\s+\d+\s+months|last\s+months] *)
Definition trend_re : regex :=
  alts (lit "trend")
    [ seqs [lit "last"; plus space; plus digit; plus space; lit "months"];
      seqs [lit "last"; plus space; lit "months"] ].

(** [opex|operating\s+expenses] *)
Definition opex_re : regex :=
  Alt (lit "opex") (seqs [lit "operating"; plus space; lit "expenses"]).

(** [break\s*down|breakdown] *)
Definition breakdown_re : regex :=
  Alt (seqs [lit "break"; Star space; lit "down"]) (lit "breakdown").

(** [cash\s*runway|runway] *)
Definition runway_re : regex :=
  Alt (seqs [lit "cash"; Star space; lit "runway"]) (lit "runway").

(** the dictionary every branch returns *)
Record answer : Type := { text : string; chart : option Figure }.

Definition join (sep : string) (l : list string) : string := String.concat sep l.

Section WithPandas.
Context {P : Pandas}.

(** the body of the [# INTENT: revenue vs budget] branch *)
Definition answer_revenue_vs_budget (ql : string) (default_year : option Z)
  (dfs : datasets) : result answer :=
  (ym <- _parse_month_year ql default_year ;;
   match ym with
   | (Some year, Some month) =>
       res <- revenue_vs_budget_usd dfs year month ;;
       Ok {| text :=
               "Revenue vs Budget for " ++ format_d year ++ "-" ++ format_02d month
               ++ ": Actual $" ++ format_f 0 true (actual_usd res)
               ++ " | Budget $" ++ format_f 0 true (budget_usd res)
               ++ " | Variance $" ++ format_f 0 true (variance_usd res)
               ++ " (" ++ format_f 1 false (variance_pct res) ++ "%).";
             chart := Some (rvb_chart res) |}
   | _ =>
       Ok {| text := "Please include a month and year (e.g., 'June 2025').";
             chart := None |}
   end)%py.

(** the body of the [# INTENT: gross margin trend] branch *)
Definition answer_gross_margin_trend (ql : string) (dfs : datasets)
  : result answer :=
  let n := _parse_window ql 3 in
  let res := gross_margin_trend_pct dfs n in
  Ok {| text :=
          "Gross Margin % for last " ++ format_d n ++ " months: "
          ++ join ", "
               (map (fun x => period x ++ ": "
                              ++ format_f 1 false (point_gm_pct x) ++ "%")
                  (series res));
        chart := Some (gmt_chart res) |}.

(** the body of the [# INTENT: opex breakdown] branch *)
Definition answer_opex_breakdown (ql : string) (default_year : option Z)
  (dfs : datasets) : result answer :=
  (ym <- _parse_month_year ql default_year ;;
   match ym with
   | (Some year, Some month) =>
       res <- opex_breakdown_usd dfs year month ;;
       Ok {| text := "Opex breakdown for " ++ format_d year ++ "-"
                     ++ format_02d month ++ " (USD).";
             chart := Some res |}
   | _ =>
       Ok {| text := "Please include a month and year for the Opex breakdown.";
             chart := None |}
   end)%py.

(** the body of the [# INTENT: cash runway] branch *)
Definition answer_cash_runway (dfs : datasets) : result answer :=
  match cash_runway_months dfs with
  | None => Ok {| text := "Not enough data to compute runway."; chart := None |}
  | Some res =>
      let months := months res in
      Ok {| text :=
              "Cash runway: " ++ format_f 1 false months
              ++ " months (Cash $" ++ format_f 0 true (cash_usd res)
              ++ " / Avg monthly burn $"
              ++ format_f 0 true (avg_burn_usd res) ++ ").";
            chart := Some (cr_chart res) |}
  end.

(** the final [return] *)
Definition answer_unclassified : result answer :=
  Ok {| text := "Sorry, I couldn't classify that question. Try: 'What was June 2025 revenue vs budget?'";
        chart := None |}.

Definition plan_and_execute (q : string) (dfs : datasets) : result answer :=
  let ql := lower q in
  let latest_ym := latest_month_in_actuals (actuals dfs) in
  let default_year := option_map ts_year latest_ym in
  if found revenue_budget_re ql then
    answer_revenue_vs_budget ql default_year dfs
  else if found gross_margin_re ql && found trend_re ql then
    answer_gross_margin_trend ql dfs
  else if found opex_re ql && found breakdown_re ql then
    answer_opex_breakdown ql default_year dfs
  else if found runway_re ql then
    answer_cash_runway dfs
  else
    answer_unclassified.

End WithPandas.

End Planner.

(* ================================================================== *)
(** ** The vocabulary of the specification

    The quantities the specification names, written from its words on the
    tables as they are given: periods are (year, month) pairs, a category is
    read off the account label, and an amount is normalized by looking its
    rate up in the fx table. *)

Module Spec.
Import Text Py Frame Re ReSpec Tools Planner.
Local Open Scope string_scope.

(** chronological order of dates *)
Definition before : Timestamp -> Timestamp -> Prop := key_lt ts_compare.

(** *** Periods *)

(** a period: a year and a month *)
Definition Period : Type := (Z * Z)%type.

Definition period_of (d : Timestamp) : Period := (ts_year d, ts_month d).

Definition period_eqb (p q : Period) : bool :=
  ((fst p =? fst q) && (snd p =? snd q))%Z.

Definition earlier (p q : Period) : Prop :=
  (fst p < fst q \/ (fst p = fst q /\ snd p < snd q))%Z.

(** a period as the series print it: [2025-06] *)
Definition period_label (p : Period) : string :=
  format_d (fst p) ++ "-" ++ format_02d (snd p).

(** *** Currency normalization *)

(** an fx row quotes the (period, currency) pair of a ledger row *)
Definition same_key {R : Type} `{Ledger R} (r : R) (f : fx_row) : Prop :=
  period_of (fx_date f) = period_of (date_of r)
  /\ fx_currency f = currency_of r.

(** the (period, currency) pair of a row has no rate in the fx table *)
Definition rate_absent {R : Type} `{Ledger R} (fx : list fx_row) (r : R) : Prop :=
  forall f, In f fx -> ~ same_key r f.

Definition quotes {R : Type} `{Ledger R} (r : R) (f : fx_row) : bool :=
  period_eqb (period_of (fx_date f)) (period_of (date_of r))
  && String.eqb (fx_currency f) (currency_of r).

(** the rate an fx row gives: a missing number ([nan]) counts as no rate *)
Definition quoted_rate (f : fx_row) : float := fillna 1 (fx_rate f).

(** the amounts in USD a row stands for: the amount itself when the fx table
    has no rate for its period and currency, and the amount times the rate
    for each rate the table has (one, when the table keeps to at most one
    rate per period and currency) *)
Definition usd_amounts {R : Type} `{Ledger R} (fx : list fx_row) (r : R) : list float :=
  match filter (quotes r) fx with
  | [] => [amount_of r]
  | qs => map (fun f => (amount_of r * quoted_rate f)%float) qs
  end.

(** *** Account categories *)

Definition revenue_label (a : string) : bool :=
  String.eqb (lower a) "revenue" || String.eqb (lower a) "total revenue".

Definition cogs_label (a : string) : bool :=
  String.eqb (lower a) "cogs" || String.eqb (lower a) "cost of goods sold".

Definition opex_label (a : string) : bool := startswith (lower a) "opex:".

(** the label counts towards EBITDA *)
Definition categorized (a : string) : bool :=
  revenue_label a || cogs_label a || opex_label a.

(** the amounts in USD of the rows of a category in a period, in row order *)
Definition amounts_in (label : string -> bool) (rows : list ledger_row)
  (fx : list fx_row) (p : Period) : list float :=
  flat_map (usd_amounts fx)
    (filter (fun r => period_eqb (period_of (row_date r)) p && label (account r))
       rows).

(** the period has a row that counts towards EBITDA *)
Definition ebitda_period (dfs : datasets) (p : Period) : Prop :=
  exists r, In r (actuals dfs) /\ categorized (account r) = true
            /\ period_of (row_date r) = p.

(** the cash balances of a period in USD, in row order *)
Definition cash_amounts (dfs : datasets) (p : Period) : list float :=
  flat_map (usd_amounts (fx dfs))
    (filter (fun c => period_eqb (period_of (cash_date c)) p) (cash dfs)).

(** [p] is the latest period of the cash data *)
Definition latest_cash_period (dfs : datasets) (p : Period) : Prop :=
  (exists c, In c (cash dfs) /\ period_of (cash_date c) = p)
  /\ forall c, In c (cash dfs) ->
               period_of (cash_date c) = p \/ earlier (period_of (cash_date c)) p.

Section WithPandas.
Context {P : Pandas}.

(** revenue of a ledger in a period, as a point query totals it: the
    [Series.sum()] of the amounts *)
Definition revenue_usd (rows : list ledger_row) (fx : list fx_row)
  (year month : Z) : float :=
  series_sum (amounts_in revenue_label rows fx (year, month)).

(** the total of a category in a period, as a monthly series holds it: the
    grouped sum of the amounts; 0.0 for a period without a row of the
    category, and where the sum is not a number *)
Definition monthly_total (label : string -> bool) (rows : list ledger_row)
  (fx : list fx_row) (p : Period) : float :=
  match amounts_in label rows fx p with
  | [] => 0%float
  | vs => fillna 0 (group_sum vs)
  end.

Definition revenue_in (dfs : datasets) : Period -> float :=
  monthly_total revenue_label (actuals dfs) (fx dfs).
Definition cogs_in (dfs : datasets) : Period -> float :=
  monthly_total cogs_label (actuals dfs) (fx dfs).
Definition opex_in (dfs : datasets) : Period -> float :=
  monthly_total opex_label (actuals dfs) (fx dfs).

Definition gm_pct_in (dfs : datasets) (p : Period) : float :=
  ((revenue_in dfs p - cogs_in dfs p) / revenue_in dfs p * 100)%float.

(** the period has a gross margin percentage: its revenue is not 0 and the
    quotient is a number *)
Definition has_margin (dfs : datasets) (p : Period) : bool :=
  nonzero (revenue_in dfs p) && negb (isnan (gm_pct_in dfs p)).

Definition ebitda_in (dfs : datasets) (p : Period) : float :=
  (revenue_in dfs p - cogs_in dfs p - opex_in dfs p)%float.

(** the total cash of a period in USD *)
Definition cash_in (dfs : datasets) (p : Period) : float :=
  group_sum (cash_amounts dfs p).

End WithPandas.

(** the intents of the interpreter *)
Inductive intent : Type :=
| RevenueVsBudget | GrossMarginTrend | OpexBreakdown | CashRunway | Unclassified.

(** the ordered rules, the first that matches wins *)
Definition classify (ql : string) : intent :=
  if found revenue_budget_re ql then RevenueVsBudget
  else if found gross_margin_re ql && found trend_re ql then GrossMarginTrend
  else if found opex_re ql && found breakdown_re ql then OpexBreakdown
  else if found runway_re ql then CashRunway
  else Unclassified.

Definition needs_period (i : intent) : bool :=
  match i with
  | RevenueVsBudget | OpexBreakdown => true
  | _ => false
  end.

(** the year the interpreter falls back on *)
Definition default_year (dfs : datasets) : option Z :=
  option_map ts_year (latest_month_in_actuals (actuals dfs)).

Definition month_year_prompt (i : intent) : string :=
  match i with
  | OpexBreakdown => "Please include a month and year for the Opex breakdown."
  | _ => "Please include a month and year (e.g., 'June 2025')."
  end.

Definition guidance : string :=
  "Sorry, I couldn't classify that question. Try: 'What was June 2025 revenue vs budget?'".

Section Respond.
Context {P : Pandas}.

(** what the interpreter answers to a question of a given intent *)
Definition respond (i : intent) (ql : string) (dfs : datasets) : result answer :=
  match i with
  | RevenueVsBudget => answer_revenue_vs_budget ql (default_year dfs) dfs
  | GrossMarginTrend => answer_gross_margin_trend ql dfs
  | OpexBreakdown => answer_opex_breakdown ql (default_year dfs) dfs
  | CashRunway => answer_cash_runway dfs
  | Unclassified => Ok {| text := guidance; chart := None |}
  end.

End Respond.

(** the text gives no (year, month) pair, even with the fallback year *)
Definition unresolved (ql : string) (fallback : option Z) : Prop :=
  forall year month, _parse_month_year ql fallback <> Ok (Some year, Some month).

(** *** The window phrase *)

(** [w] spells [s], in either case *)
Definition spells (w : list ascii) (s : string) : Prop :=
  map lower_char w = map lower_char (chars s).

(** a non-empty run of whitespace *)
Definition blanks (ws : list ascii) : Prop :=
  ws <> [] /\ Forall (fun a => is_space a = true) ws.

(** one or two decimal digits *)
Definition number12 (ds : list ascii) : Prop :=
  (0 < List.length ds <= 2)%nat /\ Forall (fun a => is_digit a = true) ds.

(** after [pre], the text reads "last", blanks, the number [ds], blanks and
    "month" *)
Definition window_phrase (t pre ds : list ascii) : Prop :=
  exists l ws1 ws2 mo post,
    t = (pre ++ l ++ ws1 ++ ds ++ ws2 ++ mo ++ post)%list
    /\ spells l "last" /\ blanks ws1 /\ number12 ds /\ blanks ws2
    /\ spells mo "month".

(** *** Month and year phrases *)

(** a year written [20dd] *)
Definition year20 (ds : list ascii) : Prop :=
  exists a b, ds = (chars "20" ++ [a; b])%list
              /\ is_digit a = true /\ is_digit b = true.

(** a month name or abbreviation the interpreter knows *)
Definition month_key (k : string) : Prop := In k (map fst MONTH_ALIASES).

(** after [pre], the text reads the month name [k], blanks and the year [ds] *)
Definition month_year_phrase (t pre : list ascii) (k : string) (ds : list ascii)
  : Prop :=
  exists ws post,
    t = (pre ++ chars k ++ ws ++ ds ++ post)%list
    /\ month_key k /\ blanks ws /\ year20 ds.

(** after [pre], the text reads the year [ys], a dash or a slash, and the
    number [ms] *)
Definition numeric_phrase (t pre ys ms : list ascii) : Prop :=
  exists sep post,
    t = (pre ++ ys ++ sep :: ms ++ post)%list
    /\ year20 ys /\ (sep = "-"%char \/ sep = "/"%char) /\ number12 ms.

(** the month name [k] stands in the text as a word of its own *)
Definition whole_word (t : list ascii) (k : string) : Prop :=
  exists pre post,
    t = (pre ++ chars k ++ post)%list
    /\ word_at (last_char None pre) = false
    /\ word_at (hd_error post) = false.

(** [k], of month [v], is the first name of the dictionary that stands in
    the text as a word *)
Definition first_key (t : list ascii) (k : string) (v : Z) : Prop :=
  exists d1 d2,
    MONTH_ALIASES = (d1 ++ (k, v) :: d2)%list
    /\ whole_word t k
    /\ forall k' v', In (k', v') d1 -> ~ whole_word t k'.

(** [fallback if fallback else None] *)
Definition fallback_year (fallback : option Z) : option Z :=
  if truthy fallback then fallback else None.

End Spec.

(* ================================================================== *)
(** ** Sample data *)

Module Samples.
Import Tools.
Local Open Scope string_scope.

Definition on (y m d : Z) : Timestamp :=
  {| ts_year := y; ts_month := m; ts_day := d |}.

Definition eur_june : ledger_row :=
  {| row_date := on 2025 6 30; entity := "EMEA"; account := "Revenue";
     currency := "EUR"; amount := 1000 |}.

Definition gbp_june : ledger_row :=
  {| row_date := on 2025 6 30; entity := "EMEA"; account := "Revenue";
     currency := "GBP"; amount := 250 |}.

Definition eur_rate : fx_row :=
  {| fx_date := on 2025 6 1; fx_currency := "EUR"; fx_rate := 1.25 |}.

(** three months of actuals, one of them without revenue *)
Definition books : datasets :=
  {| actuals :=
       [ {| row_date := on 2025 4 1; entity := "ParentCo"; account := "Revenue";
            currency := "USD"; amount := 120000 |};
         {| row_date := on 2025 4 1; entity := "ParentCo"; account := "COGS";
            currency := "USD"; amount := 40000 |};
         {| row_date := on 2025 5 1; entity := "ParentCo"; account := "Opex:Payroll";
            currency := "USD"; amount := 90000 |};
         {| row_date := on 2025 6 1; entity := "ParentCo"; account := "Revenue";
            currency := "USD"; amount := 140000 |};
         {| row_date := on 2025 6 1; entity := "ParentCo"; account := "COGS";
            currency := "USD"; amount := 50000 |} ];
     budget :=
       [ {| row_date := on 2025 6 1; entity := "ParentCo"; account := "Revenue";
            currency := "USD"; amount := 135000 |} ];
     fx := [ {| fx_date := on 2025 6 1; fx_currency := "USD"; fx_rate := 1 |} ];
     cash :=
       [ {| cash_date := on 2025 6 1; cash_entity := "ParentCo";
            cash_currency := "USD"; cash_balance := 500000 |} ] |}.

(** four empty tables *)
Definition no_data : datasets :=
  {| actuals := []; budget := []; fx := []; cash := [] |}.

(** a month of expenses and an empty bank account *)
Definition broke : datasets :=
  {| actuals :=
       [ {| row_date := on 2025 6 1; entity := "ParentCo"; account := "Opex:Payroll";
            currency := "USD"; amount := 100 |} ];
     budget := []; fx := [];
     cash :=
       [ {| cash_date := on 2025 6 1; cash_entity := "ParentCo";
            cash_currency := "USD"; cash_balance := 0 |} ] |}.

(** a month of revenue and no expense *)
Definition profitable : datasets :=
  {| actuals :=
       [ {| row_date := on 2025 6 1; entity := "ParentCo"; account := "Revenue";
            currency := "USD"; amount := 100 |} ];
     budget := []; fx := [];
     cash :=
       [ {| cash_date := on 2025 6 1; cash_entity := "ParentCo";
            cash_currency := "USD"; cash_balance := 50 |} ] |}.

(** the largest power of two a float holds, about 8.99e307 *)
Definition huge : float := 0x1p1023%float.

(** a revenue near the top of the range of the floats against a budget
    of one dollar *)
Definition windfall : datasets :=
  {| actuals :=
       [ {| row_date := on 2025 6 1; entity := "ParentCo"; account := "Revenue";
            currency := "USD"; amount := huge |} ];
     budget :=
       [ {| row_date := on 2025 6 1; entity := "ParentCo"; account := "Revenue";
            currency := "USD"; amount := 1 |} ];
     fx := [ {| fx_date := on 2025 6 1; fx_currency := "USD"; fx_rate := 1 |} ];
     cash := [] |}.

(** a revenue that leaves the range of the floats once converted *)
Definition overflowing : datasets :=
  {| actuals :=
       [ {| row_date := on 2025 6 1; entity := "EMEA"; account := "Revenue";
            currency := "EUR"; amount := huge |} ];
     budget := [];
     fx := [ {| fx_date := on 2025 6 1; fx_currency := "EUR"; fx_rate := 2 |} ];
     cash := [] |}.

Definition two_windows : string := "last 5 months, or last 7 months".

End Samples.


(* ================================================================== *)
(** ** app.py: the renaming of the columns

    [_rename_by_aliases] changes the names of the columns of a frame and
    nothing else: the functions below take the columns of the frame it is
    given to the columns of the frame it returns. *)

Module App.
Local Open Scope string_scope.

(** [alias_map], an insertion-ordered dictionary *)
Definition alias_map : list (string * list string) :=
  [ ("date", ["month"; "period"; "reporting month"]);
    ("entity", ["company"; "org"; "business unit"; "bu"]);
    ("account", ["account_category"; "gl account"; "line item"; "category";
                 "acct"; "account name"; "name"]);
    ("amount", ["value"; "total"; "usd"; "amount (usd)"; "amount usd"]);
    ("currency", ["curr"; "ccy"]);
    ("cash", ["cash balance"; "balance"; "ending cash"]);
    ("rate_to_usd", ["fx rate"; "rate"; "usd_per_unit"; "rate to usd"]) ].

(** [c in df.columns] *)
Definition has (cols : list string) (c : string) : bool :=
  existsb (String.eqb c) cols.

(** [df.rename(columns={a: target}, inplace=True)] *)
Definition rename (a target : string) (cols : list string) : list string :=
  map (fun c => if String.eqb c a then target else c) cols.

(** the first alias that is a column: where the inner loop breaks *)
Fixpoint first_present (aliases : list string) (cols : list string)
  : option string :=
  match aliases with
  | [] => None
  | a :: rest => if has cols a then Some a else first_present rest cols
  end.

(** one turn of the outer loop *)
Definition rename_step (cols : list string) (entry : string * list string)
  : list string :=
  let (target, aliases) := entry in
  if has cols target then cols
  else match first_present aliases cols with
       | Some a => rename a target cols
       | None => cols
       end.

Definition rename_with (am : list (string * list string)) (cols : list string)
  : list string :=
  fold_left rename_step am cols.

Definition _rename_by_aliases (cols : list string) : list string :=
  rename_with alias_map cols.

(** *** What makes an alias map safe to apply in one pass *)

Definition mem (x : string) (l : list string) : bool := existsb (String.eqb x) l.

(** no target is also an alias *)
Definition targets_clear (am : list (string * list string)) : bool :=
  forallb (fun e => forallb (fun e' => negb (mem (fst e) (snd e'))) am) am.

(** no alias belongs to two targets *)
Fixpoint aliases_disjoint (am : list (string * list string)) : bool :=
  match am with
  | [] => true
  | e :: rest =>
      forallb (fun e' => forallb (fun a => negb (mem a (snd e'))) (snd e)) rest
      && aliases_disjoint rest
  end.

End App.

(* ================================================================== *)
(** ** More vocabulary: the metric engine and the interpreter at large *)

Module SpecMore.
Import Text Py Frame Re ReSpec Tools Planner Spec.
Local Open Scope string_scope.

(** the (period, currency) pair an fx row quotes *)
Definition fx_key (f : fx_row) : Period * string :=
  (period_of (fx_date f), fx_currency f).

(** the fx table quotes at most one rate per (period, currency) *)
Definition rates_unique (fx : list fx_row) : Prop := NoDup (map fx_key fx).

(** the number of rates the fx table quotes for the period and currency of
    a row *)
Definition quote_count {R : Type} `{Ledger R} (fx : list fx_row) (r : R) : nat :=
  List.length (filter (quotes r) fx).

(** the three categories of [_sum_by_account], by the labels they take *)
Definition category_of (account_key : string) : option (string -> bool) :=
  if String.eqb account_key "opex" then Some opex_label
  else if String.eqb account_key "revenue" then Some revenue_label
  else if String.eqb account_key "cogs" then Some cogs_label
  else None.



(** the four answers that carry no chart *)
Definition chartless_texts : list string :=
  [ "Please include a month and year (e.g., 'June 2025').";
    "Please include a month and year for the Opex breakdown.";
    "Not enough data to compute runway.";
    guidance ].



End SpecMore.

(* ================================================================== *)
(** ** The frames of the metric engine, key by key

    What the series of [agent/tools.py] hold at each index, as the proofs
    below unfold them. *)

Module Unfolded.
Import Text Py Frame Tools Spec.

(** the first day of a period *)
Definition first_day (p : Period) : Timestamp :=
  {| ts_year := fst p; ts_month := snd p; ts_day := 1 |}.

Section WithPandas.
Context {P : Pandas}.

(** the currency-normalized actuals *)
Definition ledger (dfs : datasets) : list normalized :=
  _normalize_accounts (_merge_fx (actuals dfs) (fx dfs)).

(** the normalized cash balances *)
Definition cash_ledger (dfs : datasets) : list (merged cash_row) :=
  _merge_fx (map truncate_cash (cash dfs)) (fx dfs).


(** the months of the margin frame, before the rows without a percentage
    are dropped *)
Definition gm_index (dfa : list normalized) : list Timestamp :=
  frame_index ts_compare [monthly is_revenue dfa; monthly is_cogs dfa].

Definition gm_entry (dfa : list normalized) (k : Timestamp) : gm_row :=
  let revenue := column ts_compare (monthly is_revenue dfa) k in
  let cogs := column ts_compare (monthly is_cogs dfa) k in
  {| gm_ym := k; gm_revenue := revenue; gm_cogs := cogs;
     gm := (revenue - cogs)%float;
     gm_pct := if nonzero revenue
               then ((revenue - cogs) / revenue * 100)%float else nan |}.

(** the months of the EBITDA series *)
Definition ebitda_months (dfa : list normalized) : list Timestamp :=
  frame_index ts_compare
    [monthly is_revenue dfa; monthly is_cogs dfa; monthly is_opex dfa].

(** the percentage [revenue_vs_budget_usd] returns, from the two revenues *)
Definition variance_pct_of (a b : float) : float :=
  fillna 0 (if nonzero b then ((a - b) / b * 100)%float else nan).

(** the latest entry of a grouped sum, as [.tail(1)] and [.iloc[0]] read it *)
Definition latest_total (s : list (Timestamp * float)) : float :=
  match tail 1 s with
  | (_, v) :: _ => v
  | [] => 0%float
  end.

End WithPandas.

End Unfolded.

(* ================================================================== *)
(** ** Facts about binary64 arithmetic *)

Module FloatFacts.
Import Py Frame.

(** multiplying by 1.0 is exact, whatever the float *)
Lemma mul_one (x : float) : (x * 1)%float = x.
Proof.
  apply Prim2SF_inj. rewrite mul_spec.
  change (Prim2SF 1) with (S754_finite false 4503599627370496 (-52)).
  pose proof (Prim2SF_valid x) as V.
  destruct (Prim2SF x) as [s|s| |s m e]; try (destruct s; reflexivity).
  - reflexivity.
  - unfold SF64mul, SFmul. rewrite xorb_false_r.
    simpl in V. unfold bounded, canonical_mantissa in V.
    apply andb_true_iff in V. destruct V as [V1 V2].
    apply Z.eqb_eq in V1.
    rewrite Pos.mul_comm.
    cbn [Pos.mul].
    unfold binary_round_aux, shr_fexp at 1.
    cbn [Zdigits2 digits2_pos shr_record_of_loc].
    rewrite !Pos2Z.inj_succ.
    replace (fexp prec emax _ - (e + -52))%Z with 52%Z.
    2:{ match goal with |- _ = (fexp _ _ ?a - _)%Z =>
          replace a with (Z.pos (digits2_pos m) + e)%Z by lia end.
        rewrite V1. lia. }
    cbn [shr SpecFloat.iter_pos shr_1 orb shr_m loc_of_shr_record round_nearest_even].
    unfold shr_fexp. cbn [Zdigits2 shr_record_of_loc].
    replace (e + -52 + 52)%Z with e by lia.
    rewrite V1, Z.sub_diag. cbn [shr shr_m]. now rewrite V2.
Qed.

(** [-m <= 0] says [m >= 0], also on the zeros, the infinities and [nan] *)
Lemma opp_leb_zero (m : float) : ((- m <=? 0) = (0 <=? m))%float.
Proof.
  rewrite !leb_spec, opp_spec.
  change (Prim2SF 0) with (S754_zero false).
  destruct (Prim2SF m) as [s|s| |s mm e]; try destruct s; reflexivity.
Qed.

Lemma fillna_not_nan (x : float) : isnan (fillna 0 x) = false.
Proof.
  unfold fillna, isnan. destruct (PrimFloat.is_nan x) eqn:E; [reflexivity|exact E].
Qed.

Lemma fillna_number (v x : float) : isnan x = false -> fillna v x = x.
Proof. unfold fillna, isnan. now intros ->. Qed.

End FloatFacts.

(* ================================================================== *)
(** ** Facts about the frame operations *)

Module FrameFacts.
Import Frame.

Lemma tail_nonneg {A : Type} (n : Z) (l : list A) :
  (0 <= n)%Z -> tail n l = skipn (List.length l - Z.to_nat n) l.
Proof.
  intros Hn. unfold tail.
  destruct (Z.eqb_spec n 0) as [->|Hne].
  - simpl. rewrite Nat.sub_0_r. now rewrite skipn_all.
  - destruct (Z.ltb_spec n 0); [lia|reflexivity].
Qed.

(** the last [n] rows are a suffix, [n] of them when there are that many *)
Lemma tail_suffix {A : Type} (n : Z) (l : list A) :
  (0 <= n)%Z ->
  exists pre, l = (pre ++ tail n l)%list
              /\ List.length (tail n l) = Nat.min (Z.to_nat n) (List.length l).
Proof.
  intros Hn. rewrite (tail_nonneg l Hn).
  exists (firstn (List.length l - Z.to_nat n) l). split.
  - now rewrite firstn_skipn.
  - rewrite length_skipn. lia.
Qed.

Lemma skipn_In {A : Type} (n : nat) (l : list A) (x : A) :
  In x (skipn n l) -> In x l.
Proof.
  intros Hx. rewrite <- (firstn_skipn n l). apply in_or_app. now right.
Qed.

(** [tail] keeps rows of the frame *)
Lemma tail_In {A : Type} (n : Z) (l : list A) (x : A) :
  In x (tail n l) -> In x l.
Proof.
  unfold tail. destruct (n =? 0)%Z; [intros []|].
  destruct (n <? 0)%Z; apply skipn_In.
Qed.

Lemma StronglySorted_app_inv {A : Type} (R : A -> A -> Prop) (l1 l2 : list A) :
  StronglySorted R (l1 ++ l2) ->
  StronglySorted R l2 /\ forall x y, In x l1 -> In y l2 -> R x y.
Proof.
  induction l1 as [|a l1 IH]; simpl; intros Hs.
  - split; [assumption | intros x y []].
  - apply StronglySorted_inv in Hs. destruct Hs as [Hs Hall].
    destruct (IH Hs) as [H2 Hlt]. split; [assumption|].
    intros x y [<-|Hx] Hy.
    + rewrite Forall_forall in Hall. apply Hall, in_or_app. now right.
    + now apply Hlt.
Qed.

Lemma StronglySorted_filter {A : Type} (R : A -> A -> Prop) (f : A -> bool)
  (l : list A) :
  StronglySorted R l -> StronglySorted R (filter f l).
Proof.
  induction 1 as [|a l Hs IH Hall]; simpl; [constructor|].
  destruct (f a); [|assumption].
  constructor; [assumption|].
  rewrite Forall_forall in *. intros x Hx. apply Hall.
  now apply filter_In in Hx.
Qed.

Lemma StronglySorted_map {A B : Type} (R : A -> A -> Prop) (g : B -> A)
  (l : list B) :
  StronglySorted R (map g l) -> StronglySorted (fun x y => R (g x) (g y)) l.
Proof.
  induction l as [|b l IH]; simpl; intros Hs; [constructor|].
  apply StronglySorted_inv in Hs. destruct Hs as [Hs Hall].
  constructor; [now apply IH|].
  rewrite Forall_forall in *. intros x Hx. apply Hall. now apply in_map.
Qed.

Lemma StronglySorted_map_intro {A B : Type} (R : A -> A -> Prop) (S : B -> B -> Prop)
  (g : A -> B) (l : list A) :
  (forall x y, In x l -> In y l -> R x y -> S (g x) (g y)) ->
  StronglySorted R l -> StronglySorted S (map g l).
Proof.
  intros Hg Hs. induction Hs as [|a l Hs IH Hall]; simpl; [constructor|].
  constructor.
  - apply IH. intros x y Hx Hy. apply Hg; now right.
  - rewrite Forall_forall in *. intros y Hy. apply in_map_iff in Hy.
    destruct Hy as [x [<- Hx]]. apply Hg; [now left|now right|now apply Hall].
Qed.

Lemma filter_none {A : Type} (f : A -> bool) (l : list A) :
  (forall x, In x l -> f x = false) -> filter f l = [].
Proof.
  induction l as [|a l IH]; simpl; intros Hf; [reflexivity|].
  rewrite (Hf a (or_introl eq_refl)). apply IH. intros x Hx. apply Hf. now right.
Qed.

Lemma filter_all {A : Type} (f : A -> bool) (l : list A) :
  (forall x, In x l -> f x = true) -> filter f l = l.
Proof.
  induction l as [|a l IH]; simpl; intros Hf; [reflexivity|].
  rewrite (Hf a (or_introl eq_refl)). f_equal. apply IH. intros x Hx. apply Hf. now right.
Qed.

Section Keys.
Context {P : Pandas} {K : Type} (cmp : K -> K -> comparison).
Hypothesis cmp_eq : forall a b, cmp a b = Eq <-> a = b.
Hypothesis cmp_opp : forall a b, cmp b a = CompOpp (cmp a b).
Hypothesis cmp_trans : forall a b c, cmp a b = Lt -> cmp b c = Lt -> cmp a c = Lt.

Lemma key_eqb_eq (a b : K) : key_eqb cmp a b = true <-> a = b.
Proof.
  unfold key_eqb. rewrite <- cmp_eq. destruct (cmp a b); split; congruence.
Qed.

Lemma key_eqb_refl (a : K) : key_eqb cmp a a = true.
Proof. now apply key_eqb_eq. Qed.

Lemma insert_key_In (k x : K) (l : list K) :
  In x (insert_key cmp k l) <-> x = k \/ In x l.
Proof.
  induction l as [|k' l IH]; simpl.
  - intuition.
  - destruct (cmp k k') eqn:E; simpl.
    + apply cmp_eq in E. subst k'. intuition.
    + intuition.
    + rewrite IH. intuition.
Qed.

Lemma insert_key_sorted (k : K) (l : list K) :
  StronglySorted (key_lt cmp) l -> StronglySorted (key_lt cmp) (insert_key cmp k l).
Proof.
  induction 1 as [|k' l Hs IH Hall]; simpl.
  - repeat constructor.
  - destruct (cmp k k') eqn:E.
    + now constructor.
    + constructor; [now constructor|].
      constructor; [exact E|].
      rewrite Forall_forall in *. intros x Hx.
      eapply cmp_trans; [exact E | now apply Hall].
    + constructor; [assumption|].
      rewrite Forall_forall in *. intros x Hx.
      apply insert_key_In in Hx. destruct Hx as [->|Hx]; [|now apply Hall].
      unfold key_lt. rewrite cmp_opp, E. reflexivity.
Qed.

Lemma sorted_keys_In (x : K) (l : list K) : In x (sorted_keys cmp l) <-> In x l.
Proof.
  induction l as [|k l IH]; simpl; [reflexivity|].
  rewrite insert_key_In, IH. intuition.
Qed.

Lemma sorted_keys_sorted (l : list K) : StronglySorted (key_lt cmp) (sorted_keys cmp l).
Proof.
  induction l as [|k l IH]; simpl; [constructor|].
  now apply insert_key_sorted.
Qed.

Lemma get_tabulate (f : K -> float) (k : K) (keys : list K) :
  get cmp k (map (fun x => (x, f x)) keys)
  = if existsb (key_eqb cmp k) keys then Some (f k) else None.
Proof.
  induction keys as [|x keys IH]; simpl; [reflexivity|].
  destruct (key_eqb cmp k x) eqn:E; simpl; [|exact IH].
  apply key_eqb_eq in E. now subst.
Qed.

(** a key has an empty group exactly when it has no row *)
Lemma group_nil (k : K) (rows : list (K * float)) :
  group cmp k rows = [] <-> ~ In k (map fst rows).
Proof.
  unfold group. split.
  - intros E Hin. apply in_map_iff in Hin. destruct Hin as [[k' v] [Hk Hin]].
    simpl in Hk. subst k'.
    assert (Hf : In (k, v) (filter (fun kv => key_eqb cmp k (fst kv)) rows)).
    { apply filter_In. split; [exact Hin|apply key_eqb_refl]. }
    destruct (filter _ rows); [contradiction|discriminate].
  - intros Hk. rewrite filter_none; [reflexivity|].
    intros [k' v] Hin. simpl.
    destruct (key_eqb cmp k k') eqn:E; [|reflexivity].
    apply key_eqb_eq in E. subst k'. exfalso. apply Hk.
    change k with (fst (k, v)). now apply in_map.
Qed.

(** a column built from a grouped sum holds, at every index, the sum of the
    group, and 0.0 where the group is empty or its sum is not a number *)
Lemma column_groupby (rows : list (K * float)) (k : K) :
  column cmp (groupby_sum cmp rows) k
  = match group cmp k rows with
    | [] => 0%float
    | vs => fillna 0 (group_sum vs)
    end.
Proof.
  unfold column, groupby_sum. rewrite get_tabulate.
  destruct (existsb (key_eqb cmp k) (sorted_keys cmp (map fst rows))) eqn:E.
  - apply existsb_exists in E. destruct E as [k' [Hin E]].
    apply key_eqb_eq in E. subst k'. apply (proj1 (sorted_keys_In _ _)) in Hin.
    destruct (group cmp k rows) eqn:G; [|reflexivity].
    exfalso. exact (proj1 (group_nil k rows) G Hin).
  - assert (G : group cmp k rows = []).
    { apply group_nil. intros Hin.
      assert (existsb (key_eqb cmp k) (sorted_keys cmp (map fst rows)) = true).
      { apply existsb_exists. exists k. split; [now apply sorted_keys_In|apply key_eqb_refl]. }
      congruence. }
    now rewrite G.
Qed.

Lemma groupby_keys (rows : list (K * float)) :
  map fst (groupby_sum cmp rows) = sorted_keys cmp (map fst rows).
Proof.
  unfold groupby_sum. rewrite map_map. simpl. apply map_id.
Qed.

End Keys.

End FrameFacts.

(* ================================================================== *)
(** ** Currency normalization and revenue against budget *)

Module ToolsFacts.
Import Text Py Frame Tools Spec SpecMore Samples FloatFacts FrameFacts Unfolded.
Local Open Scope string_scope.

Lemma ts_compare_eq (a b : Timestamp) : ts_compare a b = Eq <-> a = b.
Proof.
  destruct a as [y1 m1 d1], b as [y2 m2 d2]. unfold ts_compare. simpl. split.
  - destruct (Z.compare_spec y1 y2); try discriminate.
    destruct (Z.compare_spec m1 m2); try discriminate.
    intros Hd. apply Z.compare_eq in Hd. congruence.
  - intros [= -> -> ->]. now rewrite !Z.compare_refl.
Qed.

Lemma ts_compare_opp (a b : Timestamp) : ts_compare b a = CompOpp (ts_compare a b).
Proof.
  destruct a as [y1 m1 d1], b as [y2 m2 d2]. unfold ts_compare. simpl.
  rewrite (Z.compare_antisym y1 y2), (Z.compare_antisym m1 m2),
    (Z.compare_antisym d1 d2).
  destruct (y1 ?= y2)%Z, (m1 ?= m2)%Z, (d1 ?= d2)%Z; reflexivity.
Qed.

Lemma ts_compare_lt (a b : Timestamp) :
  ts_compare a b = Lt <->
  (ts_year a < ts_year b
   \/ (ts_year a = ts_year b
       /\ (ts_month a < ts_month b
           \/ (ts_month a = ts_month b /\ ts_day a < ts_day b))))%Z.
Proof.
  destruct a as [y1 m1 d1], b as [y2 m2 d2]. unfold ts_compare. simpl.
  destruct (Z.compare_spec y1 y2); destruct (Z.compare_spec m1 m2);
    destruct (Z.compare_spec d1 d2); split; intros; try discriminate;
    try reflexivity; lia.
Qed.

Lemma ts_compare_trans (a b c : Timestamp) :
  ts_compare a b = Lt -> ts_compare b c = Lt -> ts_compare a c = Lt.
Proof. rewrite !ts_compare_lt. lia. Qed.

Lemma ts_eqb_eq (a b : Timestamp) : ts_eqb a b = true <-> a = b.
Proof. apply key_eqb_eq, ts_compare_eq. Qed.

Lemma ts_eqb_sym (a b : Timestamp) : ts_eqb a b = ts_eqb b a.
Proof.
  destruct (ts_eqb a b) eqn:E1, (ts_eqb b a) eqn:E2; try reflexivity.
  - apply ts_eqb_eq in E1. subst. rewrite (proj2 (ts_eqb_eq b b) eq_refl) in E2.
    discriminate.
  - apply ts_eqb_eq in E2. subst. rewrite (proj2 (ts_eqb_eq a a) eq_refl) in E1.
    discriminate.
Qed.

Lemma month_start_idem (d : Timestamp) : month_start (month_start d) = month_start d.
Proof. reflexivity. Qed.

Lemma period_eqb_eq (p q : Period) : period_eqb p q = true <-> p = q.
Proof.
  destruct p as [y1 m1], q as [y2 m2]. unfold period_eqb. simpl.
  rewrite andb_true_iff, !Z.eqb_eq. split; [intros [-> ->]; reflexivity|].
  intros [= -> ->]. auto.
Qed.

Lemma period_eqb_refl (p : Period) : period_eqb p p = true.
Proof. now apply period_eqb_eq. Qed.

(** two dates fall in the same month when their periods are equal *)
Lemma ts_eqb_month (a b : Timestamp) :
  ts_eqb (month_start a) (month_start b) = period_eqb (period_of a) (period_of b).
Proof.
  destruct (period_eqb (period_of a) (period_of b)) eqn:E.
  - apply period_eqb_eq in E. apply ts_eqb_eq. unfold month_start.
    unfold period_of in E. now inversion E.
  - destruct (ts_eqb _ _) eqn:E'; [|reflexivity].
    apply ts_eqb_eq in E'. unfold month_start in E'. inversion E' as [[Hy Hm]].
    assert (period_eqb (period_of a) (period_of b) = true).
    { apply period_eqb_eq. unfold period_of. now rewrite Hy, Hm. }
    congruence.
Qed.

Lemma first_day_period (p : Period) : period_of (first_day p) = p.
Proof. now destruct p. Qed.

Lemma ts_eqb_first_day (d : Timestamp) (p : Period) :
  ts_eqb (month_start d) (first_day p) = period_eqb (period_of d) p.
Proof.
  change (first_day p) with (month_start (first_day p)).
  now rewrite ts_eqb_month, first_day_period.
Qed.

Lemma month_start_first_day (d : Timestamp) :
  month_start d = first_day (period_of d).
Proof. reflexivity. Qed.

Section Merge.
Context {R : Type} `{Ledger R}.

Lemma fx_matches_quotes (r : R) (f : fx_row) : fx_matches r f = quotes r f.
Proof. unfold fx_matches, quotes. now rewrite ts_eqb_month. Qed.

Lemma quotes_same_key (r : R) (f : fx_row) : quotes r f = true <-> same_key r f.
Proof.
  unfold quotes, same_key.
  now rewrite andb_true_iff, period_eqb_eq, String.eqb_eq.
Qed.

Lemma fx_matches_same_key (r : R) (f : fx_row) :
  fx_matches r f = true <-> same_key r f.
Proof. rewrite fx_matches_quotes. apply quotes_same_key. Qed.

Lemma filter_matches (fx : list fx_row) (r : R) :
  filter (fx_matches r) fx = filter (quotes r) fx.
Proof. apply filter_ext. intros f. apply fx_matches_quotes. Qed.

Lemma merge_row_absent (fx : list fx_row) (r : R) :
  rate_absent fx r -> merge_row fx r = [with_rate r 1].
Proof.
  intros Habs. unfold merge_row. rewrite filter_none; [reflexivity|].
  intros f Hf. destruct (fx_matches r f) eqn:E; [|reflexivity].
  apply fx_matches_same_key in E. now apply Habs in E.
Qed.

Lemma merge_row_inv (fx : list fx_row) (r : R) (m : merged R) :
  In m (merge_row fx r) ->
  (rate_absent fx r /\ m = with_rate r 1)
  \/ exists f, In f fx /\ same_key r f /\ m = with_rate r (quoted_rate f).
Proof.
  unfold merge_row. destruct (filter (fx_matches r) fx) as [|f0 ms] eqn:E.
  - intros [<-|[]]. left. split; [|reflexivity].
    intros f Hf Hk. apply fx_matches_same_key in Hk.
    assert (In f (filter (fx_matches r) fx)) by (apply filter_In; auto).
    rewrite E in *. contradiction.
  - rewrite <- E. intros Hin. apply in_map_iff in Hin.
    destruct Hin as [f [<- Hf]]. apply filter_In in Hf. destruct Hf as [Hf Hk].
    right. exists f. apply fx_matches_same_key in Hk. auto.
Qed.

Lemma merge_row_present (fx : list fx_row) (r : R) (f : fx_row) :
  In f fx -> same_key r f -> In (with_rate r (quoted_rate f)) (merge_row fx r).
Proof.
  intros Hf Hk. unfold merge_row.
  assert (Hin : In f (filter (fx_matches r) fx)).
  { apply filter_In. split; [assumption|now apply fx_matches_same_key]. }
  destruct (filter (fx_matches r) fx) as [|f0 ms] eqn:E; [contradiction|].
  apply in_map_iff. exists f. auto.
Qed.

Lemma merge_fx_In (df : list R) (fx : list fx_row) (m : merged R) :
  In m (_merge_fx df fx) <-> exists r, In r df /\ In m (merge_row fx r).
Proof. unfold _merge_fx. apply in_flat_map. Qed.

Lemma merge_row_src (fx : list fx_row) (r : R) (m : merged R) :
  In m (merge_row fx r) ->
  src m = r /\ date m = month_start (date_of r)
  /\ amount_usd m = (amount_of r * rate_to_usd m)%float.
Proof.
  intros Hin. apply merge_row_inv in Hin.
  destruct Hin as [[_ ->]|[f [_ [_ ->]]]]; simpl; auto.
Qed.

(** the amounts of the merged rows of a row are the amounts in USD the row
    stands for *)
Lemma merge_row_usd (fx : list fx_row) (r : R) :
  map amount_usd (merge_row fx r) = usd_amounts fx r.
Proof.
  unfold merge_row, usd_amounts. rewrite filter_matches.
  destruct (filter (quotes r) fx) as [|f fs].
  - simpl. now rewrite mul_one.
  - rewrite map_map. reflexivity.
Qed.

(** selecting merged rows by a test that only reads what the row they come
    from decides selects the rows they come from *)
Lemma merged_select (sel : merged R -> bool) (sel' : R -> bool)
  (df : list R) (fx : list fx_row) :
  (forall r m, In r df -> In m (merge_row fx r) -> sel m = sel' r) ->
  map amount_usd (filter sel (_merge_fx df fx))
  = flat_map (usd_amounts fx) (filter sel' df).
Proof.
  unfold _merge_fx. induction df as [|r df IH]; intros Hsel; [reflexivity|].
  cbn [flat_map]. rewrite filter_app, map_app, IH.
  2:{ intros r' m Hr'. apply Hsel. now right. }
  cbn [filter]. destruct (sel' r) eqn:E.
  - cbn [flat_map]. f_equal. rewrite filter_all; [apply merge_row_usd|].
    intros m Hm. rewrite (Hsel r m); [exact E|now left|exact Hm].
  - rewrite filter_none; [reflexivity|].
    intros m Hm. rewrite (Hsel r m); [exact E|now left|exact Hm].
Qed.

End Merge.

(** C8: a row whose (period, currency) pair has no rate is carried over once,
    at rate 1, with its amount unchanged; a row whose pair has a rate is
    carried over at that rate, with amount times rate (a rate that is not a
    number counts as none: it is filled with 1.0 like a missing one); every
    merged row comes from a ledger row in one of these two ways, so the merge
    has no failure case. *)
Theorem merge_fx_rate {R : Type} `{Ledger R} (df : list R) (fx : list fx_row) (r : R) :
  In r df ->
  (rate_absent fx r ->
     merge_row fx r = [with_rate r 1]
     /\ In (with_rate r 1) (_merge_fx df fx)
     /\ forall m, In m (_merge_fx df fx) -> src m = r ->
                  rate_to_usd m = 1%float /\ amount_usd m = amount_of r)
  /\ (forall f, In f fx -> same_key r f ->
        In (with_rate r (quoted_rate f)) (_merge_fx df fx)
        /\ amount_usd (with_rate r (quoted_rate f))
           = (amount_of r * quoted_rate f)%float
        /\ (isnan (fx_rate f) = false -> quoted_rate f = fx_rate f)
        /\ (isnan (fx_rate f) = true -> quoted_rate f = 1%float))
  /\ (forall m, In m (_merge_fx df fx) -> src m = r ->
        amount_usd m = (amount_of r * rate_to_usd m)%float
        /\ ((rate_absent fx r /\ rate_to_usd m = 1%float)
            \/ exists f, In f fx /\ same_key r f /\ rate_to_usd m = quoted_rate f)).
Proof.
  intros Hr. split; [|split].
  - intros Habs. split; [now apply merge_row_absent|]. split.
    + apply merge_fx_In. exists r. split; [assumption|].
      rewrite merge_row_absent by assumption. now left.
    + intros m Hm Hsrc. apply merge_fx_In in Hm. destruct Hm as [r' [_ Hm]].
      pose proof (merge_row_src _ _ _ Hm) as [Hs _]. rewrite Hsrc in Hs. subst r'.
      rewrite merge_row_absent in Hm by assumption.
      destruct Hm as [<-|[]]. simpl. split; [reflexivity|apply mul_one].
  - intros f Hf Hk. split; [|split; [reflexivity|]].
    + apply merge_fx_In. exists r. split; [assumption|now apply merge_row_present].
    + unfold quoted_rate, fillna, isnan. split; intros ->; reflexivity.
  - intros m Hm Hsrc. apply merge_fx_In in Hm. destruct Hm as [r' [_ Hm]].
    pose proof (merge_row_src _ _ _ Hm) as [Hs [_ Ha]]. rewrite Hsrc in Hs. subst r'.
    split; [assumption|].
    apply merge_row_inv in Hm. destruct Hm as [[Habs ->]|[f [Hf [Hk ->]]]].
    + left. auto.
    + right. exists f. auto.
Qed.

Lemma merge_fx_rate_witness :
  _merge_fx [eur_june; gbp_june] [eur_rate]
  = [with_rate eur_june 1.25; with_rate gbp_june 1]
  /\ map amount_usd (_merge_fx [eur_june; gbp_june] [eur_rate]) = [1250; 250]%float
  /\ In (with_rate gbp_june 1) (_merge_fx [eur_june; gbp_june] [eur_rate]).
Proof.
  split; [reflexivity|]. split; [reflexivity|].
  refine (proj1 (proj2 (proj1 (merge_fx_rate [eur_june; gbp_june] [eur_rate] gbp_june _) _))).
  - simpl. auto.
  - intros f [<-|[]] [_ Hc]. discriminate Hc.
Defined.

Lemma sum_filter_normalized (p : merged ledger_row -> bool) (q : normalized -> bool)
  (l : list (merged ledger_row)) :
  (forall m, In m l ->
     q {| row := m; account_norm := lower (account (src m)) |} = p m) ->
  usd (filter q (_normalize_accounts l)) = map amount_usd (filter p l).
Proof.
  induction l as [|m l IH]; simpl; intros Hpq; [reflexivity|].
  rewrite (Hpq m (or_introl eq_refl)).
  destruct (p m); simpl; rewrite IH; auto.
Qed.

(** the tests of the code on a normalized row are the labels of the
    specification on the account of the row it comes from *)
Lemma is_revenue_label (m : merged ledger_row) :
  is_revenue {| row := m; account_norm := lower (account (src m)) |}
  = revenue_label (account (src m)).
Proof.
  unfold is_revenue, revenue_label, isin. simpl. now rewrite orb_false_r.
Qed.

Lemma is_cogs_label (m : merged ledger_row) :
  is_cogs {| row := m; account_norm := lower (account (src m)) |}
  = cogs_label (account (src m)).
Proof.
  unfold is_cogs, cogs_label, isin. simpl. now rewrite orb_false_r.
Qed.

Lemma is_opex_label (m : merged ledger_row) :
  is_opex {| row := m; account_norm := lower (account (src m)) |}
  = opex_label (account (src m)).
Proof. reflexivity. Qed.

(** the amounts a selection of the normalized ledger holds *)
Lemma usd_select (sel : normalized -> bool) (sel' : ledger_row -> bool)
  (rows : list ledger_row) (fx : list fx_row) :
  (forall r m, In r rows -> In m (merge_row fx r) ->
     sel {| row := m; account_norm := lower (account (src m)) |} = sel' r) ->
  usd (filter sel (_normalize_accounts (_merge_fx rows fx)))
  = flat_map (usd_amounts fx) (filter sel' rows).
Proof.
  intros Hsel.
  rewrite (@sum_filter_normalized
             (fun m => sel {| row := m; account_norm := lower (account (src m)) |}));
    [|reflexivity].
  now apply merged_select.
Qed.

(** the rows of a category in a period, selected on the normalized ledger
    by the first day of the period *)
Lemma usd_in_period (cat : normalized -> bool) (label : string -> bool)
  (rows : list ledger_row) (fx : list fx_row) (p : Period) :
  (forall m : merged ledger_row,
     cat {| row := m; account_norm := lower (account (src m)) |}
     = label (account (src m))) ->
  usd (filter (fun r => ts_eqb (date (row r)) (first_day p) && cat r)
         (_normalize_accounts (_merge_fx rows fx)))
  = amounts_in label rows fx p.
Proof.
  intros Hcat. unfold amounts_in. apply usd_select.
  intros r m _ Hm. rewrite Hcat. cbn [row].
  apply merge_row_src in Hm. destruct Hm as [-> [-> _]].
  now rewrite ts_eqb_first_day.
Qed.

Section WithPandas.
Context {P : Pandas}.

Lemma first_of_month_ok (year month : Z) :
  timestamp_ok year month = true ->
  first_of_month year month = Ok (first_day (year, month)).
Proof. unfold first_of_month. now intros ->. Qed.

Lemma first_of_month_raises (year month : Z) :
  timestamp_ok year month = false ->
  first_of_month year month = Raise ValueError.
Proof. unfold first_of_month. now intros ->. Qed.

(** what [_sum_by_account] returns for each key, on a month the timestamp
    holds *)
Lemma sum_by_account_category (rows : list ledger_row) (fx : list fx_row)
  (year month : Z) (account_key : string) :
  timestamp_ok year month = true ->
  _sum_by_account (_normalize_accounts (_merge_fx rows fx)) year month account_key
  = Ok match category_of account_key with
       | Some label => series_sum (amounts_in label rows fx (year, month))
       | None => 0%float
       end.
Proof.
  intros Hok. unfold _sum_by_account, category_of.
  rewrite (first_of_month_ok _ _ Hok). cbn [bind].
  destruct (String.eqb account_key "opex");
    [now rewrite (usd_in_period is_opex opex_label rows fx (year, month) is_opex_label)|].
  destruct (String.eqb account_key "revenue");
    [now rewrite (usd_in_period is_revenue revenue_label rows fx (year, month) is_revenue_label)|].
  destruct (String.eqb account_key "cogs");
    [now rewrite (usd_in_period is_cogs cogs_label rows fx (year, month) is_cogs_label)|].
  reflexivity.
Qed.

Lemma sum_by_account_raises (df : list normalized) (year month : Z)
  (account_key : string) :
  timestamp_ok year month = false ->
  _sum_by_account df year month account_key = Raise ValueError.
Proof.
  intros Hno. unfold _sum_by_account. now rewrite (first_of_month_raises _ _ Hno).
Qed.

Lemma sum_by_account_revenue (rows : list ledger_row) (fx : list fx_row)
  (year month : Z) :
  timestamp_ok year month = true ->
  _sum_by_account (_normalize_accounts (_merge_fx rows fx)) year month "revenue"
  = Ok (revenue_usd rows fx year month).
Proof. intros Hok. now rewrite sum_by_account_category. Qed.

Lemma revenue_vs_budget_result (dfs : datasets) (year month : Z) :
  timestamp_ok year month = true ->
  let a := revenue_usd (actuals dfs) (fx dfs) year month in
  let b := revenue_usd (budget dfs) (fx dfs) year month in
  exists fig,
    revenue_vs_budget_usd dfs year month
    = Ok {| actual_usd := a; budget_usd := b; variance_usd := (a - b)%float;
            variance_pct := variance_pct_of a b; rvb_chart := fig |}.
Proof.
  intros Hok a b. unfold revenue_vs_budget_usd.
  rewrite !sum_by_account_revenue by assumption. fold a b. cbn [bind].
  eexists. do 2 f_equal. unfold variance_pct_of, fillna, isnan.
  destruct (PrimFloat.is_nan _); reflexivity.
Qed.

(** C3, as amended: on a month the timestamp holds (every month from
    1677-10 to 2262-04 is one, no month outside 1..12 is, and the code raises
    [ValueError] on the others), the variance is actual revenue minus budget
    revenue, each the sum of the revenue amounts of the period in USD; the
    percentage is variance / budget * 100 when the budget is not 0 and the
    quotient is a number, and 0 when the budget is 0 or the quotient is not a
    number; it is never [nan]. *)
Theorem revenue_vs_budget_variance (dfs : datasets) (year month : Z) :
  let a := revenue_usd (actuals dfs) (fx dfs) year month in
  let b := revenue_usd (budget dfs) (fx dfs) year month in
  let q := ((a - b) / b * 100)%float in
  (timestamp_ok year month = true ->
   exists res,
     revenue_vs_budget_usd dfs year month = Ok res
     /\ actual_usd res = a /\ budget_usd res = b
     /\ variance_usd res = (a - b)%float
     /\ (nonzero b = true -> isnan q = false -> variance_pct res = q)
     /\ (nonzero b = false -> variance_pct res = 0%float)
     /\ (isnan q = true -> variance_pct res = 0%float)
     /\ isnan (variance_pct res) = false)
  /\ (timestamp_ok year month = false ->
      revenue_vs_budget_usd dfs year month = Raise ValueError)
  /\ (ns_month year month = true -> timestamp_ok year month = true)
  /\ (~ (1 <= month <= 12)%Z -> timestamp_ok year month = false).
Proof.
  intros a b q. split; [|split; [|split]].
  - intros Hok. destruct (revenue_vs_budget_result dfs year month Hok) as [fig E].
    fold a b in E. eexists. split; [exact E|]. cbn.
    unfold variance_pct_of. fold q.
    split; [reflexivity|]. split; [reflexivity|]. split; [reflexivity|].
    split; [|split; [|split]].
    + intros -> Hq. now apply fillna_number.
    + intros ->. reflexivity.
    + intros Hq. destruct (nonzero b); [|reflexivity].
      unfold fillna. unfold isnan in Hq. now rewrite Hq.
    + apply fillna_not_nan.
  - intros Hno. unfold revenue_vs_budget_usd.
    now rewrite (sum_by_account_raises _ _ _ _ Hno).
  - apply timestamp_ok_ns.
  - intros Hm. destruct (timestamp_ok year month) eqn:E; [|reflexivity].
    apply timestamp_ok_month in E. contradiction.
Qed.

End WithPandas.

Lemma revenue_vs_budget_variance_witness :
  exists res,
    revenue_vs_budget_usd (P := rowwise) books 2025 6 = Ok res
    /\ actual_usd res = 140000%float /\ budget_usd res = 135000%float
    /\ variance_usd res = 5000%float
    /\ variance_pct res = (5000 / 135000 * 100)%float
    /\ isnan (variance_pct res) = false.
Proof.
  destruct (proj1 (@revenue_vs_budget_variance rowwise books 2025 6) eq_refl)
    as [res [E [Ha [Hb [Hv [Hq [_ [_ Hn]]]]]]]].
  exists res. split; [exact E|].
  split; [rewrite Ha; vm_compute; reflexivity|].
  split; [rewrite Hb; vm_compute; reflexivity|].
  split; [rewrite Hv; vm_compute; reflexivity|].
  split; [|exact Hn].
  rewrite Hq; [vm_compute; reflexivity|vm_compute; reflexivity|vm_compute; reflexivity].
Defined.

(** the end-to-end scenario of the specification: June 2025, actual 140000
    against a budget of 135000 *)
Example revenue_vs_budget_june :
  exists fig,
    revenue_vs_budget_usd (P := rowwise) books 2025 6
    = Ok {| actual_usd := 140000; budget_usd := 135000; variance_usd := 5000;
            variance_pct := (5000 / 135000 * 100)%float; rvb_chart := fig |}
    /\ format_f 1 false (5000 / 135000 * 100)%float = "3.7".
Proof. eexists. split; vm_compute; reflexivity. Qed.

(** C3, as stated, fails: for month 13 nothing is returned, and a revenue
    near the top of the range of the floats against a budget of one dollar
    gives an infinite percentage. *)
Lemma variance_pct_not_finite :
  revenue_vs_budget_usd (P := rowwise) books 2025 13 = Raise ValueError
  /\ exists res,
       revenue_vs_budget_usd (P := rowwise) windfall 2025 6 = Ok res
       /\ actual_usd res = huge /\ budget_usd res = 1%float
       /\ variance_pct res = infinity.
Proof.
  split; [reflexivity|]. eexists. split; [vm_compute; reflexivity|].
  repeat split.
Qed.

End ToolsFacts.

(* ================================================================== *)
(** ** The monthly series: gross margin and EBITDA *)

Module SeriesFacts.
Import Text Py Frame Tools Spec SpecMore FloatFacts FrameFacts ToolsFacts Unfolded.
Local Open Scope string_scope.

Lemma tail_map {A B : Type} (f : A -> B) (n : Z) (l : list A) :
  tail n (map f l) = map f (tail n l).
Proof.
  unfold tail. rewrite length_map.
  destruct (n =? 0)%Z; [reflexivity|].
  destruct (n <? 0)%Z; apply skipn_map.
Qed.

Lemma filter_andb {A : Type} (f g : A -> bool) (l : list A) :
  filter f (filter g l) = filter (fun x => f x && g x) l.
Proof.
  induction l as [|a l IH]; simpl; [reflexivity|].
  destruct (g a); simpl.
  - rewrite andb_true_r. destruct (f a); now rewrite IH.
  - now rewrite andb_false_r.
Qed.

Lemma merge_row_nonempty {R : Type} `{Ledger R} (fx : list fx_row) (r : R) :
  exists m, In m (merge_row fx r).
Proof.
  unfold merge_row. destruct (filter (fx_matches r) fx); simpl; eauto.
Qed.

Lemma usd_amounts_nonempty {R : Type} `{Ledger R} (fx : list fx_row) (r : R) :
  usd_amounts fx r <> [].
Proof.
  unfold usd_amounts. destruct (filter (quotes r) fx); discriminate.
Qed.

(** a period has amounts of a category exactly when it has a row of it *)
Lemma amounts_in_nil (label : string -> bool) (rows : list ledger_row)
  (fx : list fx_row) (p : Period) :
  amounts_in label rows fx p = [] <->
  forall r, In r rows -> period_of (row_date r) = p -> label (account r) = false.
Proof.
  unfold amounts_in. split.
  - intros E r Hr Hp. destruct (label (account r)) eqn:El; [|reflexivity].
    exfalso.
    assert (Hin : In r (filter (fun r => period_eqb (period_of (row_date r)) p
                                         && label (account r)) rows)).
    { apply filter_In. split; [exact Hr|].
      now rewrite El, (proj2 (period_eqb_eq _ _) Hp). }
    destruct (filter _ rows) as [|r0 l]; [contradiction|].
    cbn [flat_map] in E. apply app_eq_nil in E. destruct E as [E _].
    exact (usd_amounts_nonempty _ _ E).
  - intros Hall. rewrite filter_none; [reflexivity|].
    intros r Hr. destruct (period_eqb (period_of (row_date r)) p) eqn:Ep;
      [|reflexivity].
    apply period_eqb_eq in Ep. now rewrite (Hall r Hr Ep).
Qed.

(** the rows of the normalized ledger, by the rows they come from *)
Lemma ledger_rows (rows : list ledger_row) (fx : list fx_row) (n : normalized) :
  In n (_normalize_accounts (_merge_fx rows fx)) <->
  exists r m, In r rows /\ In m (merge_row fx r)
              /\ n = {| row := m; account_norm := lower (account (src m)) |}.
Proof.
  unfold _normalize_accounts. rewrite in_map_iff. split.
  - intros [m [<- Hm]]. apply merge_fx_In in Hm. destruct Hm as [r [Hr Hm]].
    exists r, m. auto.
  - intros [r [m [Hr [Hm ->]]]]. exists m. split; [reflexivity|].
    apply merge_fx_In. eauto.
Qed.

Section WithPandas.
Context {P : Pandas}.

(** the group of a month in a monthly series holds the amounts of the
    category in the period *)
Lemma monthly_group (cat : normalized -> bool) (label : string -> bool)
  (rows : list ledger_row) (fx : list fx_row) (p : Period) :
  (forall m : merged ledger_row,
     cat {| row := m; account_norm := lower (account (src m)) |}
     = label (account (src m))) ->
  group ts_compare (first_day p)
    (map (fun r => (month_start (date (row r)), amount_usd (row r)))
       (filter cat (_normalize_accounts (_merge_fx rows fx))))
  = amounts_in label rows fx p.
Proof.
  intros Hcat. unfold group. rewrite filter_map_swap, map_map, filter_andb.
  cbn [fst snd]. unfold amounts_in.
  change (map (fun x : normalized => amount_usd (row x))) with usd.
  apply usd_select. intros r m _ Hm. rewrite Hcat. cbn [row].
  apply merge_row_src in Hm. destruct Hm as [-> [-> _]].
  rewrite month_start_idem.
  change (key_eqb ts_compare) with ts_eqb. rewrite ts_eqb_sym.
  now rewrite ts_eqb_first_day.
Qed.

(** a column of a monthly frame holds the monthly total of its category *)
Lemma monthly_column (cat : normalized -> bool) (label : string -> bool)
  (rows : list ledger_row) (fx : list fx_row) (p : Period) :
  (forall m : merged ledger_row,
     cat {| row := m; account_norm := lower (account (src m)) |}
     = label (account (src m))) ->
  column ts_compare (monthly cat (_normalize_accounts (_merge_fx rows fx)))
    (first_day p)
  = monthly_total label rows fx p.
Proof.
  intros Hcat. unfold monthly, monthly_total.
  rewrite (column_groupby ts_compare ts_compare_eq).
  now rewrite (monthly_group cat label rows fx p Hcat).
Qed.

(** the index of a monthly series: the first days of the periods that have a
    row of the category *)
Lemma monthly_keys (cat : normalized -> bool) (label : string -> bool)
  (rows : list ledger_row) (fx : list fx_row) (k : Timestamp) :
  (forall m : merged ledger_row,
     cat {| row := m; account_norm := lower (account (src m)) |}
     = label (account (src m))) ->
  In k (map fst (monthly cat (_normalize_accounts (_merge_fx rows fx)))) <->
  exists r, In r rows /\ label (account r) = true
            /\ k = first_day (period_of (row_date r)).
Proof.
  intros Hcat. unfold monthly.
  rewrite groupby_keys, (sorted_keys_In ts_compare ts_compare_eq).
  rewrite map_map. cbn [fst]. rewrite in_map_iff. split.
  - intros [n [<- Hn]]. apply filter_In in Hn. destruct Hn as [Hn Hc].
    apply ledger_rows in Hn. destruct Hn as [r [m [Hr [Hm ->]]]].
    rewrite Hcat in Hc. cbn [row].
    apply merge_row_src in Hm. destruct Hm as [Hs [-> _]]. rewrite Hs in Hc.
    exists r. auto.
  - intros [r [Hr [Hl ->]]]. destruct (merge_row_nonempty fx r) as [m Hm].
    exists {| row := m; account_norm := lower (account (src m)) |}.
    pose proof (merge_row_src _ _ _ Hm) as [Hs [Hd _]]. split.
    + cbn [row]. now rewrite Hd.
    + apply filter_In. split.
      * apply ledger_rows. eauto.
      * rewrite Hcat. now rewrite Hs.
Qed.

Lemma frame_index_sorted (cols : list (list (Timestamp * float))) :
  StronglySorted before (frame_index ts_compare cols).
Proof.
  apply (sorted_keys_sorted ts_compare ts_compare_eq ts_compare_opp ts_compare_trans).
Qed.

Lemma frame_index_In (cols : list (list (Timestamp * float))) (p : Timestamp) :
  In p (frame_index ts_compare cols) <-> exists s, In s cols /\ In p (map fst s).
Proof.
  unfold frame_index. rewrite (sorted_keys_In ts_compare ts_compare_eq).
  apply in_flat_map.
Qed.

(** the index of the margin frame *)
Lemma gm_index_In (dfs : datasets) (k : Timestamp) :
  In k (gm_index (ledger dfs)) <->
  exists r, In r (actuals dfs)
            /\ (revenue_label (account r) || cogs_label (account r)) = true
            /\ k = first_day (period_of (row_date r)).
Proof.
  unfold gm_index, ledger. rewrite frame_index_In. split.
  - intros [s [[<-|[<-|[]]] Hk]].
    + apply (monthly_keys is_revenue revenue_label _ _ k is_revenue_label) in Hk.
      destruct Hk as [r [Hr [Hl ->]]]. exists r. rewrite Hl. auto.
    + apply (monthly_keys is_cogs cogs_label _ _ k is_cogs_label) in Hk.
      destruct Hk as [r [Hr [Hl ->]]]. exists r. rewrite Hl, orb_true_r. auto.
  - intros [r [Hr [Hl ->]]]. apply orb_true_iff in Hl. destruct Hl as [Hl|Hl].
    + exists (monthly is_revenue (_normalize_accounts (_merge_fx (actuals dfs) (fx dfs)))).
      split; [now left|].
      apply (monthly_keys is_revenue revenue_label _ _ _ is_revenue_label). eauto.
    + exists (monthly is_cogs (_normalize_accounts (_merge_fx (actuals dfs) (fx dfs)))).
      split; [right; now left|].
      apply (monthly_keys is_cogs cogs_label _ _ _ is_cogs_label). eauto.
Qed.

(** the rows of the margin frame, before any is dropped *)
Lemma gm_entry_period (dfs : datasets) (p : Period) :
  gm_entry (ledger dfs) (first_day p)
  = {| gm_ym := first_day p; gm_revenue := revenue_in dfs p;
       gm_cogs := cogs_in dfs p;
       gm := (revenue_in dfs p - cogs_in dfs p)%float;
       gm_pct := if nonzero (revenue_in dfs p) then gm_pct_in dfs p else nan |}.
Proof.
  unfold gm_entry, ledger.
  rewrite (monthly_column is_revenue revenue_label _ _ p is_revenue_label).
  rewrite (monthly_column is_cogs cogs_label _ _ p is_cogs_label).
  reflexivity.
Qed.

Lemma series_gm_unfold (dfa : list normalized) :
  _series_gm dfa
  = map (gm_entry dfa)
      (filter (fun k => negb (isnan (gm_pct (gm_entry dfa k)))) (gm_index dfa)).
Proof. unfold _series_gm. now rewrite filter_map_swap. Qed.

(** a row of the margin frame is kept when its period has a margin *)
Lemma gm_kept (dfs : datasets) (p : Period) :
  negb (isnan (gm_pct (gm_entry (ledger dfs) (first_day p)))) = has_margin dfs p.
Proof.
  rewrite gm_entry_period. cbn [gm_pct]. unfold has_margin.
  destruct (nonzero (revenue_in dfs p)); reflexivity.
Qed.

Lemma gm_pct_kept (dfs : datasets) (p : Period) :
  has_margin dfs p = true ->
  gm_pct (gm_entry (ledger dfs) (first_day p)) = gm_pct_in dfs p.
Proof.
  rewrite gm_entry_period. cbn [gm_pct]. unfold has_margin.
  intros Hm. apply andb_true_iff in Hm. destruct Hm as [-> _]. reflexivity.
Qed.

(** a period with revenue that is not 0 has a revenue row *)
Lemma revenue_row (dfs : datasets) (p : Period) :
  nonzero (revenue_in dfs p) = true ->
  exists r, In r (actuals dfs) /\ revenue_label (account r) = true
            /\ period_of (row_date r) = p.
Proof.
  intros Hnz. unfold revenue_in, monthly_total in Hnz.
  destruct (amounts_in revenue_label (actuals dfs) (fx dfs) p) eqn:E.
  - discriminate Hnz.
  - clear Hnz.
    assert (Hne : amounts_in revenue_label (actuals dfs) (fx dfs) p <> [])
      by (rewrite E; discriminate).
    unfold amounts_in in Hne.
    destruct (filter (fun r => period_eqb (period_of (row_date r)) p
                               && revenue_label (account r)) (actuals dfs))
      as [|r rs] eqn:F; [now contradiction Hne|].
    assert (Hin : In r (r :: rs)) by now left.
    rewrite <- F in Hin. apply filter_In in Hin. destruct Hin as [Hr Hc].
    apply andb_true_iff in Hc. destruct Hc as [Hp Hl].
    apply period_eqb_eq in Hp. eauto.
Qed.

End WithPandas.

End SeriesFacts.

Module TrendFacts.
Import Text Py Frame Tools Spec SpecMore Samples.
Import FloatFacts FrameFacts ToolsFacts SeriesFacts Unfolded.
Local Open Scope string_scope.

Lemma before_irrefl (p : Timestamp) : ~ before p p.
Proof.
  unfold before, key_lt. rewrite (proj2 (ts_compare_eq p p) eq_refl). discriminate.
Qed.

Lemma before_trans (a b c : Timestamp) : before a b -> before b c -> before a c.
Proof. apply ts_compare_trans. Qed.

(** the first days of two periods are in the order of the periods *)
Lemma before_first_day (p q : Period) :
  before (first_day p) (first_day q) <-> earlier p q.
Proof.
  unfold before, key_lt, earlier. rewrite ts_compare_lt. cbn. lia.
Qed.

Lemma earlier_irrefl (p : Period) : ~ earlier p p.
Proof. unfold earlier. lia. Qed.

Lemma earlier_trans (p q r : Period) : earlier p q -> earlier q r -> earlier p r.
Proof. unfold earlier. lia. Qed.

(** the last [n] entries of a chronological list are its [n] most recent:
    whatever is left out is older than all of them, and is left out only
    when [n] entries are kept *)
Lemma tail_most_recent (n : Z) (ks : list Timestamp) :
  (0 <= n)%Z -> StronglySorted before ks ->
  StronglySorted before (tail n ks)
  /\ (List.length (tail n ks) <= Z.to_nat n)%nat
  /\ (forall p, In p (tail n ks) -> In p ks)
  /\ (forall p, In p ks ->
        In p (tail n ks)
        \/ (List.length (tail n ks) = Z.to_nat n
            /\ forall p', In p' (tail n ks) -> before p p')).
Proof.
  intros Hn Hs. destruct (tail_suffix ks Hn) as [pre [Hks Hlen]].
  rewrite Hks in Hs. apply StronglySorted_app_inv in Hs. destruct Hs as [Hs Hlt].
  split; [assumption|]. split; [lia|]. split.
  - intros p Hp. rewrite Hks. apply in_or_app. now right.
  - intros p Hp. rewrite Hks in Hp. apply in_app_or in Hp.
    destruct Hp as [Hp|Hp]; [right|now left]. split.
    + assert (Hl : List.length ks = (List.length pre + List.length (tail n ks))%nat)
        by (rewrite Hks at 1; apply length_app).
      destruct pre; [contradiction|]. simpl in Hl. lia.
    + intros p' Hp'. now apply Hlt.
Qed.

(** the same, for a list of first days read as periods *)
Lemma tail_most_recent_periods (n : Z) (ks : list Timestamp) :
  (0 <= n)%Z -> StronglySorted before ks ->
  (forall k, In k ks -> k = first_day (period_of k)) ->
  let ps := map period_of (tail n ks) in
  StronglySorted earlier ps
  /\ (List.length ps <= Z.to_nat n)%nat
  /\ (forall p, In p ps -> In (first_day p) ks)
  /\ (forall p, In (first_day p) ks ->
        In p ps
        \/ (List.length ps = Z.to_nat n /\ forall p', In p' ps -> earlier p p')).
Proof.
  intros Hn Hs Hfd ps.
  destruct (tail_most_recent Hn Hs) as [H1 [H2 [H3 H4]]].
  unfold ps. rewrite length_map. split; [|split; [exact H2|split]].
  - apply (StronglySorted_map_intro (R := before)); [|exact H1].
    intros x y Hx Hy Hb. apply before_first_day.
    now rewrite <- (Hfd x (H3 x Hx)), <- (Hfd y (H3 y Hy)).
  - intros p Hp. apply in_map_iff in Hp. destruct Hp as [k [<- Hk]].
    rewrite <- (Hfd k (H3 k Hk)). now apply H3.
  - intros p Hp. destruct (H4 _ Hp) as [Hin|[Hl Hb]].
    + left. apply in_map_iff. exists (first_day p). split; [apply first_day_period|exact Hin].
    + right. split; [exact Hl|]. intros p' Hp'.
      apply in_map_iff in Hp'. destruct Hp' as [k [<- Hk]].
      apply before_first_day. rewrite <- (Hfd k (H3 k Hk)). now apply Hb.
Qed.

Section WithPandas.
Context {P : Pandas}.

Lemma gm_index_first_day (dfs : datasets) (k : Timestamp) :
  In k (gm_index (ledger dfs)) -> k = first_day (period_of k).
Proof.
  intros Hk. apply gm_index_In in Hk. destruct Hk as [r [_ [_ ->]]].
  now rewrite first_day_period.
Qed.

(** the months the margin series keeps: the first days of the periods that
    have a margin *)
Lemma gm_kept_In (dfs : datasets) (p : Period) :
  In (first_day p)
    (filter (fun k => negb (isnan (gm_pct (gm_entry (ledger dfs) k))))
       (gm_index (ledger dfs)))
  <-> has_margin dfs p = true.
Proof.
  rewrite filter_In, gm_kept. split; [tauto|].
  intros Hm. split; [|exact Hm].
  unfold has_margin in Hm. apply andb_true_iff in Hm. destruct Hm as [Hnz _].
  destruct (revenue_row dfs p Hnz) as [r [Hr [Hl <-]]].
  apply gm_index_In. exists r. rewrite Hl. auto.
Qed.

(** C4, as amended: for a window [N] that is not negative, the series holds,
    in chronological order, the last periods that have a margin (a revenue
    that is not 0 and a percentage that is a number): at most [N] of them,
    each with its percentage (revenue - cogs) / revenue * 100; a period with
    a margin that is left out is older than every period kept, and is left
    out only when [N] periods are kept. *)
Theorem gross_margin_trend_series (dfs : datasets) (N : Z) :
  (0 <= N)%Z ->
  exists ps : list Period,
    series (gross_margin_trend_pct dfs N)
    = map (fun p => {| period := period_label p;
                       point_gm_pct := gm_pct_in dfs p |}) ps
    /\ StronglySorted earlier ps
    /\ (forall p, In p ps ->
          nonzero (revenue_in dfs p) = true /\ isnan (gm_pct_in dfs p) = false)
    /\ (List.length ps <= Z.to_nat N)%nat
    /\ (forall p, nonzero (revenue_in dfs p) = true ->
                  isnan (gm_pct_in dfs p) = false ->
          In p ps
          \/ (List.length ps = Z.to_nat N
              /\ forall p', In p' ps -> earlier p p')).
Proof.
  intros HN. unfold gross_margin_trend_pct. fold (ledger dfs). cbn [series].
  rewrite series_gm_unfold, tail_map, map_map.
  set (kept := filter (fun k => negb (isnan (gm_pct (gm_entry (ledger dfs) k))))
                 (gm_index (ledger dfs))).
  assert (Hs : StronglySorted before kept)
    by (apply StronglySorted_filter, frame_index_sorted).
  assert (Hfd : forall k, In k kept -> k = first_day (period_of k)).
  { intros k Hk. apply filter_In in Hk. now apply (gm_index_first_day dfs). }
  destruct (tail_most_recent_periods HN Hs Hfd) as [H1 [H2 [H3 H4]]].
  exists (map period_of (tail N kept)).
  assert (Hm : forall p, In p (map period_of (tail N kept)) -> has_margin dfs p = true).
  { intros p Hp. now apply gm_kept_In, H3. }
  split; [|split; [exact H1|split; [|split; [exact H2|]]]].
  - rewrite map_map. apply map_ext_in. intros k Hk.
    assert (Hp : In (period_of k) (map period_of (tail N kept))) by now apply in_map.
    pose proof (Hm _ Hp) as Hmk.
    assert (Ek : k = first_day (period_of k)).
    { destruct (tail_most_recent HN Hs) as [_ [_ [Hsub _]]]. now apply Hfd, Hsub. }
    rewrite Ek at 2. rewrite (gm_pct_kept dfs _ Hmk). reflexivity.
  - intros p Hp. apply Hm in Hp. unfold has_margin in Hp.
    apply andb_true_iff in Hp. destruct Hp as [Hnz Hq].
    apply negb_true_iff in Hq. auto.
  - intros p Hnz Hq. apply H4, gm_kept_In. unfold has_margin.
    now rewrite Hnz, Hq.
Qed.

End WithPandas.

Lemma gross_margin_trend_series_witness :
  exists ps : list Period,
    series (gross_margin_trend_pct (P := rowwise) books 2)
    = map (fun p => {| period := period_label p;
                       point_gm_pct := gm_pct_in (P := rowwise) books p |}) ps
    /\ StronglySorted earlier ps
    /\ (forall p, In p ps ->
          nonzero (revenue_in (P := rowwise) books p) = true
          /\ isnan (gm_pct_in (P := rowwise) books p) = false)
    /\ (List.length ps <= Z.to_nat 2)%nat
    /\ (forall p, nonzero (revenue_in (P := rowwise) books p) = true ->
                  isnan (gm_pct_in (P := rowwise) books p) = false ->
          In p ps
          \/ (List.length ps = Z.to_nat 2
              /\ forall p', In p' ps -> earlier p p')).
Proof.
  apply (@gross_margin_trend_series rowwise books 2). lia.
Defined.

(** the series of the sample books: April and June, the two months with
    revenue *)
Example gross_margin_trend_books :
  series (gross_margin_trend_pct (P := rowwise) books 3)
  = [ {| period := "2025-04"; point_gm_pct := (80000 / 120000 * 100)%float |};
      {| period := "2025-06"; point_gm_pct := (90000 / 140000 * 100)%float |} ].
Proof. vm_compute. reflexivity. Qed.

(** C4, as stated, fails: a window of -1 returns every period but the first,
    here one period, which is more than -1; and a period whose revenue
    leaves the range of the floats has a revenue that is not 0 and is
    dropped, its percentage being infinity over infinity. *)
Lemma trend_window_and_overflow :
  series (gross_margin_trend_pct (P := rowwise) books (-1))
  = [ {| period := "2025-06"; point_gm_pct := (90000 / 140000 * 100)%float |} ]
  /\ ~ (Z.of_nat (List.length (series (gross_margin_trend_pct (P := rowwise) books (-1))))
        <= -1)%Z
  /\ revenue_in (P := rowwise) overflowing (2025, 6)%Z = infinity
  /\ nonzero (revenue_in (P := rowwise) overflowing (2025, 6)%Z) = true
  /\ series (gross_margin_trend_pct (P := rowwise) overflowing 1) = [].
Proof.
  split; [vm_compute; reflexivity|].
  split; [intros H; vm_compute in H; now apply H|].
  split; [vm_compute; reflexivity|]. split; vm_compute; reflexivity.
Qed.

End TrendFacts.

Module RunwayFacts.
Import Text Py Frame Tools Spec SpecMore.
Import FloatFacts FrameFacts ToolsFacts SeriesFacts TrendFacts Unfolded.
Local Open Scope string_scope.

Lemma tail_nil_inv {A : Type} (n : Z) (l : list A) :
  (0 < n)%Z -> tail n l = [] -> l = [].
Proof.
  intros Hn Ht. destruct (@tail_suffix A n l) as [pre [_ Hlen]]; [lia|].
  rewrite Ht in Hlen. simpl in Hlen. destruct l; [reflexivity|]. simpl in Hlen. lia.
Qed.

Lemma flat_map_map {A B C : Type} (f : B -> list C) (g : A -> B) (l : list A) :
  flat_map f (map g l) = flat_map (fun x => f (g x)) l.
Proof. induction l as [|a l IH]; simpl; [reflexivity|]. now rewrite IH. Qed.

(** truncating the date of a cash row to its month changes neither its
    period nor the amounts it stands for *)
Lemma usd_amounts_truncate (fx : list fx_row) (c : cash_row) :
  usd_amounts fx (truncate_cash c) = usd_amounts fx c.
Proof. reflexivity. Qed.

Section WithPandas.
Context {P : Pandas}.

Lemma ebitda_months_In (dfs : datasets) (k : Timestamp) :
  In k (ebitda_months (ledger dfs)) <->
  exists r, In r (actuals dfs) /\ categorized (account r) = true
            /\ k = first_day (period_of (row_date r)).
Proof.
  unfold ebitda_months, ledger, categorized. rewrite frame_index_In. split.
  - intros [s [[<-|[<-|[<-|[]]]] Hk]].
    + apply (monthly_keys is_revenue revenue_label _ _ k is_revenue_label) in Hk.
      destruct Hk as [r [Hr [Hl ->]]]. exists r. rewrite Hl. auto.
    + apply (monthly_keys is_cogs cogs_label _ _ k is_cogs_label) in Hk.
      destruct Hk as [r [Hr [Hl ->]]]. exists r. rewrite Hl, orb_true_r. auto.
    + apply (monthly_keys is_opex opex_label _ _ k is_opex_label) in Hk.
      destruct Hk as [r [Hr [Hl ->]]]. exists r. rewrite Hl, orb_true_r. auto.
  - intros [r [Hr [Hl ->]]]. apply orb_true_iff in Hl.
    destruct Hl as [Hl|Hl]; [apply orb_true_iff in Hl; destruct Hl as [Hl|Hl]|].
    + exists (monthly is_revenue (_normalize_accounts (_merge_fx (actuals dfs) (fx dfs)))).
      split; [now left|].
      apply (monthly_keys is_revenue revenue_label _ _ _ is_revenue_label). eauto.
    + exists (monthly is_cogs (_normalize_accounts (_merge_fx (actuals dfs) (fx dfs)))).
      split; [right; now left|].
      apply (monthly_keys is_cogs cogs_label _ _ _ is_cogs_label). eauto.
    + exists (monthly is_opex (_normalize_accounts (_merge_fx (actuals dfs) (fx dfs)))).
      split; [right; right; now left|].
      apply (monthly_keys is_opex opex_label _ _ _ is_opex_label). eauto.
Qed.

Lemma ebitda_months_first_day (dfs : datasets) (k : Timestamp) :
  In k (ebitda_months (ledger dfs)) -> k = first_day (period_of k).
Proof.
  intros Hk. apply ebitda_months_In in Hk. destruct Hk as [r [_ [_ ->]]].
  now rewrite first_day_period.
Qed.

Lemma ebitda_months_period (dfs : datasets) (p : Period) :
  In (first_day p) (ebitda_months (ledger dfs)) <-> ebitda_period dfs p.
Proof.
  rewrite ebitda_months_In. unfold ebitda_period. split.
  - intros [r [Hr [Hl E]]]. exists r. split; [exact Hr|]. split; [exact Hl|].
    apply (f_equal period_of) in E. now rewrite !first_day_period in E.
  - intros [r [Hr [Hl <-]]]. eauto.
Qed.

(** the EBITDA series, row by row *)
Lemma series_ebitda_unfold (dfa : list normalized) :
  _series_ebitda dfa
  = map (fun k =>
           let revenue := column ts_compare (monthly is_revenue dfa) k in
           let cogs := column ts_compare (monthly is_cogs dfa) k in
           let opex := column ts_compare (monthly is_opex dfa) k in
           {| e_ym := k; e_revenue := revenue; e_cogs := cogs; e_opex := opex;
              ebitda := (revenue - cogs - opex)%float |})
      (ebitda_months dfa).
Proof. reflexivity. Qed.

(** the EBITDA the series holds for a period *)
Lemma ebitda_column (dfs : datasets) (p : Period) :
  (column ts_compare (monthly is_revenue (ledger dfs)) (first_day p)
   - column ts_compare (monthly is_cogs (ledger dfs)) (first_day p)
   - column ts_compare (monthly is_opex (ledger dfs)) (first_day p))%float
  = ebitda_in dfs p.
Proof.
  unfold ledger.
  rewrite (monthly_column is_revenue revenue_label _ _ p is_revenue_label).
  rewrite (monthly_column is_cogs cogs_label _ _ p is_cogs_label).
  rewrite (monthly_column is_opex opex_label _ _ p is_opex_label).
  reflexivity.
Qed.

(** the trailing EBITDA values, by period *)
Lemma trailing_ebitda (dfs : datasets) (n : Z) :
  map ebitda (tail n (_series_ebitda (ledger dfs)))
  = map (ebitda_in dfs) (map period_of (tail n (ebitda_months (ledger dfs)))).
Proof.
  rewrite series_ebitda_unfold, tail_map, !map_map. apply map_ext_in.
  intros k Hk. cbn [ebitda].
  assert (Hin : In k (ebitda_months (ledger dfs))) by exact (tail_In _ _ _ Hk).
  rewrite (ebitda_months_first_day dfs k Hin) at 1 2 3.
  apply ebitda_column.
Qed.

(** the cash of a month, as the grouped frame holds it *)
Lemma cash_group (dfs : datasets) (p : Period) :
  group ts_compare (first_day p)
    (map (fun m => (date m, amount_usd m)) (cash_ledger dfs))
  = cash_amounts dfs p.
Proof.
  unfold group, cash_ledger, cash_amounts.
  rewrite filter_map_swap, map_map. cbn [fst snd].
  rewrite (@merged_select _ _
             (fun m => key_eqb ts_compare (first_day p) (date m))
             (fun c => period_eqb (period_of (cash_date c)) p)).
  - rewrite filter_map_swap, flat_map_map. reflexivity.
  - intros c m _ Hm. apply merge_row_src in Hm. destruct Hm as [_ [-> _]].
    change (key_eqb ts_compare) with ts_eqb. rewrite ts_eqb_sym.
    now rewrite ts_eqb_first_day.
Qed.

Lemma cash_dates_In (dfs : datasets) (k : Timestamp) :
  In k (map date (cash_ledger dfs)) <->
  exists c, In c (cash dfs) /\ k = first_day (period_of (cash_date c)).
Proof.
  unfold cash_ledger. rewrite in_map_iff. split.
  - intros [m [<- Hm]]. apply merge_fx_In in Hm. destruct Hm as [c' [Hc' Hm]].
    apply in_map_iff in Hc'. destruct Hc' as [c [<- Hc]].
    apply merge_row_src in Hm. destruct Hm as [_ [-> _]]. exists c. auto.
  - intros [c [Hc ->]].
    destruct (merge_row_nonempty (fx dfs) (truncate_cash c)) as [m Hm].
    exists m. split.
    + apply merge_row_src in Hm. now destruct Hm as [_ [-> _]].
    + apply merge_fx_In. exists (truncate_cash c). split; [now apply in_map|exact Hm].
Qed.

(** the latest cash total is the cash of the latest period of the cash data *)
Lemma latest_total_cash (dfs : datasets) :
  let s := groupby_sum ts_compare
             (map (fun m => (date m, amount_usd m)) (cash_ledger dfs)) in
  (cash dfs = [] -> latest_total s = 0%float)
  /\ (forall p, latest_cash_period dfs p -> latest_total s = cash_in dfs p).
Proof.
  intros s. unfold latest_total, s, groupby_sum. rewrite tail_map.
  set (rows := map (fun m => (date m, amount_usd m)) (cash_ledger dfs)).
  assert (Hdates : map fst rows = map date (cash_ledger dfs))
    by (unfold rows; rewrite map_map; reflexivity).
  set (keys := sorted_keys ts_compare (map fst rows)).
  assert (Hs : StronglySorted before keys)
    by apply (sorted_keys_sorted ts_compare ts_compare_eq ts_compare_opp ts_compare_trans).
  assert (Hin : forall k, In k keys <->
                  exists c, In c (cash dfs) /\ k = first_day (period_of (cash_date c))).
  { intros k. unfold keys. rewrite (sorted_keys_In ts_compare ts_compare_eq).
    rewrite Hdates. apply cash_dates_In. }
  destruct (@tail_most_recent 1 keys) as [_ [Hlen [Hsub Hrec]]]; [lia|assumption|].
  split.
  - intros Hc. unfold keys, rows, cash_ledger. rewrite Hc. reflexivity.
  - intros p [[c [Hc Hp]] Hmax].
    assert (Hk : In (first_day p) keys) by (apply Hin; exists c; now rewrite Hp).
    destruct (tail 1 keys) as [|x rest] eqn:E.
    + apply tail_nil_inv in E; [|lia]. rewrite E in Hk. contradiction.
    + cbn [map]. fold rows.
      assert (Hx : In x keys) by (apply Hsub; now left).
      apply (proj1 (Hin x)) in Hx. destruct Hx as [c' [Hc' Hx]].
      assert (Epx : x = first_day p).
      { destruct (Hrec _ Hk) as [[Hxp|Hr]|[_ Hb]].
        - exact Hxp.
        - simpl in Hlen. destruct rest; [contradiction|simpl in Hlen; lia].
        - exfalso. specialize (Hb x (or_introl eq_refl)).
          rewrite Hx in Hb. apply before_first_day in Hb.
          destruct (Hmax c' Hc') as [E'|Hlt].
          + rewrite E' in Hb. exact (earlier_irrefl Hb).
          + exact (earlier_irrefl (earlier_trans Hb Hlt)). }
      rewrite Epx. unfold rows. rewrite cash_group. reflexivity.
Qed.

Lemma cash_runway_none (dfs : datasets) :
  tail 3 (ebitda_months (ledger dfs)) = [] -> cash_runway_months dfs = None.
Proof.
  intros E. unfold cash_runway_months. fold (ledger dfs).
  now rewrite series_ebitda_unfold, tail_map, E.
Qed.

(** the numbers of the result, once the trailing months are known *)
Lemma cash_runway_fields (dfs : datasets) :
  tail 3 (ebitda_months (ledger dfs)) <> [] ->
  let ps := map period_of (tail 3 (ebitda_months (ledger dfs))) in
  let avg_burn := (- series_mean (map (ebitda_in dfs) ps))%float in
  let cash_usd :=
    latest_total (groupby_sum ts_compare
                    (map (fun m => (date m, amount_usd m)) (cash_ledger dfs))) in
  exists fig,
    cash_runway_months dfs
    = Some {| months := if (avg_burn <=? 0)%float then infinity
                        else (cash_usd / avg_burn)%float;
              cash_usd := cash_usd; avg_burn_usd := avg_burn;
              cr_chart := fig |}.
Proof.
  intros Hne ps avg_burn cash_usd.
  pose proof (trailing_ebitda dfs 3) as Ht. fold ps in Ht.
  unfold cash_runway_months. fold (ledger dfs). fold (cash_ledger dfs).
  destruct (tail 3 (_series_ebitda (ledger dfs))) as [|e es] eqn:E.
  - exfalso. apply Hne. rewrite series_ebitda_unfold, tail_map in E.
    now apply map_eq_nil in E.
  - rewrite Ht. eexists. reflexivity.
Qed.

End WithPandas.

End RunwayFacts.

Module RunwayTheorems.
Import Text Py Frame Tools Spec SpecMore Samples.
Import FloatFacts FrameFacts ToolsFacts SeriesFacts TrendFacts RunwayFacts Unfolded.
Local Open Scope string_scope.

(** C1, as stated, fails: with a burn of 100 a month and an empty bank
    account the runway is 0 months, which is not positive. *)
Lemma runway_not_positive :
  exists res,
    cash_runway_months (P := rowwise) broke = Some res
    /\ avg_burn_usd res = 100%float
    /\ cash_usd res = 0%float
    /\ months res = 0%float
    /\ (0 <? months res)%float = false.
Proof.
  eexists. split; [vm_compute; reflexivity|]. repeat split.
Qed.

Section WithPandas.
Context {P : Pandas}.

(** C1, as amended: no result when no period has a row that counts towards
    EBITDA; otherwise the trailing periods are the (at most three) most
    recent of those periods, the average burn is minus the mean of their
    EBITDA (revenue - cogs - opex, each a monthly total in USD), the cash is
    the total of the latest period of the cash data (0.0 without cash data),
    and the runway is the float infinity when the mean EBITDA is at least 0,
    which is when the burn is at most 0, and cash / burn otherwise, whatever
    its sign. *)
Theorem cash_runway_estimate (dfs : datasets) :
  match cash_runway_months dfs with
  | None => forall p, ~ ebitda_period dfs p
  | Some res =>
      exists ps : list Period,
        ps <> []
        /\ StronglySorted earlier ps /\ (List.length ps <= 3)%nat
        /\ (forall p, In p ps -> ebitda_period dfs p)
        /\ (forall p, ebitda_period dfs p ->
              In p ps
              \/ (List.length ps = 3%nat /\ forall p', In p' ps -> earlier p p'))
        /\ avg_burn_usd res = (- series_mean (map (ebitda_in dfs) ps))%float
        /\ (cash dfs = [] -> cash_usd res = 0%float)
        /\ (forall p, latest_cash_period dfs p -> cash_usd res = cash_in dfs p)
        /\ (avg_burn_usd res <=? 0)%float
           = (0 <=? series_mean (map (ebitda_in dfs) ps))%float
        /\ months res
           = if (0 <=? series_mean (map (ebitda_in dfs) ps))%float
             then infinity
             else (cash_usd res / avg_burn_usd res)%float
  end.
Proof.
  assert (Hs : StronglySorted before (ebitda_months (ledger dfs)))
    by apply frame_index_sorted.
  destruct (@tail_most_recent_periods 3 _ ltac:(lia) Hs (ebitda_months_first_day dfs))
    as [H1 [H2 [H3 H4]]].
  destruct (tail 3 (ebitda_months (ledger dfs))) as [|k ks] eqn:E.
  - rewrite (cash_runway_none dfs E). intros p Hp. apply ebitda_months_period in Hp.
    apply tail_nil_inv in E; [|lia]. rewrite E in Hp. contradiction.
  - destruct (cash_runway_fields dfs) as [fig ->]; [rewrite E; discriminate|].
    rewrite E in *.
    exists (map period_of (k :: ks)). cbn [months cash_usd avg_burn_usd].
    split; [discriminate|]. split; [exact H1|]. split; [exact H2|].
    split; [intros p Hp; now apply ebitda_months_period, H3|].
    split; [intros p Hp; now apply H4, ebitda_months_period|].
    split; [reflexivity|].
    destruct (latest_total_cash dfs) as [Hc0 Hc1].
    split; [exact Hc0|]. split; [exact Hc1|].
    split; [apply opp_leb_zero|]. now rewrite opp_leb_zero.
Qed.

End WithPandas.

End RunwayTheorems.

(* ================================================================== *)
(** ** The matcher finds what the pattern matches *)

Module ReFacts.
Import Text Re ReSpec.

Lemma last_char_app (prev : option ascii) (w1 w2 : list ascii) :
  last_char prev (w1 ++ w2) = last_char (last_char prev w1) w2.
Proof. unfold last_char. apply fold_left_app. Qed.

Lemma firstn_consumed (w rest : list ascii) :
  firstn (List.length (w ++ rest) - List.length rest) (w ++ rest) = w.
Proof.
  rewrite length_app, Nat.add_sub.
  rewrite firstn_app, Nat.sub_diag, firstn_all. simpl. apply app_nil_r.
Qed.

Section Sound.
Variable res : caps.

Lemma star_loop_sound body P (k : cont) :
  sound_on res body P ->
  forall n prev s c,
    star_loop body k n prev s c = Some res ->
    exists w rest c', s = w ++ rest /\ star_match P prev w rest c c'
                      /\ k (last_char prev w) rest c' = Some res.
Proof.
  intros Hbody. induction n as [|n IH]; intros prev s c; simpl.
  - intros Hk. exists [], s, c. repeat split; [constructor|exact Hk].
  - destruct (body prev s c _) as [m|] eqn:E.
    + intros [= ->]. apply Hbody in E.
      destruct E as [w1 [rest1 [c1 [Hs [Hm Hk]]]]].
      destruct (List.length rest1 <? List.length s)%nat eqn:Hlt; [|discriminate].
      apply IH in Hk. destruct Hk as [w2 [rest [c2 [Hs2 [Hstar Hk]]]]].
      exists (w1 ++ w2), rest, c2. subst rest1. split; [now rewrite <- app_assoc|].
      split.
      * econstructor; try eassumption.
        intros ->. simpl in Hs. subst s. apply Nat.ltb_lt in Hlt. lia.
      * now rewrite last_char_app.
    + intros Hk. exists [], s, c. repeat split; [constructor|exact Hk].
Qed.

Lemma run_sound (r : regex) : sound_on res (run r) (matches r).
Proof.
  unfold sound_on. induction r as [|p|r1 IH1 r2 IH2|r1 IH1 r2 IH2|r1 IH1|i r1 IH1|];
    intros prev s c k; simpl.
  - intros Hk. exists [], s, c. auto.
  - destruct s as [|a s']; [discriminate|].
    destruct (p a) eqn:Ep; [|discriminate].
    intros Hk. exists [a], s', c. repeat split; eauto.
  - intros H1. apply IH1 in H1. destruct H1 as [w1 [rest1 [c1 [-> [Hm1 H2]]]]].
    apply IH2 in H2. destruct H2 as [w2 [rest [c2 [-> [Hm2 Hk]]]]].
    exists (w1 ++ w2), rest, c2. split; [now rewrite app_assoc|]. split.
    + exists w1, w2, c1. auto.
    + now rewrite last_char_app.
  - destruct (run r1 prev s c k) as [m|] eqn:E.
    + intros [= ->]. apply IH1 in E. destruct E as [w [rest [c' [? [? ?]]]]].
      exists w, rest, c'. auto.
    + intros E2. apply IH2 in E2. destruct E2 as [w [rest [c' [? [? ?]]]]].
      exists w, rest, c'. auto.
  - apply star_loop_sound. exact IH1.
  - intros H1. apply IH1 in H1. destruct H1 as [w [rest [c1 [-> [Hm Hk]]]]].
    rewrite firstn_consumed in Hk.
    exists w, rest, ((i, w) :: c1). repeat split; eauto.
  - destruct (boundary prev s) eqn:Eb; [|discriminate].
    intros Hk. exists [], s, c. auto.
Qed.

End Sound.

Lemma star_loop_complete body P (k : cont) :
  complete_on body P ->
  forall prev w rest c c',
    star_match P prev w rest c c' ->
    k (last_char prev w) rest c' <> None ->
    forall n, (List.length (w ++ rest) <= n)%nat ->
              star_loop body k n prev (w ++ rest) c <> None.
Proof.
  intros Hbody prev w rest c c' Hstar.
  induction Hstar as [prev rest c|prev w1 w2 rest c c1 c2 Hne Hm Hstar IH];
    intros Hk n Hn.
  - simpl in *. destruct n as [|n]; simpl; [exact Hk|].
    destruct (body prev rest c _); [discriminate|exact Hk].
  - destruct n as [|n].
    + exfalso. destruct w1; [now apply Hne|]. simpl in Hn. lia.
    + simpl. rewrite <- app_assoc.
      match goal with
      | |- match body prev _ c ?k' with _ => _ end <> None =>
          assert (Hb : body prev (w1 ++ w2 ++ rest) c k' <> None)
      end.
      { apply (Hbody prev w1 (w2 ++ rest) c c1); [exact Hm|].
        assert (Hlt : (List.length (w2 ++ rest) <? List.length (w1 ++ w2 ++ rest))%nat = true).
        { apply Nat.ltb_lt. rewrite (length_app w1). destruct w1; [now contradiction Hne|].
          simpl. lia. }
        rewrite Hlt. apply IH.
        - now rewrite <- last_char_app.
        - rewrite <- app_assoc, (length_app w1) in Hn.
          destruct w1; [now contradiction Hne|]. simpl in Hn. lia. }
      destruct (body prev (w1 ++ w2 ++ rest) c _); [discriminate|]. now contradiction Hb.
Qed.

Lemma run_complete (r : regex) : complete_on (run r) (matches r).
Proof.
  unfold complete_on.
  induction r as [|p|r1 IH1 r2 IH2|r1 IH1 r2 IH2|r1 IH1|i r1 IH1|];
    intros prev w rest c c' k; simpl.
  - intros [-> ->]. auto.
  - intros [a [-> [Hp ->]]]. simpl. now rewrite Hp.
  - intros [w1 [w2 [c1 [-> [H1 H2]]]]] Hk. rewrite <- app_assoc.
    apply (IH1 prev w1 (w2 ++ rest) c c1); [exact H1|].
    apply (IH2 _ w2 rest c1 c'); [exact H2|]. now rewrite <- last_char_app.
  - intros [H1|H2] Hk.
    + pose proof (IH1 prev w rest c c' k H1 Hk) as Hr.
      destruct (run r1 prev (w ++ rest) c k); [discriminate|now contradiction Hr].
    + destruct (run r1 prev (w ++ rest) c k); [discriminate|].
      now apply (IH2 prev w rest c c').
  - intros Hstar Hk. eapply star_loop_complete; eauto.
  - intros [c1 [H1 ->]] Hk.
    apply (IH1 prev w rest c c1); [exact H1|]. now rewrite firstn_consumed.
  - intros [-> [-> Hb]] Hk. simpl in *. now rewrite Hb.
Qed.

(** [re.search] reports a match of the pattern, at the leftmost position
    that has one. *)
Lemma search_from_sound (r : regex) (s : list ascii) (pre0 : list ascii) (m : caps) :
  search_from r (last_char None pre0) s = Some m ->
  exists pre w rest,
    s = pre ++ w ++ rest
    /\ matches r (last_char None (pre0 ++ pre)) w rest [] m
    /\ forall pre' w' rest' m',
         s = pre' ++ w' ++ rest' ->
         matches r (last_char None (pre0 ++ pre')) w' rest' [] m' ->
         (List.length pre <= List.length pre')%nat.
Proof.
  revert pre0. induction s as [|a s IH]; intros pre0; simpl.
  - destruct (run r (last_char None pre0) [] [] accept) as [m0|] eqn:E; [|discriminate].
    intros [= ->]. apply run_sound in E. destruct E as [w [rest [c' [Hs [Hm Hk]]]]].
    injection Hk as ->. exists [], w, rest. rewrite app_nil_r. simpl.
    repeat split; auto. intros. lia.
  - destruct (run r (last_char None pre0) (a :: s) [] accept) as [m0|] eqn:E.
    + intros [= ->]. apply run_sound in E. destruct E as [w [rest [c' [Hs [Hm Hk]]]]].
      injection Hk as ->. exists [], w, rest. rewrite app_nil_r. simpl.
      repeat split; auto. intros. lia.
    + intros Hs.
      replace (Some a) with (last_char None (pre0 ++ [a])) in Hs
        by (rewrite last_char_app; reflexivity).
      apply IH in Hs. destruct Hs as [pre [w [rest [-> [Hm Hleft]]]]].
      exists (a :: pre), w, rest. split; [reflexivity|]. split.
      * now rewrite <- app_assoc in Hm.
      * intros pre' w' rest' m' Hs' Hm'. destruct pre' as [|b pre'].
        -- exfalso. simpl in Hs'. rewrite app_nil_r in Hm'.
           pose proof (@run_complete r (last_char None pre0) w' rest' [] m' accept Hm') as Hc.
           rewrite <- Hs' in Hc. rewrite E in Hc. apply Hc; [discriminate|reflexivity].
        -- simpl in Hs'. injection Hs' as <- Hs'. simpl.
           apply le_n_S. apply (Hleft pre' w' rest' m' Hs').
           now rewrite <- app_assoc.
Qed.

Lemma search_from_complete (r : regex) (s : list ascii) (pre0 : list ascii) :
  search_from r (last_char None pre0) s = None ->
  forall pre w rest m,
    s = pre ++ w ++ rest ->
    ~ matches r (last_char None (pre0 ++ pre)) w rest [] m.
Proof.
  revert pre0. induction s as [|a s IH]; intros pre0; simpl.
  - destruct (run r (last_char None pre0) [] [] accept) as [m0|] eqn:E; [discriminate|].
    intros _ pre w rest m Hs Hm. destruct pre; [|discriminate].
    simpl in Hs. rewrite app_nil_r in Hm.
    pose proof (@run_complete r (last_char None pre0) w rest [] m accept Hm) as Hc.
    rewrite <- Hs, E in Hc. apply Hc; [discriminate|reflexivity].
  - destruct (run r (last_char None pre0) (a :: s) [] accept) as [m0|] eqn:E; [discriminate|].
    intros Hs pre w rest m Hdec Hm. destruct pre as [|b pre].
    + simpl in Hdec. rewrite app_nil_r in Hm.
      pose proof (@run_complete r (last_char None pre0) w rest [] m accept Hm) as Hc.
      rewrite <- Hdec, E in Hc. apply Hc; [discriminate|reflexivity].
    + simpl in Hdec. injection Hdec as <- Hdec.
      replace (Some a) with (last_char None (pre0 ++ [a])) in Hs
        by (rewrite last_char_app; reflexivity).
      apply (IH _ Hs pre w rest m Hdec). now rewrite <- app_assoc.
Qed.

(** [re.search] finds a match of the pattern, the leftmost one *)
Lemma search_Some (r : regex) (text : string) (m : caps) :
  search r text = Some m ->
  exists pre w rest,
    matches_at r (chars text) pre w rest m
    /\ forall pre' w' rest' m',
         matches_at r (chars text) pre' w' rest' m' ->
         (List.length pre <= List.length pre')%nat.
Proof.
  unfold search. intros Hs.
  apply (search_from_sound r (chars text) []) in Hs.
  destruct Hs as [pre [w [rest [Hdec [Hm Hleft]]]]].
  exists pre, w, rest. split; [split; assumption|].
  intros pre' w' rest' m' [Hdec' Hm']. eapply Hleft; eauto.
Qed.

(** [re.search] finds nothing only when the pattern matches nowhere *)
Lemma search_None (r : regex) (text : string) :
  search r text = None ->
  forall pre w rest m, ~ matches_at r (chars text) pre w rest m.
Proof.
  unfold search. intros Hs pre w rest m [Hdec Hm].
  exact (@search_from_complete r (chars text) [] Hs pre w rest m Hdec Hm).
Qed.

End ReFacts.

Module PatternFacts.
Import Text Re ReSpec ReFacts.

Lemma star_cls (p : ascii -> bool) prev w rest c c' :
  star_match (matches (Cls p)) prev w rest c c'
  <-> Forall (fun a => p a = true) w /\ c' = c.
Proof.
  split.
  - induction 1 as [|prev w1 w2 rest c c1 c2 _ [a [-> [Hp ->]]] _ [IH ->]]; auto.
    split; [constructor; assumption|reflexivity].
  - intros [Hall ->]. revert prev.
    induction Hall as [|a w Hp _ IH]; intros prev; [constructor|].
    apply (@star_step _ prev [a] w rest c c c); [discriminate| |apply IH].
    exists a. auto.
Qed.

Lemma matches_plus_cls (p : ascii -> bool) prev w rest c c' :
  matches (plus (Cls p)) prev w rest c c'
  <-> w <> [] /\ Forall (fun a => p a = true) w /\ c' = c.
Proof.
  unfold plus. cbn [matches]. split.
  - intros [w1 [w2 [c1 [-> [[a [-> [Hp ->]]] Hs]]]]]. apply star_cls in Hs.
    destruct Hs as [Hall ->]. split; [discriminate|]. split; [|reflexivity].
    constructor; assumption.
  - intros [Hne [Hall ->]]. destruct w as [|a w]; [now contradiction Hne|].
    inversion Hall; subst. exists [a], w, c. split; [reflexivity|]. split.
    + exists a. auto.
    + apply star_cls. auto.
Qed.

Lemma matches_seq_of (f : ascii -> regex) (q : ascii -> ascii -> bool)
  (l : list ascii) prev w rest c c' :
  (forall a, f a = Cls (q a)) ->
  matches (seq_of f l) prev w rest c c'
  <-> Forall2 (fun a b => q a b = true) l w /\ c' = c.
Proof.
  intros Hf. revert prev w c c'.
  induction l as [|a l IH]; intros prev w c c'.
  - simpl. split.
    + intros [-> ->]. auto.
    + intros [Hall ->]. inversion Hall. auto.
  - assert (Hone : matches (f a) prev w rest c c'
                   <-> Forall2 (fun a b => q a b = true) [a] w /\ c' = c).
    { rewrite Hf. simpl. split.
      - intros [b [-> [Hq ->]]]. auto.
      - intros [Hall ->]. inversion Hall as [|? b ? ? Hq Hnil]; subst.
        inversion Hnil; subst. exists b. auto. }
    destruct l as [|a' l]; [exact Hone|].
    change (seq_of f (a :: a' :: l)) with (Seq (f a) (seq_of f (a' :: l))).
    cbn [matches]. rewrite Hf. split.
    + intros [w1 [w2 [c1 [-> [[b [-> [Hq ->]]] H2]]]]].
      apply IH in H2. destruct H2 as [Hall ->]. simpl. auto.
    + intros [Hall ->]. inversion Hall as [|? b ? w2 Hq Hrest]; subst.
      exists [b], w2, c. split; [reflexivity|]. split.
      * exists b. auto.
      * apply IH. auto.
Qed.

(** a literal matches its own characters *)
Lemma matches_lit (s : string) prev w rest c c' :
  matches (lit s) prev w rest c c' <-> w = chars s /\ c' = c.
Proof.
  unfold lit. rewrite (@matches_seq_of chr Ascii.eqb); [|reflexivity].
  split; intros [Hall ->]; split; auto.
  - induction Hall as [|a b l w Hab _ IH]; [reflexivity|].
    apply Ascii.eqb_eq in Hab. congruence.
  - subst w. induction (chars s); constructor; auto. apply Ascii.eqb_refl.
Qed.

(** under [re.I], a literal matches its characters in either case *)
Lemma matches_lit_i (s : string) prev w rest c c' :
  matches (lit_i s) prev w rest c c'
  <-> map lower_char w = map lower_char (chars s) /\ c' = c.
Proof.
  unfold lit_i.
  rewrite (@matches_seq_of chr_i (fun a b => Ascii.eqb (lower_char a) (lower_char b)));
    [|reflexivity].
  split; intros [Hall ->]; split; auto.
  - induction Hall as [|a b l w Hab _ IH]; [reflexivity|].
    apply Ascii.eqb_eq in Hab. simpl. congruence.
  - revert w Hall. induction (chars s) as [|a l IH]; intros [|b w] Hall;
      try discriminate; constructor.
    + simpl in Hall. apply Ascii.eqb_eq. congruence.
    + apply IH. simpl in Hall. congruence.
Qed.

Lemma matches_opt (r : regex) prev w rest c c' :
  matches (opt r) prev w rest c c'
  <-> matches r prev w rest c c' \/ (w = [] /\ c' = c).
Proof. reflexivity. Qed.

Lemma matches_seq (r1 r2 : regex) prev w rest c c' :
  matches (Seq r1 r2) prev w rest c c'
  <-> exists w1 w2 c1,
        w = w1 ++ w2
        /\ matches r1 prev w1 (w2 ++ rest) c c1
        /\ matches r2 (last_char prev w1) w2 rest c1 c'.
Proof. reflexivity. Qed.

Lemma matches_grp (i : nat) (r : regex) prev w rest c c' :
  matches (Grp i r) prev w rest c c'
  <-> exists c1, matches r prev w rest c c1 /\ c' = (i, w) :: c1.
Proof. reflexivity. Qed.

End PatternFacts.

(* ================================================================== *)
(** ** The trailing window *)

Module WindowFacts.
Import Text Py Re Planner Spec Samples ReSpec ReFacts PatternFacts.

Lemma matches_digits12 prev w rest c c' :
  matches digits12_re prev w rest c c' <-> number12 w /\ c' = c.
Proof.
  unfold digits12_re, digit, number12. rewrite matches_seq. split.
  - intros [w1 [w2 [c1 [-> [[a [-> [Ha ->]]] H2]]]]]. apply matches_opt in H2.
    destruct H2 as [[b [-> [Hb ->]]]|[-> ->]]; simpl; repeat split; auto; lia.
  - intros [[[Hlo Hhi] Hall] ->]. destruct w as [|a [|b [|x w]]]; cbn [List.length] in *; try lia.
    + inversion Hall; subst. exists [a], [], c.
      split; [reflexivity|]. split; [exists a; auto|].
      apply matches_opt. right. auto.
    + inversion Hall as [|? ? Ha Hall']; subst. inversion Hall'; subst.
      exists [a], [b], c.
      split; [reflexivity|]. split; [exists a; auto|].
      apply matches_opt. left. exists b. auto.
Qed.

Lemma matches_blanks prev w rest c c' :
  matches (plus space) prev w rest c c' <-> blanks w /\ c' = c.
Proof. unfold space, blanks. rewrite matches_plus_cls. tauto. Qed.

(** what [window_re] matches *)
Lemma matches_window prev w rest c c' :
  matches window_re prev w rest c c'
  <-> exists l ws1 ds ws2 mo tl,
        w = l ++ ws1 ++ ds ++ ws2 ++ mo ++ tl
        /\ spells l "last" /\ blanks ws1 /\ number12 ds /\ blanks ws2
        /\ spells mo "month" /\ (spells tl "s" \/ tl = [])
        /\ c' = (1%nat, ds) :: c.
Proof.
  unfold window_re, seqs. split.
  - intros H.
    apply matches_seq in H. destruct H as [l [x1 [c1 [-> [Hl H]]]]].
    apply matches_seq in H. destruct H as [ws1 [x2 [c2 [-> [Hw1 H]]]]].
    apply matches_seq in H. destruct H as [ds [x3 [c3 [-> [Hd H]]]]].
    apply matches_seq in H. destruct H as [ws2 [x4 [c4 [-> [Hw2 H]]]]].
    apply matches_seq in H. destruct H as [mo [tl [c5 [-> [Hm Ht]]]]].
    apply matches_lit_i in Hl. destruct Hl as [Hl ->].
    apply matches_blanks in Hw1. destruct Hw1 as [Hw1 ->].
    apply matches_grp in Hd. destruct Hd as [c0 [Hd ->]].
    apply matches_digits12 in Hd. destruct Hd as [Hd ->].
    apply matches_blanks in Hw2. destruct Hw2 as [Hw2 ->].
    apply matches_lit_i in Hm. destruct Hm as [Hm ->].
    apply matches_opt in Ht.
    destruct Ht as [[a [-> [Ha ->]]]|[-> ->]];
      exists l, ws1, ds, ws2, mo; eexists;
      (split; [reflexivity|]); repeat (split; [assumption|]);
      (split; [|reflexivity]).
    + left. unfold spells. simpl. f_equal. apply Ascii.eqb_eq in Ha. now rewrite <- Ha.
    + now right.
  - intros [l [ws1 [ds [ws2 [mo [tl [-> [Hl [Hw1 [Hd [Hw2 [Hm [Ht ->]]]]]]]]]]]]].
    apply matches_seq. exists l, (ws1 ++ ds ++ ws2 ++ mo ++ tl), c.
    split; [reflexivity|]. split; [now apply matches_lit_i|].
    apply matches_seq. exists ws1, (ds ++ ws2 ++ mo ++ tl), c.
    split; [reflexivity|]. split; [now apply matches_blanks|].
    apply matches_seq. exists ds, (ws2 ++ mo ++ tl), ((1%nat, ds) :: c).
    split; [reflexivity|]. split.
    { apply matches_grp. exists c. split; [now apply matches_digits12|reflexivity]. }
    apply matches_seq. exists ws2, (mo ++ tl), ((1%nat, ds) :: c).
    split; [reflexivity|]. split; [now apply matches_blanks|].
    apply matches_seq. exists mo, tl, ((1%nat, ds) :: c).
    split; [reflexivity|]. split; [now apply matches_lit_i|].
    apply matches_opt. destruct Ht as [Ht| ->]; [left|now right].
    unfold spells in Ht. destruct tl as [|a [|b tl]]; try discriminate.
    simpl in Ht. injection Ht as Ha. exists a. repeat split.
    apply Ascii.eqb_eq. now rewrite Ha.
Qed.

Lemma phrase_of_match (t pre w rest : list ascii) (m : caps) :
  matches_at window_re t pre w rest m ->
  exists ds, window_phrase t pre ds /\ group 1 m = ds.
Proof.
  intros [Ht Hm]. apply matches_window in Hm.
  destruct Hm as [l [ws1 [ds [ws2 [mo [tl [-> [Hl [Hw1 [Hd [Hw2 [Hmo [_ ->]]]]]]]]]]]]].
  exists ds. split; [|reflexivity].
  exists l, ws1, ws2, mo, (tl ++ rest).
  split; [rewrite Ht; now rewrite <- !app_assoc|].
  repeat (split; [assumption|]). assumption.
Qed.

Lemma match_of_phrase (t pre ds : list ascii) :
  window_phrase t pre ds ->
  exists w rest m, matches_at window_re t pre w rest m.
Proof.
  intros [l [ws1 [ws2 [mo [post [Ht [Hl [Hw1 [Hd [Hw2 Hmo]]]]]]]]]].
  exists (l ++ ws1 ++ ds ++ ws2 ++ mo ++ []), post, [(1%nat, ds)]. split.
  - rewrite Ht. now rewrite <- !app_assoc.
  - apply matches_window. exists l, ws1, ds, ws2, mo, [].
    split; [reflexivity|]. repeat (split; [assumption|]). auto.
Qed.

Lemma digit_not_space (a : ascii) : is_digit a = true -> is_space a = false.
Proof.
  unfold is_digit, is_space, between. intros H.
  apply andb_true_iff in H. destruct H as [H1 H2].
  apply Nat.leb_le in H1. apply Nat.leb_le in H2.
  destruct (Nat.leb_spec 9 (code a)), (Nat.leb_spec (code a) 13),
    (Nat.leb_spec 28 (code a)), (Nat.leb_spec (code a) 31),
    (Nat.eqb_spec (code a) 32); simpl; try reflexivity; lia.
Qed.

Lemma space_not_digit (a : ascii) : is_space a = true -> is_digit a = false.
Proof.
  intros Hs. destruct (is_digit a) eqn:E; [|reflexivity].
  apply digit_not_space in E. congruence.
Qed.

(** a run of characters of a class ends where the class does *)
Lemma run_unique (p : ascii -> bool) (a a' b b' : list ascii) :
  Forall (fun x => p x = true) a -> Forall (fun x => p x = true) a' ->
  (forall x, hd_error b = Some x -> p x = false) ->
  (forall x, hd_error b' = Some x -> p x = false) ->
  a ++ b = a' ++ b' -> a = a' /\ b = b'.
Proof.
  intros Ha. revert a'. induction Ha as [|x a Hx _ IH]; intros a' Ha' Hb Hb' E.
  - destruct Ha' as [|x' a' Hx' _]; [auto|]. simpl in E. subst b.
    specialize (Hb x' eq_refl). congruence.
  - destruct Ha' as [|x' a' Hx' Ha']; simpl in E.
    + subst b'. specialize (Hb' x eq_refl). congruence.
    + injection E as -> E. destruct (IH a' Ha' Hb Hb' E) as [-> ->]. auto.
Qed.

Lemma app_same_length {A : Type} (a a' b b' : list A) :
  List.length a = List.length a' -> a ++ b = a' ++ b' -> a = a' /\ b = b'.
Proof.
  revert a'. induction a as [|x a IH]; intros [|x' a'] Hl E; try discriminate; auto.
  simpl in *. injection E as -> E. injection Hl as Hl.
  destruct (IH a' Hl E) as [-> ->]. auto.
Qed.

(** the phrase that starts at a position has one number *)
Lemma window_phrase_unique (t pre ds ds' : list ascii) :
  window_phrase t pre ds -> window_phrase t pre ds' -> ds = ds'.
Proof.
  intros [l [ws1 [ws2 [mo [post [Ht [Hl [[N1 Hw1] [[Hn Hd] [[N2 Hw2] _]]]]]]]]]]
         [l' [ws1' [ws2' [mo' [post' [Ht' [Hl' [[N1' Hw1'] [[Hn' Hd'] [[N2' Hw2'] _]]]]]]]]]].
  rewrite Ht in Ht'. apply app_inv_head in Ht'.
  apply app_same_length in Ht'.
  2:{ apply (f_equal (@List.length ascii)) in Hl, Hl'.
      rewrite !length_map in Hl, Hl'. congruence. }
  destruct Ht' as [_ E].
  apply (@run_unique is_space) in E; try assumption.
  - destruct E as [_ E].
    apply (@run_unique is_digit) in E; try assumption.
    + tauto.
    + intros x Hx. destruct ws2 as [|y ws2]; [now contradiction N2|].
      simpl in Hx. injection Hx as <-. inversion Hw2; subst. now apply space_not_digit.
    + intros x Hx. destruct ws2' as [|y ws2']; [now contradiction N2'|].
      simpl in Hx. injection Hx as <-. inversion Hw2'; subst. now apply space_not_digit.
  - intros x Hx. destruct ds as [|y ds]; [simpl in Hn; lia|].
    simpl in Hx. injection Hx as <-. inversion Hd; subst. now apply digit_not_space.
  - intros x Hx. destruct ds' as [|y ds']; [simpl in Hn'; lia|].
    simpl in Hx. injection Hx as <-. inversion Hd'; subst. now apply digit_not_space.
Qed.

Lemma prefix_same_length {A : Type} (t pre pre' x x' : list A) :
  t = pre ++ x -> t = pre' ++ x' -> List.length pre = List.length pre' -> pre = pre'.
Proof.
  intros -> E Hl. now apply (app_same_length _ _ _ _ Hl) in E.
Qed.

(** C9, as stated, fails on a text with two phrases: the phrase
    "last 7 months" is in the text and the window is 5. *)
Lemma parse_window_second_phrase :
  window_phrase (chars two_windows) (chars "last 5 months, or ") (chars "7")
  /\ int_of_digits (chars "7") = 7%Z
  /\ _parse_window two_windows 3 = 5%Z.
Proof.
  split; [|split; reflexivity].
  exists (chars "last"), (chars " "), (chars " "), (chars "month"), (chars "s").
  unfold spells, blanks, number12. simpl.
  repeat split; try discriminate; try lia; repeat constructor.
Qed.

(** the window is the number of the leftmost phrase, or the default *)
Lemma parse_window_cases (text : string) (d : Z) :
  (exists pre ds,
      window_phrase (chars text) pre ds
      /\ (forall pre' ds', window_phrase (chars text) pre' ds' ->
                           (List.length pre <= List.length pre')%nat)
      /\ (forall ds', window_phrase (chars text) pre ds' -> ds' = ds)
      /\ _parse_window text d = int_of_digits ds)
  \/ ((forall pre ds, ~ window_phrase (chars text) pre ds)
      /\ _parse_window text d = d).
Proof.
  unfold _parse_window. destruct (search window_re text) as [m|] eqn:E.
  - left. apply search_Some in E. destruct E as [pre [w [rest [Hm Hleft]]]].
    destruct (phrase_of_match Hm) as [ds [Hp Hg]].
    exists pre, ds. split; [exact Hp|]. split; [|split].
    + intros pre' ds' Hp'. destruct (match_of_phrase Hp') as [w' [rest' [m' Hm']]].
      eapply Hleft; eauto.
    + intros ds' Hp'. symmetry. eapply window_phrase_unique; eauto.
    + now rewrite Hg.
  - right. split; [|reflexivity]. intros pre ds Hp.
    destruct (match_of_phrase Hp) as [w [rest [m Hm]]].
    exact (@search_None _ _ E _ _ _ _ Hm).
Qed.

(** C9, as amended: when the text has a phrase "last N months" (in either
    case, blanks of any length, "month" or "months", N of one or two digits),
    the window is the number of the leftmost phrase; when it has none, the
    window is the default, 3 unless the caller gives another. *)
Theorem parse_window_first_phrase :
  _parse_window "last 5 months" 3 = 5%Z
  /\ _parse_window "show the gross margin trend" 3 = 3%Z
  /\ forall (text : string) (d : Z),
       (exists pre ds,
           window_phrase (chars text) pre ds
           /\ (forall pre' ds', window_phrase (chars text) pre' ds' ->
                                (List.length pre <= List.length pre')%nat)
           /\ (forall ds', window_phrase (chars text) pre ds' -> ds' = ds)
           /\ _parse_window text d = int_of_digits ds)
       \/ ((forall pre ds, ~ window_phrase (chars text) pre ds)
           /\ _parse_window text d = d).
Proof.
  split; [reflexivity|]. split; [reflexivity|]. exact parse_window_cases.
Qed.

End WindowFacts.

(* ================================================================== *)
(** ** Month and year extraction *)

Module MonthYearFacts.
Import Text Py Re ReSpec Planner Spec ReFacts PatternFacts WindowFacts.

Lemma chars_str (l : list ascii) : chars (str l) = l.
Proof. apply list_ascii_of_string_of_list_ascii. Qed.

Lemma str_chars (s : string) : str (chars s) = s.
Proof. apply string_of_list_ascii_of_string. Qed.

Lemma chars_inj (s s' : string) : chars s = chars s' -> s = s'.
Proof. intros E. rewrite <- (str_chars s), <- (str_chars s'). now rewrite E. Qed.

(** a literal followed by something *)
Lemma matches_lit_then (s : string) (r : regex) prev w rest c c' :
  matches (Seq (lit s) r) prev w rest c c'
  <-> exists w2, w = chars s ++ w2
                 /\ matches r (last_char prev (chars s)) w2 rest c c'.
Proof.
  rewrite matches_seq. split.
  - intros [w1 [w2 [c1 [-> [H1 H2]]]]]. apply matches_lit in H1.
    destruct H1 as [-> ->]. eauto.
  - intros [w2 [-> H2]]. exists (chars s), w2, c. repeat split; auto.
    now apply matches_lit.
Qed.

Lemma matches_opt_lit (s : string) prev w rest c c' :
  matches (opt (lit s)) prev w rest c c' <-> (w = chars s \/ w = []) /\ c' = c.
Proof.
  rewrite matches_opt, matches_lit. tauto.
Qed.

Lemma matches_alt (r1 r2 : regex) prev w rest c c' :
  matches (Alt r1 r2) prev w rest c c'
  <-> matches r1 prev w rest c c' \/ matches r2 prev w rest c c'.
Proof. reflexivity. Qed.

(** the twenty-four names, as the alternation reads them *)
Lemma matches_month_name prev w rest c c' :
  matches month_name_re prev w rest c c'
  <-> (exists k, month_key k /\ w = chars k) /\ c' = c.
Proof.
  unfold month_name_re, month_key. cbn [alts].
  rewrite !matches_alt, !matches_lit_then, matches_lit.
  split.
  - intros H.
    repeat match goal with
           | H : _ \/ _ |- _ => destruct H as [H|H]
           | H : exists _, _ |- _ => destruct H as [? H]
           | H : _ /\ _ |- _ => destruct H as [? H]
           | H : matches (opt (lit _)) _ _ _ _ _ |- _ => rewrite matches_opt_lit in H
           | H : matches (opt (Seq _ _)) _ _ _ _ _ |- _ =>
               rewrite matches_opt, matches_lit_then in H
           end; subst;
      (split; [|reflexivity]);
      match goal with
      | |- exists k, _ /\ ?w = chars k =>
          exists (str w); split; [vm_compute; tauto|reflexivity]
      end.
  - intros [[k [Hk ->]] ->]. simpl in Hk.
    repeat match goal with
           | H : _ \/ _ |- _ => destruct H as [H|H]
           end; try contradiction; subst k;
      repeat (first
                [ solve [ left; eexists; split; [reflexivity|];
                          first [ apply matches_opt_lit; split; [|reflexivity];
                                  first [left; reflexivity | right; reflexivity]
                                | apply matches_opt; first
                                    [ right; split; reflexivity
                                    | left; apply matches_lit_then; eexists;
                                      split; [reflexivity|]; apply matches_opt_lit;
                                      split; [|reflexivity];
                                      first [left; reflexivity | right; reflexivity] ] ] ]
                | solve [ left; split; reflexivity ]
                | solve [ eexists; split; [reflexivity|];
                          apply matches_opt_lit; split; [|reflexivity];
                          first [left; reflexivity | right; reflexivity] ]
                | right ]).
Qed.

Lemma matches_year prev w rest c c' :
  matches year_re prev w rest c c' <-> year20 w /\ c' = c.
Proof.
  unfold year_re, year20, digit. cbn [seqs]. rewrite matches_lit_then. split.
  - intros [w2 [-> H]]. apply matches_seq in H.
    destruct H as [w1 [w3 [c1 [-> [[a [-> [Ha ->]]] [b [-> [Hb ->]]]]]]]].
    split; [|reflexivity]. exists a, b. auto.
  - intros [[a [b [-> [Ha Hb]]]] ->]. exists [a; b]. split; [reflexivity|].
    apply matches_seq. exists [a], [b], c. split; [reflexivity|].
    split; [exists a; auto|exists b; auto].
Qed.

(** what [month_year_re] matches, and what its groups hold *)
Lemma matches_month_year prev w rest c c' :
  matches month_year_re prev w rest c c'
  <-> exists k ws ds,
        w = chars k ++ ws ++ ds
        /\ month_key k /\ blanks ws /\ year20 ds
        /\ c' = (2%nat, ds) :: (1%nat, chars k) :: c.
Proof.
  unfold month_year_re. cbn [seqs]. split.
  - intros H.
    apply matches_seq in H. destruct H as [w1 [x1 [c1 [-> [H1 H]]]]].
    apply matches_seq in H. destruct H as [ws [ds [c2 [-> [H2 H3]]]]].
    apply matches_grp in H1. destruct H1 as [c0 [H1 ->]].
    apply matches_month_name in H1. destruct H1 as [[k [Hk ->]] ->].
    apply matches_blanks in H2. destruct H2 as [H2 ->].
    apply matches_grp in H3. destruct H3 as [c3 [H3 ->]].
    apply matches_year in H3. destruct H3 as [H3 ->].
    exists k, ws, ds. auto.
  - intros [k [ws [ds [-> [Hk [Hws [Hds ->]]]]]]].
    apply matches_seq. exists (chars k), (ws ++ ds), ((1%nat, chars k) :: c).
    split; [reflexivity|]. split.
    { apply matches_grp. exists c. split; [|reflexivity].
      apply matches_month_name. eauto. }
    apply matches_seq. exists ws, ds, ((1%nat, chars k) :: c).
    split; [reflexivity|]. split; [now apply matches_blanks|].
    apply matches_grp. exists ((1%nat, chars k) :: c). split; [|reflexivity].
    now apply matches_year.
Qed.

(** what [numeric_re] matches, and what its groups hold *)
Lemma matches_numeric prev w rest c c' :
  matches numeric_re prev w rest c c'
  <-> exists ys sep ms,
        w = ys ++ sep :: ms
        /\ year20 ys /\ (sep = "-"%char \/ sep = "/"%char) /\ number12 ms
        /\ c' = (2%nat, ms) :: (1%nat, ys) :: c.
Proof.
  unfold numeric_re. cbn [seqs]. split.
  - intros H.
    apply matches_seq in H. destruct H as [ys [x1 [c1 [-> [H1 H]]]]].
    apply matches_seq in H. destruct H as [w2 [ms [c2 [-> [[sep [-> [Hs ->]]] H3]]]]].
    apply matches_grp in H1. destruct H1 as [c0 [H1 ->]].
    apply matches_year in H1. destruct H1 as [H1 ->].
    apply matches_grp in H3. destruct H3 as [c3 [H3 ->]].
    apply matches_digits12 in H3. destruct H3 as [H3 ->].
    exists ys, sep, ms. split; [reflexivity|]. split; [assumption|].
    split; [|auto].
    apply orb_true_iff in Hs. destruct Hs as [Hs|Hs]; apply Ascii.eqb_eq in Hs; auto.
  - intros [ys [sep [ms [-> [Hys [Hsep [Hms ->]]]]]]].
    apply matches_seq. exists ys, (sep :: ms), ((1%nat, ys) :: c).
    split; [reflexivity|]. split.
    { apply matches_grp. exists c. split; [now apply matches_year|reflexivity]. }
    apply matches_seq. exists [sep], ms, ((1%nat, ys) :: c).
    split; [reflexivity|]. split.
    { exists sep. split; [reflexivity|]. split; [|reflexivity].
      destruct Hsep as [-> | ->]; reflexivity. }
    apply matches_grp. exists ((1%nat, ys) :: c). split; [|reflexivity].
    now apply matches_digits12.
Qed.

(** the first three letters of a name are the key of its month *)
Lemma month_key_prefix (k : string) :
  month_key k ->
  exists v, lookup k MONTH_ALIASES = Some v
            /\ lookup (str (firstn 3 (chars k))) MONTH_ALIASES = Some v
            /\ (1 <= v <= 12)%Z.
Proof.
  unfold month_key. simpl. intros H.
  repeat match goal with
         | H : _ \/ _ |- _ => destruct H as [H|H]
         end; try contradiction; subst k; eexists;
    (split; [reflexivity|split; [reflexivity|lia]]).
Qed.

Lemma month_key_letters (k : string) :
  month_key k -> Forall (fun a => negb (is_space a) = true) (chars k).
Proof.
  unfold month_key. simpl. intros H.
  repeat match goal with
         | H : _ \/ _ |- _ => destruct H as [H|H]
         end; try contradiction; subst k; repeat constructor.
Qed.

Lemma phrase_of_month_year (t pre w rest : list ascii) (m : caps) :
  matches_at month_year_re t pre w rest m ->
  exists k ds, month_year_phrase t pre k ds
               /\ group 1 m = chars k /\ group 2 m = ds.
Proof.
  intros [Ht Hm]. apply matches_month_year in Hm.
  destruct Hm as [k [ws [ds [-> [Hk [Hws [Hds ->]]]]]]].
  exists k, ds. split; [|split; reflexivity].
  exists ws, rest. split; [|auto]. rewrite Ht. now rewrite <- !app_assoc.
Qed.

Lemma month_year_of_phrase (t pre : list ascii) (k : string) (ds : list ascii) :
  month_year_phrase t pre k ds ->
  exists w rest m, matches_at month_year_re t pre w rest m.
Proof.
  intros [ws [post [Ht [Hk [Hws Hds]]]]].
  exists (chars k ++ ws ++ ds), post, [(2%nat, ds); (1%nat, chars k)]. split.
  - rewrite Ht. now rewrite <- !app_assoc.
  - apply matches_month_year. exists k, ws, ds. auto.
Qed.

Lemma year20_length (ds : list ascii) : year20 ds -> List.length ds = 4%nat.
Proof. intros [a [b [-> _]]]. reflexivity. Qed.

Lemma year20_digit (ds : list ascii) :
  year20 ds -> forall x, hd_error ds = Some x -> is_space x = false.
Proof. intros [a [b [-> _]]] x [= <-]. reflexivity. Qed.

(** at a position, the month-and-year phrase is unique *)
Lemma month_year_phrase_unique t pre k ds k' ds' :
  month_year_phrase t pre k ds -> month_year_phrase t pre k' ds' ->
  k' = k /\ ds' = ds.
Proof.
  intros [ws [post [Ht [Hk [[N Hws] Hds]]]]] [ws' [post' [Ht' [Hk' [[N' Hws'] Hds']]]]].
  rewrite Ht in Ht'. apply app_inv_head in Ht'.
  apply (@run_unique (fun a => negb (is_space a))) in Ht';
    try (now apply month_key_letters).
  - destruct Ht' as [Ek E]. apply chars_inj in Ek.
    apply (@run_unique is_space) in E; try assumption.
    + destruct E as [_ E]. apply app_same_length in E.
      * destruct E as [E _]. auto.
      * now rewrite !year20_length.
    + intros x Hx. apply (year20_digit Hds).
      destruct Hds as [a [b [-> _]]]. exact Hx.
    + intros x Hx. apply (year20_digit Hds').
      destruct Hds' as [a [b [-> _]]]. exact Hx.
  - intros x Hx. destruct ws as [|y ws]; [now contradiction N|].
    simpl in Hx. injection Hx as <-. inversion Hws; subst.
    now apply negb_false_iff.
  - intros x Hx. destruct ws' as [|y ws']; [now contradiction N'|].
    simpl in Hx. injection Hx as <-. inversion Hws'; subst.
    now apply negb_false_iff.
Qed.

Lemma phrase_of_numeric (t pre w rest : list ascii) (m : caps) :
  matches_at numeric_re t pre w rest m ->
  exists ys ms, numeric_phrase t pre ys ms
                /\ group 1 m = ys /\ group 2 m = ms.
Proof.
  intros [Ht Hm]. apply matches_numeric in Hm.
  destruct Hm as [ys [sep [ms [-> [Hys [Hsep [Hms ->]]]]]]].
  exists ys, ms. split; [|split; reflexivity].
  exists sep, rest. split; [|auto]. rewrite Ht. rewrite <- !app_assoc. reflexivity.
Qed.

Lemma numeric_of_phrase (t pre ys ms : list ascii) :
  numeric_phrase t pre ys ms ->
  exists w rest m, matches_at numeric_re t pre w rest m.
Proof.
  intros [sep [post [Ht [Hys [Hsep Hms]]]]].
  exists (ys ++ sep :: ms), post, [(2%nat, ms); (1%nat, ys)]. split.
  - rewrite Ht. rewrite <- !app_assoc. reflexivity.
  - apply matches_numeric. exists ys, sep, ms. auto.
Qed.

End MonthYearFacts.

Module MonthYearCases.
Import Text Py Re ReSpec Planner Spec ReFacts PatternFacts WindowFacts MonthYearFacts.

Lemma matches_word prev w rest c c' (k : string) :
  matches (word_re k) prev w rest c c'
  <-> w = chars k /\ c' = c
      /\ boundary prev (chars k ++ rest) = true
      /\ boundary (last_char prev (chars k)) rest = true.
Proof.
  unfold word_re. cbn [seqs]. rewrite matches_seq. split.
  - intros [w1 [w2 [c1 [-> [[-> [-> Hb1]] H]]]]].
    apply matches_lit_then in H. destruct H as [w3 [-> [-> [-> Hb2]]]].
    simpl in *. rewrite app_nil_r in *. auto.
  - intros [-> [-> [Hb1 Hb2]]]. exists [], (chars k), c.
    split; [reflexivity|]. split; [simpl; auto|].
    apply matches_lit_then. exists []. split; [now rewrite app_nil_r|].
    simpl. auto.
Qed.

(** a month name begins and ends with a letter *)
Lemma month_key_boundary (k : string) prev rest :
  month_key k ->
  boundary prev (chars k ++ rest) = negb (word_at prev)
  /\ boundary (last_char prev (chars k)) rest = negb (word_at (hd_error rest)).
Proof.
  unfold month_key. simpl. intros H.
  repeat match goal with
         | H : _ \/ _ |- _ => destruct H as [H|H]
         end; try contradiction; subst k; unfold boundary; simpl;
    destruct (word_at prev), (word_at (hd_error rest)); split; reflexivity.
Qed.

Lemma found_word (text k : string) :
  month_key k ->
  found (word_re k) text = true <-> whole_word (chars text) k.
Proof.
  intros Hk. unfold found, whole_word. split.
  - destruct (search (word_re k) text) as [m|] eqn:E; [|discriminate]. intros _.
    apply search_Some in E. destruct E as [pre [w [rest [[Ht Hm] _]]]].
    apply matches_word in Hm. destruct Hm as [-> [_ [Hb1 Hb2]]].
    destruct (@month_key_boundary k (last_char None pre) rest Hk) as [E1 E2].
    rewrite E1 in Hb1. rewrite E2 in Hb2.
    exists pre, rest. repeat split; auto; now apply negb_true_iff.
  - intros [pre [post [Ht [Hb1 Hb2]]]].
    destruct (search (word_re k) text) as [m|] eqn:E; [reflexivity|].
    exfalso. apply (@search_None _ _ E pre (chars k) post []). split; [exact Ht|].
    apply matches_word.
    destruct (@month_key_boundary k (last_char None pre) post Hk) as [E1 E2].
    rewrite E1, E2, Hb1, Hb2. auto.
Qed.

Lemma first_alias_scan (text : string) (d1 d : list (string * Z)) :
  MONTH_ALIASES = d1 ++ d ->
  (forall k' v', In (k', v') d1 -> ~ whole_word (chars text) k') ->
  match first_alias text d with
  | Some v => exists k, first_key (chars text) k v
  | None => forall k, month_key k -> ~ whole_word (chars text) k
  end.
Proof.
  revert d1. induction d as [|[k v] d IH]; intros d1 Hd Hnone; simpl.
  - intros k Hk. rewrite app_nil_r in Hd. unfold month_key in Hk.
    apply in_map_iff in Hk. destruct Hk as [[k' v'] [<- Hin]].
    rewrite Hd in Hin. now apply (Hnone k' v').
  - assert (Hk : month_key k).
    { unfold month_key. rewrite Hd, map_app. apply in_or_app. right. now left. }
    destruct (found (word_re k) text) eqn:E.
    + exists k. exists d1, d. split; [exact Hd|]. split; [|exact Hnone].
      now apply found_word.
    + apply (IH (d1 ++ [(k, v)])).
      * now rewrite <- app_assoc.
      * intros k' v' Hin. apply in_app_or in Hin. destruct Hin as [Hin|[[= <- <-]|[]]].
        -- now apply (Hnone k' v').
        -- intros Hw. apply found_word in Hw; [congruence|exact Hk].
Qed.

Lemma fallback_year_branch (fb : option Z) (v : Z) :
  (if truthy (if truthy fb then fb else None)
   then Ok (if truthy fb then fb else None, Some v)
   else Ok (None, Some v))
  = Ok (fallback_year fb, Some v).
Proof.
  unfold fallback_year. destruct (truthy fb) eqn:E; [rewrite E|]; reflexivity.
Qed.

(** the three strategies, in their order *)
Lemma parse_month_year_cases :
  forall text fb,
       let t := chars (lower text) in
       (exists pre k ds v,
           month_year_phrase t pre k ds
           /\ (forall pre' k' ds', month_year_phrase t pre' k' ds' ->
                                   (List.length pre <= List.length pre')%nat)
           /\ (forall k' ds', month_year_phrase t pre k' ds' -> k' = k /\ ds' = ds)
           /\ lookup k MONTH_ALIASES = Some v
           /\ _parse_month_year text fb = Ok (Some (int_of_digits ds), Some v))
       \/ ((forall pre k ds, ~ month_year_phrase t pre k ds)
           /\ exists pre ys ms,
                numeric_phrase t pre ys ms
                /\ (forall pre' ys' ms', numeric_phrase t pre' ys' ms' ->
                                         (List.length pre <= List.length pre')%nat)
                /\ _parse_month_year text fb
                   = Ok (Some (int_of_digits ys), Some (int_of_digits ms)))
       \/ ((forall pre k ds, ~ month_year_phrase t pre k ds)
           /\ (forall pre ys ms, ~ numeric_phrase t pre ys ms)
           /\ ((exists k v, first_key t k v
                            /\ _parse_month_year text fb = Ok (fallback_year fb, Some v))
               \/ ((forall k, month_key k -> ~ whole_word t k)
                   /\ _parse_month_year text fb = Ok (fb, None)))).
Proof.
  intros text fb t. unfold _parse_month_year. fold t.
  destruct (search month_year_re (lower text)) as [m|] eqn:E1.
  { left. apply search_Some in E1. destruct E1 as [pre [w [rest [Hm Hleft]]]].
    destruct (phrase_of_month_year Hm) as [k [ds [Hp [Hg1 Hg2]]]].
    assert (Hk : month_key k) by (destruct Hp as [? [? [_ [Hk _]]]]; exact Hk).
    destruct (month_key_prefix Hk) as [v [Hv [Hv3 _]]].
    exists pre, k, ds, v. split; [exact Hp|]. split; [|split; [|split]].
    - intros pre' k' ds' Hp'.
      destruct (month_year_of_phrase Hp') as [w' [rest' [m' Hm']]].
      eapply Hleft; eauto.
    - intros k' ds' Hp'. eapply month_year_phrase_unique; eauto.
    - exact Hv.
    - rewrite Hg1, Hv3, Hg2. reflexivity. }
  assert (Hno1 : forall pre k ds, ~ month_year_phrase t pre k ds).
  { intros pre k ds Hp. destruct (month_year_of_phrase Hp) as [w [rest [m Hm]]].
    exact (@search_None _ _ E1 _ _ _ _ Hm). }
  right. destruct (search numeric_re (lower text)) as [m2|] eqn:E2.
  { left. split; [exact Hno1|].
    apply search_Some in E2. destruct E2 as [pre [w [rest [Hm Hleft]]]].
    destruct (phrase_of_numeric Hm) as [ys [ms [Hp [Hg1 Hg2]]]].
    exists pre, ys, ms. split; [exact Hp|]. split.
    - intros pre' ys' ms' Hp'.
      destruct (numeric_of_phrase Hp') as [w' [rest' [m' Hm']]].
      eapply Hleft; eauto.
    - now rewrite Hg1, Hg2. }
  right. split; [exact Hno1|]. split.
  { intros pre ys ms Hp. destruct (numeric_of_phrase Hp) as [w [rest [m Hm]]].
    exact (@search_None _ _ E2 _ _ _ _ Hm). }
  pose proof (@first_alias_scan (lower text) [] MONTH_ALIASES eq_refl
                ltac:(intros ? ? [])) as Hscan.
  destruct (first_alias (lower text) MONTH_ALIASES) as [v|].
  - left. destruct Hscan as [k Hk]. exists k, v. split; [exact Hk|].
    apply fallback_year_branch.
  - right. split; [exact Hscan|reflexivity].
Qed.

(** extraction never fails: the key of the dictionary lookup is always the
    first three letters of a month name *)
Lemma parse_month_year_total (text : string) (fb : option Z) :
  exists y m, _parse_month_year text fb = Ok (y, m).
Proof.
  destruct (parse_month_year_cases text fb)
    as [[? [? [ds [v [_ [_ [_ [_ ->]]]]]]]]
       |[[_ [? [ys [ms [_ [_ ->]]]]]]
        |[_ [_ [[? [v [_ ->]]]|[_ ->]]]]]]; eauto.
Qed.

End MonthYearCases.

Module MonthYearTheorems.
Import Text Py Re ReSpec Planner Spec MonthYearCases.

(** C5: the four examples, and the order of the three strategies: the
    leftmost month name followed by a year [20dd]; failing that, the leftmost
    [20dd-m] or [20dd/m]; failing that, the first name of the dictionary that
    stands as a word, with the fallback year; failing that, no month. *)
Theorem parse_month_year_order :
  (forall fb, _parse_month_year "June 2025" fb = Ok (Some 2025%Z, Some 6%Z))
  /\ (forall fb, _parse_month_year "2025-06" fb = Ok (Some 2025%Z, Some 6%Z))
  /\ _parse_month_year "June" (Some 2025%Z) = Ok (Some 2025%Z, Some 6%Z)
  /\ _parse_month_year "June" None = Ok (None, Some 6%Z)
  /\ forall text fb,
       let t := chars (lower text) in
       (exists pre k ds v,
           month_year_phrase t pre k ds
           /\ (forall pre' k' ds', month_year_phrase t pre' k' ds' ->
                                   (List.length pre <= List.length pre')%nat)
           /\ (forall k' ds', month_year_phrase t pre k' ds' -> k' = k /\ ds' = ds)
           /\ lookup k MONTH_ALIASES = Some v
           /\ _parse_month_year text fb = Ok (Some (int_of_digits ds), Some v))
       \/ ((forall pre k ds, ~ month_year_phrase t pre k ds)
           /\ exists pre ys ms,
                numeric_phrase t pre ys ms
                /\ (forall pre' ys' ms', numeric_phrase t pre' ys' ms' ->
                                         (List.length pre <= List.length pre')%nat)
                /\ _parse_month_year text fb
                   = Ok (Some (int_of_digits ys), Some (int_of_digits ms)))
       \/ ((forall pre k ds, ~ month_year_phrase t pre k ds)
           /\ (forall pre ys ms, ~ numeric_phrase t pre ys ms)
           /\ ((exists k v, first_key t k v
                            /\ _parse_month_year text fb = Ok (fallback_year fb, Some v))
               \/ ((forall k, month_key k -> ~ whole_word t k)
                   /\ _parse_month_year text fb = Ok (fb, None)))).
Proof.
  split; [intros fb; reflexivity|]. split; [intros fb; reflexivity|].
  split; [reflexivity|]. split; [reflexivity|].
  exact parse_month_year_cases.
Qed.

End MonthYearTheorems.


(* ================================================================== *)
(** ** The interpreter *)

Module PlannerTheorems.
Import Text Py Frame Re ReSpec Tools Planner Spec Samples.
Import MonthYearFacts MonthYearCases.
Local Open Scope string_scope.

(** C2, as stated, fails: the infinite runway is the float infinity, and the
    narrative writes it with the one-decimal format of the finite case. *)
Lemma infinite_runway_rendered :
  exists res fig,
    cash_runway_months (P := rowwise) profitable = Some res
    /\ months res = infinity
    /\ plan_and_execute (P := rowwise) "What is our cash runway right now?" profitable
       = Ok {| text := "Cash runway: " ++ format_f 1 false (months res)
                       ++ " months (Cash $50 / Avg monthly burn $-100).";
               chart := Some fig |}
    /\ plan_and_execute (P := rowwise) "What is our cash runway right now?" profitable
       = Ok {| text := "Cash runway: inf months (Cash $50 / Avg monthly burn $-100).";
               chart := Some fig |}.
Proof.
  eexists. eexists. split; [vm_compute; reflexivity|].
  split; [reflexivity|]. split; vm_compute; reflexivity.
Qed.

Section WithPandas.
Context {P : Pandas}.

Lemma plan_and_execute_respond (q : string) (dfs : datasets) :
  plan_and_execute q dfs = respond (classify (lower q)) (lower q) dfs.
Proof.
  unfold plan_and_execute, classify, respond. fold (default_year dfs).
  destruct (found revenue_budget_re (lower q)); [reflexivity|].
  destruct (found gross_margin_re (lower q) && found trend_re (lower q));
    [reflexivity|].
  destruct (found opex_re (lower q) && found breakdown_re (lower q));
    [reflexivity|].
  destruct (found runway_re (lower q)); reflexivity.
Qed.

(** C6: the four examples, and one where the first and the last rule both
    match; the answer is that of the first rule that matches; an unclassified
    question gets the fixed guidance and no chart. *)
Theorem intent_classification :
  classify (lower "revenue vs budget for June") = RevenueVsBudget
  /\ classify (lower "budget vs revenue June") = RevenueVsBudget
  /\ classify (lower "gross margin") = Unclassified
  /\ classify (lower "show cash runway") = CashRunway
  /\ classify (lower "cash runway vs budget") = RevenueVsBudget
  /\ (forall q dfs,
        plan_and_execute q dfs = respond (classify (lower q)) (lower q) dfs)
  /\ (forall q dfs,
        classify (lower q) = Unclassified ->
        plan_and_execute q dfs = Ok {| text := guidance; chart := None |})
  /\ (forall dfs,
        plan_and_execute "gross margin" dfs = Ok {| text := guidance; chart := None |}).
Proof.
  split; [reflexivity|]. split; [reflexivity|]. split; [reflexivity|].
  split; [reflexivity|]. split; [reflexivity|].
  split; [exact plan_and_execute_respond|]. split.
  - intros q dfs Hc. now rewrite plan_and_execute_respond, Hc.
  - intros dfs. now rewrite plan_and_execute_respond.
Qed.

Lemma unresolved_component (ql : string) (fb : option Z) (y m : option Z) :
  _parse_month_year ql fb = Ok (y, m) ->
  unresolved ql fb -> y = None \/ m = None.
Proof.
  intros E Hu. destruct y as [y|]; [|now left]. destruct m as [m|]; [|now right].
  exfalso. exact (Hu y m E).
Qed.

(** C7: a revenue-vs-budget or opex-breakdown question whose month or year
    is not resolved is answered by the prompt for a month and a year, with no
    chart: no metric is computed and nothing is raised. *)
Theorem unresolved_period_prompt (q : string) (dfs : datasets) :
  needs_period (classify (lower q)) = true ->
  unresolved (lower q) (default_year dfs) ->
  plan_and_execute q dfs
  = Ok {| text := month_year_prompt (classify (lower q)); chart := None |}.
Proof.
  intros Hn Hu. rewrite plan_and_execute_respond.
  destruct (parse_month_year_total (lower q) (default_year dfs)) as [y [m E]].
  destruct (unresolved_component E Hu) as [-> | ->];
    destruct (classify (lower q)); try discriminate Hn; simpl;
    unfold answer_revenue_vs_budget, answer_opex_breakdown; rewrite E; simpl;
    try reflexivity; destruct y; reflexivity.
Qed.

(** no timestamp has a thirteenth month *)
Lemma timestamp_month_13 (year : Z) : timestamp_ok year 13 = false.
Proof.
  destruct (timestamp_ok year 13) eqn:E; [|reflexivity].
  apply timestamp_ok_month in E. lia.
Qed.

(** C10: the numeric pattern takes 13 for a month, and a question that
    carries it makes the interpreter raise, on any data. *)
Theorem month_out_of_range_raises :
  (forall fb, _parse_month_year "2025-13" fb = Ok (Some 2025%Z, Some 13%Z))
  /\ (forall dfs,
        plan_and_execute "revenue vs budget for 2025-13" dfs = Raise ValueError)
  /\ plan_and_execute "revenue vs budget for 2025-13" books = Raise ValueError.
Proof.
  assert (H : forall dfs,
             plan_and_execute "revenue vs budget for 2025-13" dfs = Raise ValueError).
  { intros dfs. rewrite plan_and_execute_respond.
    change (classify (lower "revenue vs budget for 2025-13")) with RevenueVsBudget.
    unfold respond, answer_revenue_vs_budget.
    change (_parse_month_year (lower "revenue vs budget for 2025-13") (default_year dfs))
      with (_parse_month_year "revenue vs budget for 2025-13" (default_year dfs)).
    replace (_parse_month_year "revenue vs budget for 2025-13" (default_year dfs))
      with (@Ok (option Z * option Z) (Some 2025%Z, Some 13%Z)) by reflexivity.
    cbn [bind]. unfold revenue_vs_budget_usd, _sum_by_account, first_of_month.
    now rewrite timestamp_month_13. }
  split; [intros fb; reflexivity|]. split; [exact H|apply H].
Qed.

(** C2, as amended: the infinite runway is the float infinity, held in the
    field that holds the finite months; on every dataset where the runway is
    infinite, the narrative of a runway question writes it with the same
    one-decimal format, which prints it as "inf". *)
Theorem infinite_runway_narrative (q : string) (dfs : datasets) (res : cash_runway) :
  classify (lower q) = CashRunway ->
  cash_runway_months dfs = Some res ->
  months res = infinity ->
  format_f 1 false (months res) = "inf"
  /\ plan_and_execute q dfs
     = Ok {| text := "Cash runway: " ++ format_f 1 false (months res)
                     ++ " months (Cash $" ++ format_f 0 true (cash_usd res)
                     ++ " / Avg monthly burn $"
                     ++ format_f 0 true (avg_burn_usd res) ++ ").";
             chart := Some (cr_chart res) |}.
Proof.
  intros Hc Hr Hm. split; [now rewrite Hm|].
  rewrite plan_and_execute_respond, Hc. simpl. unfold answer_cash_runway.
  now rewrite Hr.
Qed.

End WithPandas.

Lemma unresolved_period_prompt_witness :
  plan_and_execute (P := rowwise) "revenue vs budget for June" no_data
  = Ok {| text := "Please include a month and year (e.g., 'June 2025').";
          chart := None |}.
Proof.
  apply (@unresolved_period_prompt rowwise "revenue vs budget for June" no_data).
  - reflexivity.
  - intros year month. vm_compute. discriminate.
Defined.

Lemma infinite_runway_narrative_witness :
  exists res,
    cash_runway_months (P := rowwise) profitable = Some res
    /\ format_f 1 false (months res) = "inf"
    /\ plan_and_execute (P := rowwise) "show cash runway" profitable
       = Ok {| text := "Cash runway: " ++ format_f 1 false (months res)
                       ++ " months (Cash $" ++ format_f 0 true (cash_usd res)
                       ++ " / Avg monthly burn $"
                       ++ format_f 0 true (avg_burn_usd res) ++ ").";
               chart := Some (cr_chart res) |}.
Proof.
  eexists. split; [vm_compute; reflexivity|].
  apply (@infinite_runway_narrative rowwise "show cash runway" profitable);
    reflexivity.
Defined.

End PlannerTheorems.

(* ================================================================== *)
(** ** More about the metric engine *)

Module MoreToolsFacts.
Import Text Py Frame Tools Spec SpecMore Samples.
Import FloatFacts FrameFacts ToolsFacts SeriesFacts TrendFacts RunwayFacts Unfolded.
Local Open Scope string_scope.

Section MergeRows.
Context {R : Type} `{Ledger R}.

Lemma quotes_key (r : R) (f : fx_row) :
  quotes r f = true <-> fx_key f = (period_of (date_of r), currency_of r).
Proof.
  rewrite quotes_same_key. unfold same_key, fx_key.
  symmetry. apply pair_equal_spec.
Qed.

Lemma unique_rate_once (fx : list fx_row) (r : R) :
  rates_unique fx -> (quote_count fx r <= 1)%nat.
Proof.
  unfold rates_unique, quote_count.
  induction fx as [|f fx IH]; simpl; intros Hn; [lia|].
  inversion Hn as [|? ? Hnotin Hn']; subst.
  destruct (quotes r f) eqn:E; [|now apply IH].
  simpl. rewrite filter_none; [simpl; lia|].
  intros g Hg. destruct (quotes r g) eqn:Eg; [|reflexivity].
  exfalso. apply Hnotin. apply quotes_key in E. apply quotes_key in Eg.
  rewrite E, <- Eg. now apply in_map.
Qed.

(** the rows a ledger row gives the merged frame: itself, once per rate
    quoted for it, and once when none is *)
Lemma merge_row_sources (fx : list fx_row) (r : R) :
  map src (merge_row fx r) = repeat r (Nat.max 1 (quote_count fx r)).
Proof.
  unfold merge_row, quote_count. rewrite filter_matches.
  destruct (filter (quotes r) fx) as [|f fs]; [reflexivity|].
  rewrite map_map. cbn [src with_rate].
  replace (Nat.max 1 (List.length (f :: fs))) with (List.length (f :: fs))
    by (simpl; lia).
  induction (f :: fs) as [|g gs IH]; simpl; [reflexivity|]. now rewrite IH.
Qed.

Lemma merge_row_unique (fx : list fx_row) (r : R) :
  rates_unique fx -> map src (merge_row fx r) = [r].
Proof.
  intros Hu. pose proof (unique_rate_once r Hu) as Hlen.
  rewrite merge_row_sources.
  destruct (quote_count fx r) as [|[|n]]; [reflexivity|reflexivity|lia].
Qed.

End MergeRows.

(** X1: with at most one rate per (period, currency), the merge keeps the
    ledger as it is: every row once, in its order. *)
Theorem merge_fx_keeps_rows {R : Type} `{Ledger R} (df : list R) (fx : list fx_row) :
  rates_unique fx ->
  map src (_merge_fx df fx) = df
  /\ List.length (_merge_fx df fx) = List.length df.
Proof.
  intros Hu.
  assert (E : map src (_merge_fx df fx) = df).
  { unfold _merge_fx. induction df as [|r df IH]; simpl; [reflexivity|].
    rewrite map_app, merge_row_unique by assumption. simpl. now rewrite IH. }
  split; [exact E|]. rewrite <- E at 2. now rewrite length_map.
Qed.

Lemma merge_fx_keeps_rows_witness :
  map src (_merge_fx [eur_june; gbp_june] [eur_rate]) = [eur_june; gbp_june]
  /\ List.length (_merge_fx [eur_june; gbp_june] [eur_rate])
     = List.length [eur_june; gbp_june].
Proof.
  apply (@merge_fx_keeps_rows _ _ [eur_june; gbp_june] [eur_rate]).
  unfold rates_unique. simpl. constructor; [intros []|constructor].
Defined.

(** X2: whatever the fx table holds, the merged frame holds the ledger rows
    in their order, each once per rate the table quotes for its period and
    currency, and once when it quotes none: no row is lost and none is
    invented; every merged row is dated the first day of the month of the
    row it comes from. *)
Theorem merge_fx_no_row_lost {R : Type} `{Ledger R} (df : list R) (fx : list fx_row) :
  map src (_merge_fx df fx)
  = flat_map (fun r => repeat r (Nat.max 1 (quote_count fx r))) df
  /\ (forall r, In r df <-> In r (map src (_merge_fx df fx)))
  /\ (List.length df <= List.length (_merge_fx df fx))%nat
  /\ (forall m, In m (_merge_fx df fx) ->
        period_of (date m) = period_of (date_of (src m))
        /\ ts_day (date m) = 1%Z).
Proof.
  split; [|split; [|split]].
  - unfold _merge_fx. induction df as [|r df IH]; simpl; [reflexivity|].
    now rewrite map_app, merge_row_sources, IH.
  - intros r. rewrite in_map_iff. split.
    + intros Hr. destruct (merge_row_nonempty fx r) as [m Hm].
      exists m. split; [now apply merge_row_src in Hm|].
      apply merge_fx_In. eauto.
    + intros [m [<- Hm]]. apply merge_fx_In in Hm. destruct Hm as [r' [Hr' Hm]].
      apply merge_row_src in Hm. destruct Hm as [-> _]. exact Hr'.
  - unfold _merge_fx. induction df as [|r df IH]; simpl; [lia|].
    rewrite length_app. destruct (merge_row_nonempty fx r) as [m Hm].
    destruct (merge_row fx r); [contradiction|]. simpl. lia.
  - intros m Hm. apply merge_fx_In in Hm. destruct Hm as [r [_ Hm]].
    apply merge_row_src in Hm. destruct Hm as [-> [-> _]]. split; reflexivity.
Qed.

(** a rate quoted twice repeats the row, and the row counts twice in every
    total *)
Example merge_fx_duplicate_rate :
  map src (_merge_fx [eur_june; gbp_june] [eur_rate; eur_rate])
  = [eur_june; eur_june; gbp_june]
  /\ map amount_usd (_merge_fx [eur_june; gbp_june] [eur_rate; eur_rate])
     = [1250; 1250; 250]%float.
Proof. split; reflexivity. Qed.

(** X3: no account counts in two categories. *)
Theorem categories_exclusive (r : normalized) :
  (is_revenue r = true -> is_cogs r = false /\ is_opex r = false)
  /\ (is_cogs r = true -> is_revenue r = false /\ is_opex r = false)
  /\ (is_opex r = true -> is_revenue r = false /\ is_cogs r = false).
Proof.
  unfold is_revenue, is_cogs, is_opex, isin, ACCOUNT_ALIASES_revenue,
    ACCOUNT_ALIASES_cogs, ACCOUNT_ALIASES_opex_prefix.
  assert (Hrev : forall s, existsb (String.eqb s) ["revenue"; "total revenue"]%string = true ->
                           s = "revenue"%string \/ s = "total revenue"%string).
  { intros s Hs. simpl in Hs. rewrite orb_false_r in Hs. apply orb_true_iff in Hs.
    destruct Hs as [Hs|Hs]; apply String.eqb_eq in Hs; auto. }
  assert (Hcogs : forall s, existsb (String.eqb s) ["cogs"; "cost of goods sold"]%string = true ->
                            s = "cogs"%string \/ s = "cost of goods sold"%string).
  { intros s Hs. simpl in Hs. rewrite orb_false_r in Hs. apply orb_true_iff in Hs.
    destruct Hs as [Hs|Hs]; apply String.eqb_eq in Hs; auto. }
  split; [|split].
  - intros Hr. apply Hrev in Hr. destruct Hr as [-> | ->]; split; reflexivity.
  - intros Hc. apply Hcogs in Hc. destruct Hc as [-> | ->]; split; reflexivity.
  - intros Ho. split.
    + destruct (existsb _ ["revenue"; "total revenue"]%string) eqn:E; [|reflexivity].
      apply Hrev in E. destruct E as [E|E]; rewrite E in Ho; discriminate Ho.
    + destruct (existsb _ ["cogs"; "cost of goods sold"]%string) eqn:E; [|reflexivity].
      apply Hcogs in E. destruct E as [E|E]; rewrite E in Ho; discriminate Ho.
Qed.

Lemma fold_ts_max (ds : list Timestamp) (d : Timestamp) :
  In (fold_left ts_max ds d) (d :: ds)
  /\ forall x, In x (d :: ds) ->
               x = fold_left ts_max ds d \/ before x (fold_left ts_max ds d).
Proof.
  revert d. induction ds as [|y ds IH]; intros d; simpl.
  - split; [now left|]. intros x [<-|[]]. now left.
  - destruct (IH (ts_max d y)) as [Hin Hmax].
    assert (Hd : forall x, x = d \/ x = y -> x = ts_max d y \/ before x (ts_max d y)).
    { intros x Hx. unfold ts_max, before, key_lt.
      destruct (ts_compare d y) eqn:E.
      - apply ts_compare_eq in E. subst y. left. tauto.
      - destruct Hx as [-> | ->]; [right; exact E|now left].
      - destruct Hx as [-> | ->]; [now left|right].
        rewrite ts_compare_opp, E. reflexivity. }
    split.
    + destruct Hin as [Hin|Hin]; [|now right; right].
      rewrite <- Hin. unfold ts_max. destruct (ts_compare d y); auto.
    + intros x Hx.
      assert (Hx' : x = d \/ x = y \/ In x ds) by (destruct Hx as [->|[->|?]]; auto).
      destruct Hx' as [Hx'|[Hx'|Hx']].
      * destruct (Hd x (or_introl Hx')) as [E|E].
        -- apply Hmax. left. now symmetry.
        -- destruct (Hmax (ts_max d y) (or_introl eq_refl)) as [<-|Hlt]; [now right|].
           right. eapply ts_compare_trans; eassumption.
      * destruct (Hd x (or_intror Hx')) as [E|E].
        -- apply Hmax. left. now symmetry.
        -- destruct (Hmax (ts_max d y) (or_introl eq_refl)) as [<-|Hlt]; [now right|].
           right. eapply ts_compare_trans; eassumption.
      * apply Hmax. now right.
Qed.

(** X4: the latest month is missing exactly on an empty ledger; otherwise it
    is the first day of the month of some row, and no row is later. *)
Theorem latest_month_is_latest (rows : list ledger_row) :
  match latest_month_in_actuals rows with
  | None => rows = []
  | Some d =>
      (exists r, In r rows /\ d = month_start (row_date r))
      /\ ts_day d = 1%Z
      /\ forall r, In r rows ->
                   month_start (row_date r) = d \/ before (month_start (row_date r)) d
  end.
Proof.
  unfold latest_month_in_actuals. destruct rows as [|r0 rows]; [reflexivity|].
  cbn [map].
  set (d0 := month_start (row_date r0)).
  set (ds := map (fun r => month_start (row_date r)) rows).
  destruct (fold_ts_max ds d0) as [Hin Hmax].
  assert (Hex : exists r, In r (r0 :: rows) /\ fold_left ts_max ds d0 = month_start (row_date r)).
  { destruct Hin as [Hin|Hin].
    - exists r0. split; [now left|]. now rewrite <- Hin.
    - unfold ds in Hin. apply in_map_iff in Hin. destruct Hin as [r [E Hr]].
      exists r. split; [now right|]. now rewrite E. }
  split; [|split].
  - destruct Hex as [r [Hr E]]. exists r. auto.
  - destruct Hex as [r [_ ->]]. reflexivity.
  - intros r Hr. apply Hmax. destruct Hr as [<-|Hr]; [now left|right].
    unfold ds. apply in_map_iff. exists r. auto.
Qed.


Section WithPandas.
Context {P : Pandas}.


End WithPandas.

End MoreToolsFacts.

(* ================================================================== *)
(** ** Windows of the trend and the opex breakdown *)

Module BreakdownFacts.
Import Text Py Frame Tools Spec SpecMore Samples.
Import FloatFacts FrameFacts ToolsFacts SeriesFacts TrendFacts RunwayFacts.
Import MoreToolsFacts Unfolded.
Local Open Scope string_scope.
Local Open Scope list_scope.

Lemma tail_nested {A : Type} (n m : Z) (l : list A) :
  (0 <= n <= m)%Z ->
  exists older, tail m l = older ++ tail n l
                /\ ((List.length (tail n l) < Z.to_nat n)%nat -> older = []).
Proof.
  intros Hnm. rewrite !tail_nonneg by lia.
  set (a := (List.length l - Z.to_nat m)%nat).
  set (b := (List.length l - Z.to_nat n)%nat).
  assert (Hab : (a <= b)%nat) by (unfold a, b; lia).
  exists (firstn (b - a) (skipn a l)). split.
  - replace (skipn b l) with (skipn (b - a) (skipn a l)).
    + now rewrite firstn_skipn.
    + rewrite skipn_skipn. f_equal. lia.
  - rewrite length_skipn. intros Hlt.
    assert (b = 0%nat) by (unfold b in *; lia).
    assert (a = 0%nat) by lia.
    replace (b - a)%nat with 0%nat by lia. reflexivity.
Qed.

Lemma string_compare_refl (s : string) : String.compare s s = Eq.
Proof.
  induction s as [|a s IH]; simpl; [reflexivity|].
  unfold Ascii.compare. now rewrite N.compare_refl.
Qed.








Lemma string_lt_irrefl (s : string) : String.compare s s <> Lt.
Proof. rewrite string_compare_refl. discriminate. Qed.

Section WithPandas.
Context {P : Pandas}.

(** X8: a longer window only adds older months: the series of a window is
    the end of the series of any longer one, and when it has fewer months
    than asked for, the longer window has nothing to add. *)
Theorem trend_windows_nested (dfs : datasets) (N M : Z) :
  (0 <= N <= M)%Z ->
  exists older,
    series (gross_margin_trend_pct dfs M)
    = older ++ series (gross_margin_trend_pct dfs N)
    /\ ((List.length (series (gross_margin_trend_pct dfs N)) < Z.to_nat N)%nat ->
        older = []).
Proof.
  intros Hnm. unfold gross_margin_trend_pct. cbn [series].
  set (full := _series_gm _).
  destruct (tail_nested full Hnm) as [older [E Hfew]].
  exists (map (fun r => {| period := strftime_Ym (gm_ym r);
                           point_gm_pct := gm_pct r |}) older).
  rewrite E, map_app. split; [reflexivity|].
  rewrite length_map. intros Hlt. now rewrite (Hfew Hlt).
Qed.





End WithPandas.

Lemma trend_windows_nested_witness :
  exists older,
    series (gross_margin_trend_pct (P := rowwise) books 5)
    = older ++ series (gross_margin_trend_pct (P := rowwise) books 1)
    /\ ((List.length (series (gross_margin_trend_pct (P := rowwise) books 1))
         < Z.to_nat 1)%nat ->
        older = []).
Proof.
  apply (@trend_windows_nested rowwise books 1 5). lia.
Defined.


(** the breakdown of May in the sample books: one slice, the payroll *)
Example opex_breakdown_may :
  exists fig,
    opex_breakdown_usd (P := rowwise) books 2025 5 = Ok fig
    /\ fig_data fig = [Pie ["PAYROLL"] [90000%float]].
Proof. eexists. split; [vm_compute; reflexivity|reflexivity]. Qed.

End BreakdownFacts.

(* ================================================================== *)
(** ** More about the interpreter *)

Module MorePlannerFacts.
Import Text Py Frame Re ReSpec Tools Planner Spec SpecMore Samples.
Import FloatFacts FrameFacts ToolsFacts SeriesFacts TrendFacts RunwayFacts.
Import ReFacts PatternFacts WindowFacts MonthYearFacts MonthYearCases.
Import PlannerTheorems MoreToolsFacts Unfolded.
Local Open Scope string_scope.

Lemma digit_val_bounds (a : ascii) : is_digit a = true -> (0 <= digit_val a <= 9)%Z.
Proof.
  unfold is_digit, between, digit_val. intros H.
  apply andb_true_iff in H. destruct H as [H1 H2].
  apply Nat.leb_le in H1. apply Nat.leb_le in H2. lia.
Qed.

Lemma number12_bounds (ds : list ascii) :
  number12 ds -> (0 <= int_of_digits ds <= 99)%Z.
Proof.
  intros [[Hlo Hhi] Hall]. destruct ds as [|a [|b [|c ds]]]; simpl in Hlo, Hhi; try lia.
  - inversion Hall as [|? ? Ha _]; subst. apply digit_val_bounds in Ha.
    unfold int_of_digits. cbn [fold_left]. lia.
  - inversion Hall as [|? ? Ha Hall']; subst. inversion Hall' as [|? ? Hb _]; subst.
    apply digit_val_bounds in Ha. apply digit_val_bounds in Hb.
    unfold int_of_digits. cbn [fold_left]. lia.
Qed.

Lemma year20_bounds (ds : list ascii) :
  year20 ds -> (2000 <= int_of_digits ds <= 2099)%Z.
Proof.
  intros [a [b [-> [Ha Hb]]]]. apply digit_val_bounds in Ha. apply digit_val_bounds in Hb.
  unfold int_of_digits. cbn [fold_left chars list_ascii_of_string app].
  change (digit_val "2") with 2%Z. change (digit_val "0") with 0%Z. lia.
Qed.

(** X10: the window is the default or a number from 0 to 99; the
    interpreter, whose default is 3, never asks for a negative window. *)
Theorem parse_window_bounds (text : string) (d : Z) :
  (_parse_window text d = d \/ (0 <= _parse_window text d <= 99)%Z)
  /\ (0 <= _parse_window text 3 <= 99)%Z.
Proof.
  assert (H : forall d', _parse_window text d' = d'
                         \/ (0 <= _parse_window text d' <= 99)%Z).
  { intros d'. destruct (parse_window_cases text d')
      as [[pre [ds [Hp [_ [_ ->]]]]]|[_ E]]; [right|now left].
    destruct Hp as [? [? [? [? [? [_ [_ [_ [Hd _]]]]]]]]].
    now apply number12_bounds. }
  split; [apply H|]. destruct (H 3%Z) as [-> |Hb]; lia.
Qed.

Lemma first_key_month (t : list ascii) (k : string) (v : Z) :
  first_key t k v -> (1 <= v <= 12)%Z.
Proof.
  intros [d1 [d2 [Hd _]]].
  assert (Hin : In (k, v) MONTH_ALIASES) by (rewrite Hd; apply in_or_app; right; now left).
  simpl in Hin.
  repeat match goal with
         | H : _ \/ _ |- _ => destruct H as [H|H]
         end; try contradiction; injection Hin as _ <-; lia.
Qed.

(** X11: extraction always returns; a year is one written [20dd] in the
    text (2000..2099) or the fallback, and it is never 0 beside a month; a
    month is 1..12, or 0..99 when the text has the numeric pattern; a text
    without a month gives back the fallback as it is. *)
Theorem parse_month_year_bounds (text : string) (fb : option Z) :
  exists y m,
    _parse_month_year text fb = Ok (y, m)
    /\ (forall mv, m = Some mv ->
                   (1 <= mv <= 12)%Z
                   \/ ((0 <= mv <= 99)%Z
                       /\ exists pre ys ms,
                            numeric_phrase (chars (lower text)) pre ys ms))
    /\ (forall yv, y = Some yv -> (2000 <= yv <= 2099)%Z \/ fb = Some yv)
    /\ (forall yv mv, y = Some yv -> m = Some mv -> yv <> 0%Z)
    /\ (m = None -> y = fb).
Proof.
  destruct (parse_month_year_cases text fb)
    as [[pre [k [ds [v [Hp [_ [_ [Hv ->]]]]]]]]
       |[[_ [pre [ys [ms [Hp [_ ->]]]]]]
        |[_ [_ [[k [v [Hk ->]]]|[_ ->]]]]]].
  - destruct Hp as [ws [post [_ [Hk [_ Hds]]]]].
    apply year20_bounds in Hds. destruct (month_key_prefix Hk) as [v' [Hv' [_ Hb]]].
    assert (v' = v) by congruence. subst v'.
    do 2 eexists. split; [reflexivity|].
    repeat split; intros; try discriminate;
      repeat match goal with H : Some _ = Some _ |- _ => injection H as <- end;
      auto; lia.
  - pose proof Hp as [sep [post [_ [Hys [_ Hms]]]]].
    apply year20_bounds in Hys. apply number12_bounds in Hms.
    do 2 eexists. split; [reflexivity|].
    repeat split; intros; try discriminate;
      repeat match goal with H : Some _ = Some _ |- _ => injection H as <- end;
      auto; try lia.
    right. split; [lia|eauto].
  - apply first_key_month in Hk.
    do 2 eexists. split; [reflexivity|]. unfold fallback_year, truthy.
    destruct fb as [y0|]; [destruct (Z.eqb_spec y0 0)|]; simpl;
      repeat split; intros; try discriminate;
      repeat match goal with H : Some _ = Some _ |- _ => injection H as <- end;
      auto; try lia; try congruence.
  - do 2 eexists. split; [reflexivity|].
    repeat split; intros; try discriminate; auto.
Qed.

Lemma lower_char_idem (a : ascii) : lower_char (lower_char a) = lower_char a.
Proof. destruct a as [[] [] [] [] [] [] [] []]; reflexivity. Qed.

Lemma lower_upper_char (a : ascii) : lower_char (upper_char a) = lower_char a.
Proof. destruct a as [[] [] [] [] [] [] [] []]; reflexivity. Qed.

Lemma lower_idem (s : string) : lower (lower s) = lower s.
Proof.
  unfold lower. rewrite chars_str, map_map. f_equal. apply map_ext, lower_char_idem.
Qed.

Lemma lower_upper (s : string) : lower (upper s) = lower s.
Proof.
  unfold lower, upper. rewrite chars_str, map_map. f_equal.
  apply map_ext, lower_upper_char.
Qed.


Section WithPandas.
Context {P : Pandas}.

(** X12: the interpreter does not see the case of a question: in capitals
    or in small letters it gets the answer of the question as typed, and so do
    the month and the year. *)
Theorem interpreter_ignores_case (q : string) (dfs : datasets) (fb : option Z) :
  plan_and_execute (upper q) dfs = plan_and_execute q dfs
  /\ plan_and_execute (lower q) dfs = plan_and_execute q dfs
  /\ _parse_month_year (upper q) fb = _parse_month_year q fb
  /\ _parse_month_year (lower q) fb = _parse_month_year q fb.
Proof.
  unfold plan_and_execute, _parse_month_year.
  now rewrite !lower_upper, !lower_idem.
Qed.

(** the metrics of a month raise where the timestamp does not hold it, and
    only there *)
Lemma revenue_vs_budget_outcome (dfs : datasets) (year month : Z) :
  if timestamp_ok year month
  then exists res, revenue_vs_budget_usd dfs year month = Ok res
  else revenue_vs_budget_usd dfs year month = Raise ValueError.
Proof.
  destruct (timestamp_ok year month) eqn:E.
  - destruct (revenue_vs_budget_result dfs year month E) as [fig ->]. eauto.
  - unfold revenue_vs_budget_usd. now rewrite (sum_by_account_raises _ _ _ _ E).
Qed.

Lemma opex_breakdown_outcome (dfs : datasets) (year month : Z) :
  if timestamp_ok year month
  then exists fig, opex_breakdown_usd dfs year month = Ok fig
  else opex_breakdown_usd dfs year month = Raise ValueError.
Proof.
  unfold opex_breakdown_usd, first_of_month.
  destruct (timestamp_ok year month); cbn [bind]; eauto.
Qed.

(** X13: the interpreter raises in one situation only: the question asks
    for revenue against budget or for the opex breakdown, and the timestamp
    does not hold the year and month taken from it; what it raises then is
    [ValueError].  The timestamp holds no month outside 1..12 and every month
    from 1677-10 to 2262-04. *)
Theorem plan_and_execute_raises (q : string) (dfs : datasets) (e : exn) :
  (plan_and_execute q dfs = Raise e
   <-> e = ValueError
       /\ needs_period (classify (lower q)) = true
       /\ exists year month,
            _parse_month_year (lower q) (default_year dfs) = Ok (Some year, Some month)
            /\ timestamp_ok year month = false)
  /\ (forall year month, ~ (1 <= month <= 12)%Z -> timestamp_ok year month = false)
  /\ (forall year month, ns_month year month = true -> timestamp_ok year month = true).
Proof.
  split; [|split; [|apply timestamp_ok_ns]].
  2:{ intros year month Hm. destruct (timestamp_ok year month) eqn:E; [|reflexivity].
      apply timestamp_ok_month in E. contradiction. }
  rewrite plan_and_execute_respond.
  destruct (parse_month_year_total (lower q) (default_year dfs)) as [y [m E]].
  destruct (classify (lower q)); simpl;
    unfold answer_revenue_vs_budget, answer_opex_breakdown,
      answer_gross_margin_trend, answer_cash_runway;
    try (split; [discriminate|intros [_ [? _]]; discriminate]).
  - rewrite E. simpl. destruct y as [y|], m as [m|];
      try (split; [discriminate|intros [_ [_ [? [? [? _]]]]]; discriminate]).
    pose proof (revenue_vs_budget_outcome dfs y m) as Ho.
    destruct (timestamp_ok y m) eqn:Et.
    + destruct Ho as [res ->]. simpl.
      split; [discriminate|]. intros [_ [_ [y' [m' [[= <- <-] Hn]]]]]. congruence.
    + rewrite Ho. simpl. split.
      * intros [= <-]. repeat split. eauto.
      * intros [-> _]. reflexivity.
  - rewrite E. simpl. destruct y as [y|], m as [m|];
      try (split; [discriminate|intros [_ [_ [? [? [? _]]]]]; discriminate]).
    pose proof (opex_breakdown_outcome dfs y m) as Ho.
    destruct (timestamp_ok y m) eqn:Et.
    + destruct Ho as [fig ->]. simpl.
      split; [discriminate|]. intros [_ [_ [y' [m' [[= <- <-] Hn]]]]]. congruence.
    + rewrite Ho. simpl. split.
      * intros [= <-]. repeat split. eauto.
      * intros [-> _]. reflexivity.
  - destruct (cash_runway_months dfs);
      (split; [discriminate|intros [_ [? _]]; discriminate]).
Qed.

(** X14: a revenue-against-budget or opex-breakdown question that names
    its month and writes its year [20dd] is always answered, with a chart. *)
Theorem named_month_answered (q : string) (dfs : datasets) :
  needs_period (classify (lower q)) = true ->
  (exists pre k ds, month_year_phrase (chars (lower q)) pre k ds) ->
  exists a fig, plan_and_execute q dfs = Ok a /\ chart a = Some fig.
Proof.
  intros Hn [pre [k [ds Hp]]]. rewrite plan_and_execute_respond.
  destruct (parse_month_year_cases (lower q) (default_year dfs))
    as [[pre' [k' [ds' [v [Hp' [_ [_ [Hv E]]]]]]]]|Hother].
  2:{ exfalso. rewrite lower_idem in Hother.
      destruct Hother as [[Hno _]|[Hno _]]; exact (Hno _ _ _ Hp). }
  rewrite lower_idem in Hp'.
  assert (Hvalid : timestamp_ok (int_of_digits ds') v = true).
  { destruct Hp' as [ws [post [_ [Hk [_ Hds]]]]].
    apply year20_bounds in Hds. destruct (month_key_prefix Hk) as [v' [Hv' [_ Hb]]].
    assert (v' = v) by congruence. subst v'.
    apply timestamp_ok_ns. unfold ns_month.
    rewrite !andb_true_iff, !Z.leb_le. lia. }
  destruct (classify (lower q)); try discriminate Hn; simpl;
    unfold answer_revenue_vs_budget, answer_opex_breakdown; rewrite E; simpl.
  - pose proof (revenue_vs_budget_outcome dfs (int_of_digits ds') v) as Ho.
    rewrite Hvalid in Ho. destruct Ho as [res ->].
    do 2 eexists. split; reflexivity.
  - pose proof (opex_breakdown_outcome dfs (int_of_digits ds') v) as Ho.
    rewrite Hvalid in Ho. destruct Ho as [fig ->].
    do 2 eexists. split; reflexivity.
Qed.

Lemma cash_runway_none_iff (dfs : datasets) :
  cash_runway_months dfs = None
  <-> forall r, In r (actuals dfs) -> categorized (account r) = false.
Proof.
  split.
  - intros Hnone r Hr. destruct (categorized (account r)) eqn:Ec; [exfalso|reflexivity].
    assert (Hp : ebitda_period dfs (period_of (row_date r))) by (exists r; auto).
    apply ebitda_months_period in Hp.
    destruct (tail 3 (ebitda_months (ledger dfs))) as [|k ks] eqn:E.
    + apply tail_nil_inv in E; [|lia]. rewrite E in Hp. contradiction.
    + destruct (cash_runway_fields dfs) as [fig Hsome]; [rewrite E; discriminate|].
      congruence.
  - intros Hno. apply cash_runway_none.
    destruct (ebitda_months (ledger dfs)) as [|k ks] eqn:E; [reflexivity|exfalso].
    assert (Hk : In k (ebitda_months (ledger dfs))) by (rewrite E; now left).
    apply (proj1 (ebitda_months_In dfs k)) in Hk. destruct Hk as [r [Hr [Hc _]]].
    rewrite (Hno r Hr) in Hc. discriminate.
Qed.

(** X15: a runway question is answered "Not enough data to compute
    runway.", without a chart, exactly when the actuals have no revenue, cogs
    or opex row. *)
Theorem runway_not_enough_data (q : string) (dfs : datasets) :
  classify (lower q) = CashRunway ->
  plan_and_execute q dfs
  = Ok {| text := "Not enough data to compute runway."; chart := None |}
  <-> forall r, In r (actuals dfs) -> categorized (account r) = false.
Proof.
  intros Hc. rewrite plan_and_execute_respond, Hc, <- cash_runway_none_iff.
  simpl. unfold answer_cash_runway.
  destruct (cash_runway_months dfs); split; try reflexivity; discriminate.
Qed.

(** X16: an answer has no chart exactly when its text is one of the four
    fixed messages (the two prompts for a month and a year, the lack of data
    for the runway, the guidance); every computed metric comes with its
    chart. *)
Theorem chart_absent_iff_fixed_message (q : string) (dfs : datasets) (a : answer) :
  plan_and_execute q dfs = Ok a ->
  chart a = None <-> In (text a) chartless_texts.
Proof.
  rewrite plan_and_execute_respond.
  destruct (parse_month_year_total (lower q) (default_year dfs)) as [y [m E]].
  unfold chartless_texts, guidance.
  destruct (classify (lower q)); simpl;
    unfold answer_revenue_vs_budget, answer_opex_breakdown,
      answer_gross_margin_trend, answer_cash_runway.
  - rewrite E. cbn [bind]. destruct y as [y|], m as [m|];
      try (intros [= <-]; simpl; tauto).
    destruct (revenue_vs_budget_usd dfs y m) as [res|]; cbn [bind]; [|discriminate].
    intros [= <-]. cbn [chart text]. split; [discriminate|].
    intros [H|[H|[H|[H|[]]]]]; discriminate H.
  - intros [= <-]. cbn [chart text]. split; [discriminate|].
    intros [H|[H|[H|[H|[]]]]]; discriminate H.
  - rewrite E. cbn [bind]. destruct y as [y|], m as [m|];
      try (intros [= <-]; simpl; tauto).
    destruct (opex_breakdown_usd dfs y m) as [fig|]; cbn [bind]; [|discriminate].
    intros [= <-]. cbn [chart text]. split; [discriminate|].
    intros [H|[H|[H|[H|[]]]]]; discriminate H.
  - destruct (cash_runway_months dfs) as [res|].
    + intros [= <-]. cbn [chart text]. split; [discriminate|].
      intros [H|[H|[H|[H|[]]]]]; discriminate H.
    + intros [= <-]. simpl. tauto.
  - intros [= <-]. simpl. tauto.
Qed.


End WithPandas.

Lemma named_month_answered_witness :
  exists a fig,
    plan_and_execute (P := rowwise) "What was June 2025 revenue vs budget?" books = Ok a
    /\ chart a = Some fig.
Proof.
  apply (@named_month_answered rowwise "What was June 2025 revenue vs budget?" books).
  - reflexivity.
  - exists (chars "what was "), "june", (chars "2025").
    exists (chars " "), (chars " revenue vs budget?").
    split; [reflexivity|]. split; [unfold month_key; simpl; tauto|].
    split; [split; [discriminate|repeat constructor]|].
    exists "2"%char, "5"%char. repeat split.
Defined.


Lemma runway_not_enough_data_witness :
  plan_and_execute (P := rowwise) "show cash runway" no_data
  = Ok {| text := "Not enough data to compute runway."; chart := None |}
  <-> forall r, In r (actuals no_data) -> categorized (account r) = false.
Proof.
  apply (@runway_not_enough_data rowwise "show cash runway" no_data). reflexivity.
Defined.

Lemma chart_absent_iff_fixed_message_witness :
  chart {| text := guidance; chart := None |} = None
  <-> In (text {| text := guidance; chart := None |}) chartless_texts.
Proof.
  apply (@chart_absent_iff_fixed_message rowwise "gross margin" books).
  reflexivity.
Defined.

End MorePlannerFacts.

(* ================================================================== *)
(** ** The window and the case of the text *)

Module WindowCaseFacts.
Import Text Py Re ReSpec Planner Spec SpecMore Samples.
Import ReFacts PatternFacts WindowFacts MonthYearFacts MorePlannerFacts.

Lemma lower_keeps_space (a : ascii) : is_space (lower_char a) = is_space a.
Proof. destruct a as [[] [] [] [] [] [] [] []]; reflexivity. Qed.

Lemma lower_keeps_digit (a : ascii) : is_digit (lower_char a) = is_digit a.
Proof. destruct a as [[] [] [] [] [] [] [] []]; reflexivity. Qed.

Lemma lower_fixes_digit (a : ascii) : is_digit a = true -> lower_char a = a.
Proof. destruct a as [[] [] [] [] [] [] [] []]; intros H; try reflexivity; discriminate H. Qed.

Lemma lower_fixes_digits (ds : list ascii) :
  Forall (fun a => is_digit a = true) ds -> map lower_char ds = ds.
Proof.
  induction 1 as [|a ds Ha _ IH]; simpl; [reflexivity|].
  now rewrite IH, lower_fixes_digit.
Qed.

Lemma blanks_lower (ws : list ascii) : blanks (map lower_char ws) <-> blanks ws.
Proof.
  unfold blanks. rewrite Forall_map. split; intros [Hne Hall]; split.
  - intros ->. now apply Hne.
  - eapply Forall_impl; [|exact Hall]. intros a; cbv beta; rewrite lower_keeps_space; auto.
  - intros E. apply map_eq_nil in E. now apply Hne.
  - eapply Forall_impl; [|exact Hall]. intros a; cbv beta; rewrite lower_keeps_space; auto.
Qed.

Lemma number12_lower (ds : list ascii) : number12 (map lower_char ds) <-> number12 ds.
Proof.
  unfold number12. rewrite Forall_map, length_map. split; intros [Hlen Hall]; split; auto.
  - eapply Forall_impl; [|exact Hall]. intros a; cbv beta; rewrite lower_keeps_digit; auto.
  - eapply Forall_impl; [|exact Hall]. intros a; cbv beta; rewrite lower_keeps_digit; auto.
Qed.

Lemma spells_lower (w : list ascii) (s : string) :
  spells (map lower_char w) s <-> spells w s.
Proof.
  unfold spells. rewrite map_map.
  rewrite (map_ext _ lower_char) by apply lower_char_idem. reflexivity.
Qed.

(** a phrase of the text is a phrase of the text in small letters, at the
    same place and with the same number *)
Lemma window_phrase_lower (t pre ds : list ascii) :
  window_phrase t pre ds ->
  window_phrase (map lower_char t) (map lower_char pre) ds.
Proof.
  intros [l [ws1 [ws2 [mo [post [-> [Hl [Hw1 [Hd [Hw2 Hmo]]]]]]]]]].
  exists (map lower_char l), (map lower_char ws1), (map lower_char ws2),
    (map lower_char mo), (map lower_char post).
  rewrite !map_app. rewrite (lower_fixes_digits (proj2 Hd)).
  split; [reflexivity|].
  rewrite !spells_lower, !blanks_lower. auto.
Qed.

Lemma window_phrase_unlower (t pre' ds : list ascii) :
  window_phrase (map lower_char t) pre' ds ->
  exists pre, List.length pre = List.length pre' /\ window_phrase t pre ds.
Proof.
  intros [l' [ws1' [ws2' [mo' [post' [Ht [Hl [Hw1 [Hd [Hw2 Hmo]]]]]]]]]].
  apply map_eq_app in Ht. destruct Ht as [pre [x1 [-> [<- Ht]]]].
  apply map_eq_app in Ht. destruct Ht as [l [x2 [-> [<- Ht]]]].
  apply map_eq_app in Ht. destruct Ht as [ws1 [x3 [-> [<- Ht]]]].
  apply map_eq_app in Ht. destruct Ht as [ds0 [x4 [-> [<- Ht]]]].
  apply map_eq_app in Ht. destruct Ht as [ws2 [x5 [-> [<- Ht]]]].
  apply map_eq_app in Ht. destruct Ht as [mo [post [-> [<- _]]]].
  rewrite spells_lower in Hl, Hmo. rewrite blanks_lower in Hw1, Hw2.
  rewrite number12_lower in Hd.
  rewrite (lower_fixes_digits (proj2 Hd)).
  exists pre. split; [now rewrite length_map|].
  exists l, ws1, ws2, mo, post.
  split; [reflexivity|]. repeat (split; [assumption|]). assumption.
Qed.

(** X17: the window does not depend on the case of the text: the text in
    small letters, which is what the interpreter passes, gives the window of
    the text as typed. *)
Theorem parse_window_ignores_case (text : string) (d : Z) :
  _parse_window (lower text) d = _parse_window text d.
Proof.
  assert (Hc : chars (lower text) = map lower_char (chars text))
    by (unfold lower; apply chars_str).
  destruct (parse_window_cases text d) as [[pre [ds [Hp [Hleft [_ ->]]]]]|[Hno ->]];
    destruct (parse_window_cases (lower text) d)
      as [[pre' [ds' [Hp' [Hleft' [Huniq' ->]]]]]|[Hno' ->]];
    rewrite Hc in *.
  - f_equal. symmetry. apply Huniq'.
    pose proof (window_phrase_lower Hp) as Hpl.
    destruct (window_phrase_unlower _ Hp') as [pre2 [Hlen2 Hp2]].
    assert (Hlen : List.length (map lower_char pre) = List.length pre').
    { apply Nat.le_antisymm.
      - rewrite length_map, <- Hlen2. eapply Hleft; eauto.
      - eapply Hleft'; eauto. }
    replace pre' with (map lower_char pre); [exact Hpl|].
    destruct Hpl as [? [? [? [? [? [E1 _]]]]]].
    destruct Hp' as [? [? [? [? [? [E2 _]]]]]].
    eapply prefix_same_length; eassumption.
  - exfalso. exact (Hno' _ _ (window_phrase_lower Hp)).
  - exfalso. destruct (window_phrase_unlower _ Hp') as [pre2 [_ Hp2]].
    exact (Hno _ _ Hp2).
  - reflexivity.
Qed.

End WindowCaseFacts.

(* ================================================================== *)
(** ** The renaming of the columns *)

Module AppFacts.
Import App.
Local Open Scope string_scope.
Local Open Scope list_scope.

Lemma has_In (cols : list string) (c : string) : has cols c = true <-> In c cols.
Proof.
  unfold has. rewrite existsb_exists. split.
  - intros [x [Hx E]]. apply String.eqb_eq in E. now subst.
  - intros Hc. exists c. split; [exact Hc|apply String.eqb_refl].
Qed.

Lemma mem_In (x : string) (l : list string) : mem x l = true <-> In x l.
Proof. apply has_In. Qed.

Lemma first_present_Some (al cols : list string) (a : string) :
  first_present al cols = Some a -> In a al /\ In a cols.
Proof.
  induction al as [|x al IH]; simpl; [discriminate|].
  destruct (has cols x) eqn:E.
  - intros [= <-]. split; [now left|now apply has_In].
  - intros H. destruct (IH H). auto.
Qed.

Lemma first_present_None (al cols : list string) :
  first_present al cols = None -> forall a, In a al -> ~ In a cols.
Proof.
  induction al as [|x al IH]; simpl; [intros _ a []|].
  destruct (has cols x) eqn:E; [discriminate|].
  intros H a [<-|Ha].
  - intros Hin. apply has_In in Hin. congruence.
  - now apply IH.
Qed.

Lemma rename_In (a t x : string) (cols : list string) :
  In x (rename a t cols) <-> (x = t /\ In a cols) \/ (x <> a /\ In x cols).
Proof.
  unfold rename. rewrite in_map_iff. split.
  - intros [c [E Hc]]. destruct (String.eqb_spec c a) as [Eca|Hne].
    + subst c. left. auto.
    + right. subst x. auto.
  - intros [[-> Ha]|[Hne Hx]].
    + exists a. now rewrite String.eqb_refl.
    + exists x. split; [|exact Hx].
      destruct (String.eqb_spec x a); [contradiction|reflexivity].
Qed.

(** a turn leaves in place every column that is not one of its aliases *)
Lemma step_keeps (cols : list string) (e : string * list string) (x : string) :
  ~ In x (snd e) -> In x cols -> In x (rename_step cols e).
Proof.
  destruct e as [t al]. simpl. intros Hx Hin.
  destruct (has cols t); [exact Hin|].
  destruct (first_present al cols) as [a|] eqn:E; [|exact Hin].
  apply first_present_Some in E. destruct E as [Ha _].
  apply rename_In. right. split; [|exact Hin]. intros ->. contradiction.
Qed.

(** a turn brings in no name but its target *)
Lemma step_adds_target_only (cols : list string) (e : string * list string)
  (x : string) :
  x <> fst e -> In x (rename_step cols e) -> In x cols.
Proof.
  destruct e as [t al]. simpl. intros Hx Hin.
  destruct (has cols t); [exact Hin|].
  destruct (first_present al cols) as [a|] eqn:E; [|exact Hin].
  apply rename_In in Hin. destruct Hin as [[-> _]|[_ Hin]]; [contradiction|exact Hin].
Qed.

Lemma step_establishes (cols : list string) (t : string) (al : list string) :
  In t cols \/ (exists a, In a al /\ In a cols) ->
  In t (rename_step cols (t, al)).
Proof.
  simpl. intros H. destruct (has cols t) eqn:Et; [now apply has_In|].
  destruct (first_present al cols) as [a|] eqn:E.
  - apply first_present_Some in E. destruct E as [_ Ha].
    apply rename_In. left. auto.
  - destruct H as [H|[a [Ha Hc]]].
    + apply has_In in H. congruence.
    + exfalso. exact (@first_present_None _ _ E a Ha Hc).
Qed.

Lemma step_settles (cols : list string) (t : string) (al : list string) :
  ~ In t al ->
  In t (rename_step cols (t, al))
  \/ forall a, In a al -> ~ In a (rename_step cols (t, al)).
Proof.
  intros Ht. simpl. destruct (has cols t) eqn:Et; [left; now apply has_In|].
  destruct (first_present al cols) as [a|] eqn:E.
  - left. apply first_present_Some in E. destruct E as [_ Ha].
    apply rename_In. left. auto.
  - right. now apply first_present_None.
Qed.

Lemma fold_keeps (am : list (string * list string)) (cols : list string) (x : string) :
  (forall e, In e am -> ~ In x (snd e)) -> In x cols -> In x (rename_with am cols).
Proof.
  unfold rename_with. revert cols. induction am as [|e am IH]; intros cols Hx Hin;
    simpl; [exact Hin|].
  apply IH.
  - intros e' He'. apply Hx. now right.
  - apply step_keeps; [apply Hx; now left|exact Hin].
Qed.

Lemma fold_adds_targets_only (am : list (string * list string)) (cols : list string)
  (x : string) :
  (forall e, In e am -> x <> fst e) -> In x (rename_with am cols) -> In x cols.
Proof.
  unfold rename_with. revert cols. induction am as [|e am IH]; intros cols Hx Hin;
    simpl in *; [exact Hin|].
  apply (@step_adds_target_only cols e x); [apply Hx; now left|].
  apply IH; [|exact Hin]. intros e' He'. apply Hx. now right.
Qed.

Lemma targets_clear_spec (am : list (string * list string)) :
  targets_clear am = true ->
  forall e e', In e am -> In e' am -> ~ In (fst e) (snd e').
Proof.
  unfold targets_clear. rewrite forallb_forall. intros H e e' He He' Hin.
  specialize (H e He). rewrite forallb_forall in H. specialize (H e' He').
  apply mem_In in Hin. rewrite Hin in H. discriminate.
Qed.

Lemma aliases_disjoint_spec (pre post : list (string * list string))
  (e : string * list string) :
  aliases_disjoint (pre ++ e :: post) = true ->
  forall e' a, In e' (pre ++ post) -> In a (snd e) -> ~ In a (snd e').
Proof.
  induction pre as [|p pre IH]; simpl; intros H e' a He' Ha Hin.
  - apply andb_true_iff in H. destruct H as [H _].
    rewrite forallb_forall in H. specialize (H e' He').
    rewrite forallb_forall in H. specialize (H a Ha).
    apply mem_In in Hin. rewrite Hin in H. discriminate.
  - apply andb_true_iff in H. destruct H as [H1 H2].
    destruct He' as [<-|He'].
    + rewrite forallb_forall in H1.
      assert (He : In e (pre ++ e :: post)) by (apply in_or_app; right; now left).
      specialize (H1 e He). rewrite forallb_forall in H1. specialize (H1 a Hin).
      apply mem_In in Ha. rewrite Ha in H1. discriminate.
    + exact (IH H2 e' a He' Ha Hin).
Qed.

Section OnePass.
Variables (pre post : list (string * list string)) (t : string) (al : list string).
Let am := pre ++ (t, al) :: post.
Hypothesis Hclear : targets_clear am = true.
Hypothesis Hdisjoint : aliases_disjoint am = true.

Lemma target_no_alias (e : string * list string) : In e am -> ~ In t (snd e).
Proof.
  intros He. apply (@targets_clear_spec am Hclear (t, al) e); [|exact He].
  unfold am. apply in_or_app. right. now left.
Qed.

Lemma alias_no_target (e : string * list string) (a : string) :
  In e am -> In a al -> a <> fst e.
Proof.
  intros He Ha ->.
  apply (@targets_clear_spec am Hclear e (t, al) He); [|exact Ha].
  unfold am. apply in_or_app. right. now left.
Qed.

(** a target spelled in the columns, by its name or by an alias, is a
    column after the pass *)
Lemma pass_establishes (cols : list string) :
  In t cols \/ (exists a, In a al /\ In a cols) -> In t (rename_with am cols).
Proof.
  intros H. unfold am, rename_with. rewrite fold_left_app. simpl.
  apply fold_keeps.
  { intros e He. apply target_no_alias. unfold am. apply in_or_app. right. now right. }
  apply step_establishes.
  destruct H as [H|[a [Ha Hc]]].
  - left. apply fold_keeps; [|exact H].
    intros e He. apply target_no_alias. unfold am. apply in_or_app. now left.
  - right. exists a. split; [exact Ha|]. apply fold_keeps; [|exact Hc].
    intros e He. apply (@aliases_disjoint_spec pre post (t, al) Hdisjoint e a);
      [apply in_or_app; now left|exact Ha].
Qed.

(** after the pass no alias is left without its target *)
Lemma pass_settles (cols : list string) :
  In t (rename_with am cols)
  \/ forall a, In a al -> ~ In a (rename_with am cols).
Proof.
  unfold am, rename_with. rewrite fold_left_app. simpl.
  set (c1 := fold_left rename_step pre cols).
  assert (Ht : ~ In t al).
  { apply (@target_no_alias (t, al)). unfold am. apply in_or_app. right. now left. }
  destruct (@step_settles c1 t al Ht) as [H|H].
  - left. apply fold_keeps; [|exact H].
    intros e He. apply target_no_alias. unfold am. apply in_or_app. right. now right.
  - right. intros a Ha Hin. apply (H a Ha).
    apply (@fold_adds_targets_only post); [|exact Hin].
    intros e He. apply alias_no_target; [|exact Ha].
    unfold am. apply in_or_app. right. now right.
Qed.

End OnePass.

Lemma step_idle (cols : list string) (t : string) (al : list string) :
  In t cols \/ (forall a, In a al -> ~ In a cols) ->
  rename_step cols (t, al) = cols.
Proof.
  simpl. intros H. destruct (has cols t) eqn:Et; [reflexivity|].
  destruct (first_present al cols) as [a|] eqn:E; [|reflexivity].
  apply first_present_Some in E. destruct E as [Ha Hc].
  destruct H as [H|H].
  - apply has_In in H. congruence.
  - exfalso. exact (H a Ha Hc).
Qed.

Lemma alias_map_safe : targets_clear alias_map = true /\ aliases_disjoint alias_map = true.
Proof. split; reflexivity. Qed.

Lemma in_split_entry (am : list (string * list string)) (e : string * list string) :
  In e am -> exists pre post, am = pre ++ e :: post.
Proof. apply in_split. Qed.

Lemma rename_length (am : list (string * list string)) (cols : list string) :
  List.length (rename_with am cols) = List.length cols.
Proof.
  unfold rename_with. revert cols. induction am as [|[t al] am IH]; intros cols;
    simpl; [reflexivity|].
  rewrite IH. destruct (has cols t); [reflexivity|].
  destruct (first_present al cols); [apply length_map|reflexivity].
Qed.

(** X19: the renaming keeps the number of columns, and every standard name
    that the columns spell, as it is or by one of its aliases, is a column
    afterwards. *)
Theorem rename_by_aliases_finds_targets (cols : list string) (t : string)
  (al : list string) :
  In (t, al) alias_map ->
  List.length (_rename_by_aliases cols) = List.length cols
  /\ (In t cols \/ (exists a, In a al /\ In a cols) ->
      In t (_rename_by_aliases cols)).
Proof.
  intros He. split; [apply rename_length|].
  destruct (@in_split_entry _ _ He) as [pre [post E]].
  unfold _rename_by_aliases. destruct alias_map_safe as [Hc Hd].
  rewrite E in *. now apply pass_establishes.
Qed.

Lemma rename_by_aliases_finds_targets_witness :
  List.length (_rename_by_aliases ["month"; "company"; "fx rate"; "rate"])
  = List.length ["month"; "company"; "fx rate"; "rate"]
  /\ (In "rate_to_usd" ["month"; "company"; "fx rate"; "rate"]
      \/ (exists a, In a ["fx rate"; "rate"; "usd_per_unit"; "rate to usd"]
                    /\ In a ["month"; "company"; "fx rate"; "rate"]) ->
      In "rate_to_usd" (_rename_by_aliases ["month"; "company"; "fx rate"; "rate"])).
Proof.
  apply (@rename_by_aliases_finds_targets ["month"; "company"; "fx rate"; "rate"]
           "rate_to_usd" ["fx rate"; "rate"; "usd_per_unit"; "rate to usd"]).
  simpl. tauto.
Defined.

Lemma rename_by_aliases_settled (cols : list string) (t : string) (al : list string) :
  In (t, al) alias_map ->
  In t (_rename_by_aliases cols)
  \/ forall a, In a al -> ~ In a (_rename_by_aliases cols).
Proof.
  intros He. destruct (@in_split_entry _ _ He) as [pre [post E]].
  unfold _rename_by_aliases. destruct alias_map_safe as [Hc Hd].
  rewrite E in *. now apply pass_settles.
Qed.

(** X20: after the renaming, a column that still bears an alias stands
    beside a column that bears the standard name: a frame with a [rate]
    column left has a [rate_to_usd] column. *)
Theorem rename_by_aliases_leaves_no_orphan (cols : list string) (t a : string)
  (al : list string) :
  In (t, al) alias_map -> In a al ->
  In a (_rename_by_aliases cols) -> In t (_rename_by_aliases cols).
Proof.
  intros He Ha Hin.
  destruct (@rename_by_aliases_settled cols _ _ He) as [H|H]; [exact H|].
  exfalso. exact (H a Ha Hin).
Qed.

Lemma rename_by_aliases_leaves_no_orphan_witness :
  In "rate_to_usd" (_rename_by_aliases ["date"; "fx rate"; "rate"]).
Proof.
  apply (@rename_by_aliases_leaves_no_orphan ["date"; "fx rate"; "rate"]
           "rate_to_usd" "rate" ["fx rate"; "rate"; "usd_per_unit"; "rate to usd"]).
  - simpl. tauto.
  - simpl. tauto.
  - simpl. tauto.
Defined.

(** X21: renaming twice is renaming once. *)
Theorem rename_by_aliases_idempotent (cols : list string) :
  _rename_by_aliases (_rename_by_aliases cols) = _rename_by_aliases cols.
Proof.
  set (out := _rename_by_aliases cols).
  assert (Hall : forall e, In e alias_map -> rename_step out e = out).
  { intros [t al] He. apply step_idle. now apply rename_by_aliases_settled. }
  unfold _rename_by_aliases at 1, rename_with.
  induction alias_map as [|e am IH]; simpl; [reflexivity|].
  rewrite Hall by now left. apply IH. intros e' He'. apply Hall. now right.
Qed.

End AppFacts.
